(** * PersonSentimentAnalyzer: aggregation, alias merge and VK collection

    A shallow embedding of
    - [backend/app_logic.py]   ([AnalysisService._aggregate_nlp_results],
                                [AnalysisService.reaggregate_with_aliases]),
    - [backend/vk_parser/parser.py] ([AsyncVKAPI._call_method],
                                [VKGroupProcessor._parse_posts],
                                [VKGroupProcessor._parse_comments_for_post],
                                [VKGroupProcessor.process_and_write_to_file],
                                [fetch_vk_data]),
    - [backend/models_inference/nlp_data_preprocessor.py]
                               ([NLPDataPreprocessor]),
    - [backend/models_inference/pipeline_runner.py]
                               ([SentimentPipeline.run]),
    - [frontend/app_ui.py]     ([clean_vk_identifier_for_api]),
    the properties the specification states about them, and further
    properties of the code.

    Python [dict]s with string keys are [gmap string _], Python [int]s are
    [Z], Python [list]s are [list].  A Python [str] is a [string] whose
    characters are read as code points below 256. *)

From Stdlib Require Import ZArith QArith String Ascii List Lia.
From stdpp Require Import base option gmap strings list fin_maps sorting.

Open Scope string_scope.
Open Scope Z_scope.
Open Scope list_scope.

(** ** Python values that occur in the JSON-like records *)

Inductive pyval :=
| PNone
| PInt (z : Z)
| PStr (s : string).

Global Instance pyval_eq_dec : EqDecision pyval.
Proof. solve_decision. Defined.

(** [str.isspace] on the code points below 256: TAB..CR, FS..US, space,
    NEL and NBSP. *)
Definition is_space (c : ascii) : bool :=
  let n := nat_of_ascii c in
  ((9 <=? n) && (n <=? 13) || (28 <=? n) && (n <=? 32)
   || (n =? 133) || (n =? 160))%nat.

Fixpoint lstrip_chars (l : list ascii) : list ascii :=
  match l with
  | [] => []
  | c :: l' => if is_space c then lstrip_chars l' else l
  end.

(** [s.strip()] *)
Definition strip (s : string) : string :=
  string_of_list_ascii
    (rev (lstrip_chars (rev (lstrip_chars (list_ascii_of_string s))))).

(** [s] is empty or consists of whitespace only. *)
Definition whitespace_only (s : string) : bool :=
  forallb is_space (list_ascii_of_string s).

(** Truth value of a Python [str]: the empty string is falsy. *)
Definition str_truthy (s : string) : bool := negb (bool_decide (s = "")).

(** Truth value of [d.get(k)] for a [Dict[str, str]]: [None] and [""] are
    falsy. *)
Definition opt_truthy (o : option string) : bool :=
  match o with
  | Some s => str_truthy s
  | None => false
  end.

(** [sum(f(x) for x in d.values())] *)
Definition map_sum {A : Type} (f : A -> Z) (m : gmap string A) : Z :=
  map_fold (fun _ x acc => f x + acc) 0 m.

(** [sum(d.values())] for a [Dict[str, int]]. *)
Definition sum_values (d : gmap string Z) : Z := map_sum id d.

(** Sum of every count stored under one entity: all dates, all labels. *)
Definition entity_total (s : gmap string (gmap string (gmap string Z)))
    (e : string) : Z :=
  map_sum sum_values (default ∅ (s !! e)).

(** Sum of the counts of one (entity, date) bucket; 0 when there is none. *)
Definition cell_total (s : gmap string (gmap string (gmap string Z)))
    (e d : string) : Z :=
  match s !! e with
  | Some ds => match ds !! d with Some b => sum_values b | None => 0 end
  | None => 0
  end.

(** ** The aggregation engine ([AnalysisService]) *)

(** Outcome of
    [datetime.datetime.fromtimestamp(date_ts).strftime("%Y-%m-%d")]:
    the day, a caught [TypeError]/[ValueError], or another exception
    ([OverflowError], [OSError]) that the [except] clause lets through. *)
Inductive date_outcome :=
| DateKey (day : string)
| DateInvalid
| DateCrash.

(** The label map the front end falls back to ([app_ui.py], line 45). *)
Definition default_tesa_id2label : gmap Z string :=
  list_to_map [(0, "POS"); (1, "NEG"); (2, "NEU")].

(** A sample day function (UTC days of May 2024), used in the examples. *)
Definition example_fromtimestamp (z : Z) : date_outcome :=
  if z <? 1714521600 then DateInvalid
  else if z <? 1714608000 then DateKey "2024-05-01"
  else if z <? 1714694400 then DateKey "2024-05-02"
  else DateInvalid.

Section AnalysisService.

(** [self.tesa_id2label], taken from [config.TESA_ID2LABEL]. *)
Variable tesa_id2label : gmap Z string.

(** The local-time calendar day of an integer timestamp (platform and
    time-zone dependent, hence a parameter). *)
Variable fromtimestamp : Z -> date_outcome.

(** [self.tesa_id2label.values()] *)
Definition label_names : list string := (map_to_list tesa_id2label).*2.

(** [{label: 0 for label in self.tesa_id2label.values()}] followed by
    [bucket["UNKNOWN"] = 0]. *)
Definition zero_bucket : gmap string Z :=
  <["UNKNOWN" := 0]> (foldl (fun d label => <[label := 0]> d) ∅ label_names).

Definition date_key_of (date_ts : pyval) : date_outcome :=
  match date_ts with
  | PInt z => fromtimestamp z
  | _ => DateInvalid
  end.

Definition opt_pyval (o : option string) : pyval :=
  match o with
  | Some s => PStr s
  | None => PNone
  end.

(** [d.get(k)] for a [Dict[str, Any]]. *)
Definition py_get (d : gmap string pyval) (k : string) : pyval :=
  default PNone (d !! k).

(** The record appended to [detailed_mentions] (lines 114-125). *)
Definition mention_record (entity_normalized : string)
    (entity_original : option string) (polarity date_key : string)
    (date_ts : pyval) (meta : gmap string pyval) : gmap string pyval :=
  list_to_map
    [ ("entity_normalized", PStr entity_normalized);
      ("entity_original", opt_pyval entity_original);
      ("polarity", PStr polarity);
      ("date", PStr date_key);
      ("timestamp", date_ts);
      ("source_type", py_get meta "source_type");
      ("source_id", py_get meta "source_id");
      ("post_id_if_comment", py_get meta "post_id_parent");
      ("group_name", py_get meta "group_name");
      ("text_preview", py_get meta "original_text_preview") ].

(** [bucket[polarity] += 1] when the label is a key of the bucket,
    [bucket["UNKNOWN"] += 1] otherwise; [None] is the [KeyError] of a bucket
    without ["UNKNOWN"]. *)
Definition count_polarity (bucket : gmap string Z) (polarity : string)
    : option (gmap string Z) :=
  match bucket !! polarity with
  | Some n => Some (<[polarity := n + 1]> bucket)
  | None =>
      match bucket !! "UNKNOWN" with
      | Some n => Some (<["UNKNOWN" := n + 1]> bucket)
      | None => None
      end
  end.

(** Body of [for opinion_pair in text_opinions] (lines 93-125). *)
Definition aggregate_opinion (date_key : string) (date_ts : pyval)
    (meta : gmap string pyval)
    (st : gmap string (gmap string (gmap string Z)) * list (gmap string pyval))
    (opinion_pair : gmap string string)
    : option (gmap string (gmap string (gmap string Z)) * list (gmap string pyval)) :=
  let '(final_aggregated_data, detailed_mentions) := st in
  let entity_normalized := opinion_pair !! "entity" in
  let entity_original := opinion_pair !! "entity_original" in
  let polarity := opinion_pair !! "polarity" in
  match entity_normalized, polarity with
  | Some e, Some p =>
      if negb (str_truthy e) || negb (str_truthy p) then Some st
      else
        let dates := default ∅ (final_aggregated_data !! e) in
        let bucket := default zero_bucket (dates !! date_key) in
        match count_polarity bucket p with
        | Some bucket' =>
            Some (<[e := <[date_key := bucket']> dates]> final_aggregated_data,
                  (detailed_mentions
                     ++ [mention_record e entity_original p date_key date_ts meta])%list)
        | None => None
        end
  | _, _ => Some st
  end.

Fixpoint aggregate_opinions (date_key : string) (date_ts : pyval)
    (meta : gmap string pyval)
    (st : gmap string (gmap string (gmap string Z)) * list (gmap string pyval))
    (text_opinions : list (gmap string string))
    : option (gmap string (gmap string (gmap string Z)) * list (gmap string pyval)) :=
  match text_opinions with
  | [] => Some st
  | opinion_pair :: rest =>
      match aggregate_opinion date_key date_ts meta st opinion_pair with
      | Some st' => aggregate_opinions date_key date_ts meta st' rest
      | None => None
      end
  end.

(** Body of [for i, text_opinions in enumerate(nlp_results_per_text)]
    (lines 79-125). *)
Definition aggregate_text (metadata_for_nlp : list (gmap string pyval))
    (st : gmap string (gmap string (gmap string Z)) * list (gmap string pyval))
    (i : nat) (text_opinions : list (gmap string string))
    : option (gmap string (gmap string (gmap string Z)) * list (gmap string pyval)) :=
  match metadata_for_nlp !! i with
  | None => Some st
  | Some meta =>
      match py_get meta "date_timestamp" with
      | PNone => Some st
      | date_ts =>
          match date_key_of date_ts with
          | DateKey date_key =>
              aggregate_opinions date_key date_ts meta st text_opinions
          | DateInvalid => Some st
          | DateCrash => None
          end
      end
  end.

Fixpoint aggregate_texts (metadata_for_nlp : list (gmap string pyval))
    (st : gmap string (gmap string (gmap string Z)) * list (gmap string pyval))
    (i : nat) (nlp_results_per_text : list (list (gmap string string)))
    : option (gmap string (gmap string (gmap string Z)) * list (gmap string pyval)) :=
  match nlp_results_per_text with
  | [] => Some st
  | text_opinions :: rest =>
      match aggregate_text metadata_for_nlp st i text_opinions with
      | Some st' => aggregate_texts metadata_for_nlp st' (S i) rest
      | None => None
      end
  end.

(** [AnalysisService._aggregate_nlp_results]: the pair
    [(summary_by_entity_date, detailed_mentions)], or [None] when an
    exception leaves the function. *)
Definition _aggregate_nlp_results
    (nlp_results_per_text : list (list (gmap string string)))
    (metadata_for_nlp : list (gmap string pyval))
    : option (gmap string (gmap string (gmap string Z)) * list (gmap string pyval)) :=
  aggregate_texts metadata_for_nlp (∅, []) 0 nlp_results_per_text.

(** Number of mention records of one entity and day. *)
Definition mention_count (ms : list (gmap string pyval)) (e d : string) : nat :=
  length (filter (fun m => m !! "entity_normalized" = Some (PStr e)
                           ∧ m !! "date" = Some (PStr d)) ms).

(** The invariant of the aggregation loops: every bucket sums to the number
    of mention records of its entity and day. *)
Definition counts_agree
    (st : gmap string (gmap string (gmap string Z)) * list (gmap string pyval))
    : Prop :=
  forall E D, cell_total st.1 E D = Z.of_nat (mention_count st.2 E D).

(** Every bucket holds the catch-all label. *)
Definition buckets_seeded (s : gmap string (gmap string (gmap string Z))) : Prop :=
  forall E ds D b, s !! E = Some ds -> ds !! D = Some b -> is_Some (b !! "UNKNOWN").

(** No record has an ["entity"] key. *)
Definition no_entity_key (ms : list (gmap string pyval)) : Prop :=
  Forall (fun m => m !! "entity" = None) ms.

(** *** Alias merge on values *)

(** Lines 170-171:
    [new_summary[canonical][date_key][sentiment] =
       new_summary[canonical][date_key].get(sentiment, 0) + count]. *)
Definition add_count (canonical date_key : string)
    (sentiment : string) (count : Z)
    (new_summary : gmap string (gmap string (gmap string Z)))
    : gmap string (gmap string (gmap string Z)) :=
  let dates := default ∅ (new_summary !! canonical) in
  let bucket := default ∅ (dates !! date_key) in
  <[canonical :=
      <[date_key := <[sentiment := default 0 (bucket !! sentiment) + count]> bucket]>
        dates]> new_summary.

(** Lines 165-168: seed the canonical date bucket when it is missing. *)
Definition ensure_bucket (canonical date_key : string)
    (new_summary : gmap string (gmap string (gmap string Z)))
    : gmap string (gmap string (gmap string Z)) :=
  let dates := default ∅ (new_summary !! canonical) in
  match dates !! date_key with
  | Some _ => new_summary
  | None => <[canonical := <[date_key := zero_bucket]> dates]> new_summary
  end.

(** Body of [for date_key, sentiment_counts in new_summary[alias].items()]. *)
Definition merge_date (canonical : string)
    (new_summary : gmap string (gmap string (gmap string Z)))
    (item : string * gmap string Z)
    : gmap string (gmap string (gmap string Z)) :=
  let '(date_key, sentiment_counts) := item in
  foldl (fun new_summary '(sentiment, count) =>
           add_count canonical date_key sentiment count new_summary)
        (ensure_bucket canonical date_key new_summary)
        (map_to_list sentiment_counts).

(** Body of [for alias in aliases_to_merge] (lines 161-174). *)
Definition merge_alias (canonical : string)
    (new_summary : gmap string (gmap string (gmap string Z)))
    (alias : string) : gmap string (gmap string (gmap string Z)) :=
  if decide (alias = canonical) then new_summary
  else
    match new_summary !! alias with
    | Some dates =>
        delete alias
          (foldl (merge_date canonical) new_summary (map_to_list dates))
    | None => new_summary
    end.

(** [mention.get("entity") in aliases_to_merge] *)
Definition py_in (v : pyval) (aliases_to_merge : list string) : bool :=
  match v with
  | PStr s => bool_decide (s ∈ aliases_to_merge)
  | _ => false
  end.

(** Body of [for mention in new_detailed_mentions] (lines 176-177). *)
Definition rewrite_mention (aliases_to_merge : list string)
    (canonical : string) (mention : gmap string pyval) : gmap string pyval :=
  if py_in (py_get mention "entity") aliases_to_merge
  then <["entity" := PStr canonical]> mention
  else mention.

(** [AnalysisService.reaggregate_with_aliases] on values: the contents of
    the returned pair.  (Object identity is the subject of the store model
    further down.) *)
Definition reaggregate_with_aliases
    (current_summary : gmap string (gmap string (gmap string Z)))
    (current_detailed_mentions : list (gmap string pyval))
    (aliases_to_merge : list string) (canonical_name : string)
    : gmap string (gmap string (gmap string Z)) * list (gmap string pyval) :=
  if negb (str_truthy (strip canonical_name))
  then (current_summary, current_detailed_mentions)
  else
    let new_summary :=
      match current_summary !! canonical_name with
      | Some _ => current_summary
      | None => <[canonical_name := ∅]> current_summary
      end in
    (foldl (merge_alias canonical_name) new_summary aliases_to_merge,
     rewrite_mention aliases_to_merge canonical_name
       <$> current_detailed_mentions).

End AnalysisService.



(** ** The object store: [reaggregate_with_aliases] on objects

    Whether the function mutates its arguments or returns copies is a
    question about objects, so here dictionaries and lists live in a store,
    values refer to them by location, and every Python statement of the
    function is a read, a write or an allocation. *)

(** A value: an atom, or a reference to a [dict] or [list] object. *)
Inductive oval :=
| OAtom (v : pyval)
| ORef (l : nat).

Global Instance oval_eq_dec : EqDecision oval.
Proof. solve_decision. Defined.

Inductive pyobj :=
| ODict (d : gmap string oval)
| OList (items : list oval).

(** The values an object holds. *)
Definition children (o : pyobj) : list oval :=
  match o with
  | ODict d => (map_to_list d).*2
  | OList items => items
  end.

(** A statement either completes with a value or raises; both leave a
    store behind. *)
Inductive outcome (A : Type) :=
| Ok (a : A)
| Raise.
Arguments Ok {A} a.
Arguments Raise {A}.

Definition M (A : Type) : Type := list pyobj -> outcome A * list pyobj.

Definition ret {A} (a : A) : M A := fun h => (Ok a, h).

Definition raise {A} : M A := fun h => (Raise, h).

Definition bind {A B} (m : M A) (f : A -> M B) : M B :=
  fun h =>
    match m h with
    | (Ok a, h') => f a h'
    | (Raise, h') => (Raise, h')
    end.

Notation "'do' x <- m ; k" := (bind m (fun x => k))
  (at level 10, x pattern, m at level 99, k at level 200,
   format "'[v' 'do'  x  <-  m ; '/' k ']'").
Notation "m ;; k" := (bind m (fun _ => k))
  (at level 100, k at level 200, right associativity).

(** A new object. *)
Definition alloc (o : pyobj) : M nat :=
  fun h => (Ok (length h), h ++ [o]).

Definition load (l : nat) : M pyobj :=
  fun h =>
    match h !! l with
    | Some o => (Ok o, h)
    | None => (Raise, h)
    end.

(** In-place update of the object at [l]. *)
Definition store (l : nat) (o : pyobj) : M unit :=
  fun h =>
    if decide (l < length h)%nat then (Ok tt, <[l := o]> h) else (Raise, h).

Definition store_size : M nat := fun h => (Ok (length h), h).

(** The dictionary a value refers to; anything else raises (no [.items()],
    no item access). *)
Definition load_dict (v : oval) : M (nat * gmap string oval) :=
  match v with
  | ORef l =>
      do o <- load l;
      match o with
      | ODict d => ret (l, d)
      | OList _ => raise
      end
  | OAtom _ => raise
  end.

Definition load_list (v : oval) : M (nat * list oval) :=
  match v with
  | ORef l =>
      do o <- load l;
      match o with
      | OList items => ret (l, items)
      | ODict _ => raise
      end
  | OAtom _ => raise
  end.

(** [d[k]]: [KeyError] when the key is missing. *)
Definition dict_getitem (v : oval) (k : string) : M oval :=
  do (_, d) <- load_dict v;
  match d !! k with
  | Some x => ret x
  | None => raise
  end.

(** [d[k] = x] *)
Definition dict_setitem (v : oval) (k : string) (x : oval) : M unit :=
  do (l, d) <- load_dict v;
  store l (ODict (<[k := x]> d)).

(** [del d[k]] *)
Definition dict_delitem (v : oval) (k : string) : M unit :=
  do (l, d) <- load_dict v;
  match d !! k with
  | Some _ => store l (ODict (delete k d))
  | None => raise
  end.

(** [for x in xs: f(x)] *)
Fixpoint for_each {A} (f : A -> M unit) (xs : list A) : M unit :=
  match xs with
  | [] => ret tt
  | x :: rest => f x ;; for_each f rest
  end.

Fixpoint fold_each {A B} (f : B -> A -> M B) (b : B) (xs : list A) : M B :=
  match xs with
  | [] => ret b
  | x :: rest => do b' <- f b x; fold_each f b' rest
  end.

(** [copy.deepcopy(v, memo)]: atoms are shared, a [dict] or [list] already
    in [memo] is answered from it, any other is copied into a new object
    that is entered in [memo] before its items are copied.  [depth] bounds
    the nesting of the calls. *)
Fixpoint deepcopy_memo (depth : nat) (memo : gmap nat nat) (v : oval)
    : M (gmap nat nat * oval) :=
  match v with
  | OAtom _ => ret (memo, v)
  | ORef l =>
      match memo !! l with
      | Some l' => ret (memo, ORef l')
      | None =>
          match depth with
          | O => raise
          | S depth' =>
              do o <- load l;
              match o with
              | ODict d =>
                  do l' <- alloc (ODict ∅);
                  do memo' <-
                    fold_each
                      (fun memo '(k, x) =>
                         do (memo, x') <- deepcopy_memo depth' memo x;
                         dict_setitem (ORef l') k x' ;;
                         ret memo)
                      (<[l := l']> memo) (map_to_list d);
                  ret (memo', ORef l')
              | OList items =>
                  do l' <- alloc (OList []);
                  do memo' <-
                    fold_each
                      (fun memo x =>
                         do (memo, x') <- deepcopy_memo depth' memo x;
                         do (_, copied) <- load_list (ORef l');
                         store l' (OList (copied ++ [x'])) ;;
                         ret memo)
                      (<[l := l']> memo) items;
                  ret (memo', ORef l')
              end
          end
      end
  end.

(** [copy.deepcopy(v)].  The calls nest no deeper than there are objects
    to copy. *)
Definition deepcopy (v : oval) : M oval :=
  do n <- store_size;
  do (_, v') <- deepcopy_memo (S n) ∅ v;
  ret v'.

(** [a + b] on the values of a count dictionary. *)
Definition py_add (a b : oval) : M oval :=
  match a, b with
  | OAtom (PInt x), OAtom (PInt y) => ret (OAtom (PInt (x + y)))
  | OAtom (PStr x), OAtom (PStr y) => ret (OAtom (PStr (x +:+ y)))
  | _, _ => raise
  end.

(** [v in aliases_to_merge] *)
Definition oval_in (v : oval) (aliases_to_merge : list string) : bool :=
  match v with
  | OAtom a => py_in a aliases_to_merge
  | ORef _ => false
  end.

Section ReaggregateStore.
Variable tesa_id2label : gmap Z string.

(** Lines 165-171, for one [(date_key, sentiment_counts)] item. *)
Definition merge_date_store (new_summary : oval) (canonical_name : string)
    (item : string * oval) : M unit :=
  let '(date_key, sentiment_counts) := item in
  do canonical_dates <- dict_getitem new_summary canonical_name;
  do (_, dates) <- load_dict canonical_dates;
  match dates !! date_key with
  | Some _ => ret tt
  | None =>
      do bucket <- alloc (ODict (OAtom ∘ PInt <$> zero_bucket tesa_id2label));
      dict_setitem canonical_dates date_key (ORef bucket)
  end ;;
  do (_, counts) <- load_dict sentiment_counts;
  for_each
    (fun '(sentiment, count) =>
       do canonical_dates <- dict_getitem new_summary canonical_name;
       do bucket <- dict_getitem canonical_dates date_key;
       do (_, labels) <- load_dict bucket;
       do total <- py_add (default (OAtom (PInt 0)) (labels !! sentiment)) count;
       dict_setitem bucket sentiment total)
    (map_to_list counts).

(** Lines 161-174, for one alias. *)
Definition merge_alias_store (new_summary : oval) (canonical_name : string)
    (alias : string) : M unit :=
  if decide (alias = canonical_name) then ret tt
  else
    do (_, entities) <- load_dict new_summary;
    match entities !! alias with
    | Some alias_dates =>
        do (_, dates) <- load_dict alias_dates;
        for_each (merge_date_store new_summary canonical_name)
          (map_to_list dates) ;;
        dict_delitem new_summary alias
    | None => ret tt
    end.

(** Lines 176-177, for one mention. *)
Definition rewrite_mention_store (aliases_to_merge : list string)
    (canonical_name : string) (mention : oval) : M unit :=
  do (_, fields) <- load_dict mention;
  if oval_in (default (OAtom PNone) (fields !! "entity")) aliases_to_merge
  then dict_setitem mention "entity" (OAtom (PStr canonical_name))
  else ret tt.

(** [AnalysisService.reaggregate_with_aliases] on the store: the two
    arguments and the two results are references. *)
Definition reaggregate_with_aliases_store
    (current_summary current_detailed_mentions : oval)
    (aliases_to_merge : list string) (canonical_name : string)
    : M (oval * oval) :=
  if negb (str_truthy (strip canonical_name))
  then ret (current_summary, current_detailed_mentions)
  else
    do new_summary <- deepcopy current_summary;
    do new_detailed_mentions <- deepcopy current_detailed_mentions;
    do (_, entities) <- load_dict new_summary;
    match entities !! canonical_name with
    | Some _ => ret tt
    | None =>
        do fresh <- alloc (ODict ∅);
        dict_setitem new_summary canonical_name (ORef fresh)
    end ;;
    for_each (merge_alias_store new_summary canonical_name) aliases_to_merge ;;
    do (_, mentions) <- load_list new_detailed_mentions;
    for_each (rewrite_mention_store aliases_to_merge canonical_name) mentions ;;
    ret (new_summary, new_detailed_mentions).

End ReaggregateStore.

(** The objects a value leads to. *)
Inductive reachable (h : list pyobj) : oval -> nat -> Prop :=
| reachable_root l : reachable h (ORef l) l
| reachable_step v l o l' :
    reachable h v l -> h !! l = Some o -> ORef l' ∈ children o ->
    reachable h v l'.

(** *** What a call leaves of the store it was given *)

Section StoreInvariant.

(** The store at the call. *)
Variable h0 : list pyobj.

(** A value that refers to no object of [h0]. *)
Definition vfresh (v : oval) : Prop :=
  match v with
  | ORef l => (length h0 <= l)%nat
  | OAtom _ => True
  end.

Definition obj_fresh (o : pyobj) : Prop :=
  match o with
  | ODict d => map_Forall (fun _ v => vfresh v) d
  | OList items => Forall vfresh items
  end.

(** The store still starts with [h0], and the objects after it refer to
    objects after it only. *)
Definition extends (h : list pyobj) : Prop :=
  exists created, h = h0 ++ created ∧ Forall obj_fresh created.

(** [m] keeps [extends], and establishes [Q] when it completes. *)
Definition triple {A} (m : M A) (Q : A -> Prop) : Prop :=
  forall h, extends h ->
    extends (m h).2 ∧ match (m h).1 with Ok a => Q a | Raise => True end.

Definition memo_fresh (memo : gmap nat nat) : Prop :=
  map_Forall (fun _ l' => vfresh (ORef l')) memo.

End StoreInvariant.

(** *** Stores on which [copy.deepcopy] is run *)

(** Every reference held by an object of the store is a location of the
    store. *)
Definition closed (h : list pyobj) : Prop :=
  forall l o l', h !! l = Some o -> ORef l' ∈ children o -> (l' < length h)%nat.

(** [v] is an atom or refers to an object of [h]. *)
Definition valid_in (h : list pyobj) (v : oval) : Prop :=
  match v with
  | ORef l => (l < length h)%nat
  | OAtom _ => True
  end.

(** The keys of [memo] are objects of [h0]. *)
Definition keys_old (h0 : list pyobj) (memo : gmap nat nat) : Prop :=
  forall l l', memo !! l = Some l' -> (l < length h0)%nat.

(** [h] starts with [h0]. *)
Definition continues (h0 h : list pyobj) : Prop :=
  exists created, h = h0 ++ created.

(** The copy of a value under [memo]. *)
Definition rename (memo : gmap nat nat) (v : oval) : oval :=
  match v with
  | ORef l => ORef (default l (memo !! l))
  | OAtom _ => v
  end.

Definition rename_obj (memo : gmap nat nat) (o : pyobj) : pyobj :=
  match o with
  | ODict d => ODict (rename memo <$> d)
  | OList items => OList (rename memo <$> items)
  end.

(** [memo] has a copy for what [v] refers to. *)
Definition covered (memo : gmap nat nat) (v : oval) : Prop :=
  match v with
  | ORef l => is_Some (memo !! l)
  | OAtom _ => True
  end.

Definition injective_memo (memo : gmap nat nat) : Prop :=
  forall l1 l2 l', memo !! l1 = Some l' -> memo !! l2 = Some l' -> l1 = l2.

(** What the entries added to [memo] between the stores [h] and [h'] stand
    for: each is the copy of an object of [h0], created after [h], holding
    the copies of what the object holds. *)
Definition copied (h0 : list pyobj) (memo memo' : gmap nat nat)
    (h h' : list pyobj) : Prop :=
  forall l l', memo' !! l = Some l' -> memo !! l = None ->
    (length h <= l' < length h')%nat
    ∧ exists o, h0 !! l = Some o
        ∧ h' !! l' = Some (rename_obj memo' o)
        ∧ Forall (covered memo') (children o).

(** ** Summaries and mention lists laid out in the store *)

(** The objects of a summary: a [Dict[str, int]], a dictionary of them, and
    the dictionary of those. *)
Definition bucket_cell (b : gmap string Z) : pyobj := ODict (OAtom ∘ PInt <$> b).
Definition dates_cell (lbs : gmap string nat) : pyobj := ODict (ORef <$> lbs).
Definition root_cell (ents : gmap string (nat * gmap string nat)) : pyobj :=
  ODict (ORef ∘ fst <$> ents).

(** The count an item of a bucket holds. *)
Definition as_int (v : oval) : option Z :=
  match v with
  | OAtom (PInt z) => Some z
  | _ => None
  end.

(** The counts of the dictionary at [lb]. *)
Definition read_bucket (h : list pyobj) (lb : nat) : gmap string Z :=
  match h !! lb with
  | Some (ODict d) => omap as_int d
  | _ => ∅
  end.

Definition read_dates (h : list pyobj) (lbs : gmap string nat)
    : gmap string (gmap string Z) :=
  read_bucket h <$> lbs.

(** The summary that a layout stands for: [ents] gives, per entity, the
    location of its date dictionary and, per date, that of its bucket. *)
Definition read_summary (h : list pyobj)
    (ents : gmap string (nat * gmap string nat))
    : gmap string (gmap string (gmap string Z)) :=
  (fun p => read_dates h p.2) <$> ents.

(** The part a location plays in a layout. *)
Inductive role :=
| RoleRoot
| RoleDates (e : string)
| RoleBucket (e d : string).

Definition plays (root : nat) (ents : gmap string (nat * gmap string nat))
    (r : role) (l : nat) : Prop :=
  match r with
  | RoleRoot => l = root
  | RoleDates e => exists lbs, ents !! e = Some (l, lbs)
  | RoleBucket e d =>
      exists ld lbs, ents !! e = Some (ld, lbs) ∧ lbs !! d = Some l
  end.

(** The store holds a summary with the layout [(root, ents)]: every object
    of the layout is there, no object plays two parts, and none is one of
    the locations [avoid] (which are objects of the store too). *)
Definition laid (avoid : nat -> Prop) (h : list pyobj) (root : nat)
    (ents : gmap string (nat * gmap string nat)) : Prop :=
  h !! root = Some (root_cell ents)
  ∧ (forall e ld lbs, ents !! e = Some (ld, lbs) ->
       h !! ld = Some (dates_cell lbs))
  ∧ (forall e ld lbs d lb, ents !! e = Some (ld, lbs) -> lbs !! d = Some lb ->
       exists b, h !! lb = Some (bucket_cell b))
  ∧ (forall r1 r2 l, plays root ents r1 l -> plays root ents r2 l -> r1 = r2)
  ∧ (forall r l, plays root ents r l -> (l < length h)%nat ∧ ¬ avoid l)
  ∧ (forall l, avoid l -> (l < length h)%nat).

(** The objects of the canonical entity: the only ones the merge of a date
    writes to. *)
Definition canonical_part (ld : nat) (lbs : gmap string nat) (l : nat) : Prop :=
  l = ld ∨ exists d, lbs !! d = Some l.

(** The object of a mention record: a dictionary of atoms. *)
Definition record_cell (m : gmap string pyval) : pyobj := ODict (OAtom <$> m).

Definition as_atom (v : oval) : option pyval :=
  match v with
  | OAtom a => Some a
  | ORef _ => None
  end.

(** The record at [l]. *)
Definition read_record (h : list pyobj) (l : nat) : gmap string pyval :=
  match h !! l with
  | Some (ODict d) => omap as_atom d
  | _ => ∅
  end.

Definition read_mentions (h : list pyobj) (locs : list nat)
    : list (gmap string pyval) :=
  read_record h <$> locs.

(** The list at [lm] holds the records at [locs], in this order. *)
Definition mentions_at (h : list pyobj) (lm : nat) (locs : list nat) : Prop :=
  h !! lm = Some (OList (ORef <$> locs))
  ∧ forall l, l ∈ locs -> exists m, h !! l = Some (record_cell m).

(** Where the copy of the object at [l] is. *)
Definition copy_of (memo : gmap nat nat) (l : nat) : nat :=
  default l (memo !! l).

Definition copy_of_layout (memo : gmap nat nat)
    (ents : gmap string (nat * gmap string nat))
    : gmap string (nat * gmap string nat) :=
  (fun p : nat * gmap string nat => (copy_of memo p.1, copy_of memo <$> p.2))
    <$> ents.

(** A checker for [closed]. *)
Definition valid_inb (n : nat) (v : oval) : bool :=
  match v with
  | ORef l => (l <? n)%nat
  | OAtom _ => true
  end.

Definition closedb (h : list pyobj) : bool :=
  forallb (fun o => forallb (valid_inb (length h)) (children o)) h.

(** A store with one entity, one date and one mention. *)
Definition example_layout : gmap string (nat * gmap string nat) :=
  {[ "Ivanov I." := (1%nat, {[ "2024-05-01" := 2%nat ]}) ]}.

Definition example_store : list pyobj :=
  [ root_cell example_layout;
    dates_cell {[ "2024-05-01" := 2%nat ]};
    bucket_cell {[ "POS" := 2 ]};
    OList [ORef 4];
    record_cell {[ "entity" := PStr "Ivanov I." ]} ].

(** ** The wire client ([AsyncVKAPI._call_method]) *)

(** What one pass through the [try] block (lines 85-109) meets, in the order
    the code tests it:
    - [ClientError]: [session.post], [response.json()] or
      [response.raise_for_status()] raises an [aiohttp.ClientError]
      (transport failure, HTTP error status);
    - [OtherException]: an exception that is no [aiohttp.ClientError];
    - [NonJson]: the [Content-Type] does not contain [application/json];
    - [ApiError code msg]: the JSON body has an ["error"] object, with its
      ["error_code"] ([None] when absent) and message;
    - [Payload r]: no error object; [r] is [data.get("response")]. *)
Inductive attempt_outcome (R : Type) :=
| ClientError
| OtherException
| NonJson
| ApiError (error_code : option Z) (error_msg : string)
| Payload (response : R).
Arguments ClientError {R}.
Arguments OtherException {R}.
Arguments NonJson {R}.
Arguments ApiError {R} error_code error_msg.
Arguments Payload {R} response.

(** The [VKAPIError]s that [_call_method] raises, by the line that raises. *)
Inductive vk_api_error :=
| UnexpectedContentType                                   (* line 92 *)
| ApiErrorFatal (error_code : option Z) (error_msg : string)       (* line 104 *)
| ApiErrorUnresolved (error_code : option Z) (error_msg : string)  (* line 105 *)
| NetworkErrorAfterRetries                                (* line 114 *)
| FailedAfterRetries.                                     (* line 118 *)

Inductive call_result (R : Type) :=
| Returned (response : R)
| RaisedVKAPIError (e : vk_api_error)
| RaisedOther.
Arguments Returned {R} response.
Arguments RaisedVKAPIError {R} e.
Arguments RaisedOther {R}.

(** What the call does besides computing its result: the requests it sends
    and the [asyncio.sleep]s it performs, the back-off sleeps of the error
    branches apart from the delay after a successful call (line 108). *)
Inductive wire_event :=
| EvPost (attempt : nat)
| EvBackoff (attempt : nat) (seconds : Q)
| EvDelayAfterCall (seconds : Q).

(** The fields of [AsyncVKAPI] and of [config] that [_call_method] reads.
    Delays are exact rationals. *)
Record wire_config := {
  max_retries : nat;
  base_retry_delay_s : Q;
  rate_limit_delay_s : Q;
  (** [config.DELAY_AFTER_API_CALL_SECONDS], when [config] has it *)
  delay_after_api_call : option Q
}.

Section WireClient.
Context {R : Type}.
Variable cfg : wire_config.

(** The stubbed transport: what the [attempt]-th request meets. *)
Variable wire : nat -> attempt_outcome R.

(** [self.base_retry_delay_s * (2 ** attempt)] *)
Definition exponential_delay (attempt : nat) : Q :=
  base_retry_delay_s cfg * inject_Z (2 ^ Z.of_nat attempt).

(** [self.rate_limit_delay_s + (attempt * 5)] *)
Definition rate_limit_delay (attempt : nat) : Q :=
  rate_limit_delay_s cfg + inject_Z (Z.of_nat attempt * 5).

Definition is_last_attempt (attempt : nat) : bool :=
  Z.of_nat attempt =? Z.of_nat (max_retries cfg) - 1.

(** The outcomes after which the loop sleeps and goes on (when the attempt
    is not the last one). *)
Definition retried (o : attempt_outcome R) : Prop :=
  match o with
  | ClientError | NonJson => True
  | ApiError code _ => code = Some 6 ∨ code = Some 29
  | _ => False
  end.

Definition delay_after_call_events : list wire_event :=
  match delay_after_api_call cfg with
  | Some d => [EvDelayAfterCall d]
  | None => []
  end.

(** [for attempt in range(self.max_retries)], with [remaining] iterations
    left, and what follows the loop (lines 116-118). *)
Fixpoint call_loop (remaining : nat) (attempt : nat) (trace : list wire_event)
    : call_result R * list wire_event :=
  match remaining with
  | O => (RaisedVKAPIError FailedAfterRetries, trace)
  | S remaining' =>
      let trace := trace ++ [EvPost attempt] in
      match wire attempt with
      | NonJson =>
          if Z.of_nat attempt <? Z.of_nat (max_retries cfg) - 1
          then call_loop remaining' (S attempt)
                 (trace ++ [EvBackoff attempt (exponential_delay attempt)])
          else (RaisedVKAPIError UnexpectedContentType, trace)
      | ApiError error_code error_msg =>
          if decide (error_code = Some 6) then
            let trace := trace ++ [EvBackoff attempt (exponential_delay attempt)] in
            if is_last_attempt attempt
            then (RaisedVKAPIError (ApiErrorUnresolved error_code error_msg), trace)
            else call_loop remaining' (S attempt) trace
          else if decide (error_code = Some 29) then
            let trace := trace ++ [EvBackoff attempt (rate_limit_delay attempt)] in
            if is_last_attempt attempt
            then (RaisedVKAPIError (ApiErrorUnresolved error_code error_msg), trace)
            else call_loop remaining' (S attempt) trace
          else (RaisedVKAPIError (ApiErrorFatal error_code error_msg), trace)
      | Payload response =>
          (Returned response, trace ++ delay_after_call_events)
      | ClientError =>
          if is_last_attempt attempt
          then (RaisedVKAPIError NetworkErrorAfterRetries, trace)
          else call_loop remaining' (S attempt)
                 (trace ++ [EvBackoff attempt (exponential_delay attempt)])
      | OtherException => (RaisedOther, trace)
      end
  end.

(** [AsyncVKAPI._call_method]: the result and the trace of the call. *)
Definition _call_method : call_result R * list wire_event :=
  call_loop (max_retries cfg) 0 [].

End WireClient.

(** Seconds of back-off slept during a call. *)
Fixpoint total_backoff (trace : list wire_event) : Q :=
  match trace with
  | [] => 0
  | EvBackoff _ d :: rest => d + total_backoff rest
  | _ :: rest => total_backoff rest
  end.

(** Requests sent during a call. *)
Definition posts_sent (trace : list wire_event) : list nat :=
  omap (fun ev => match ev with EvPost a => Some a | _ => None end) trace.

(** ** One group ([VKGroupProcessor.process_and_write_to_file]) *)

(** [self.group_info] *)
Record group_info := {
  vk_group_id : Z;
  screen_name : option string;
  name : option string
}.

(** An element of the list [_parse_posts] returns (lines 210-212). *)
Record post_data := {
  vk_post_id : Z;
  owner_id : Z;
  date : Z;
  text : string;
  comments_api_count : Z
}.

(** An element of the list [_parse_comments_for_post] returns. *)
Record comment_data := {
  vk_comment_id : Z;
  from_id : option Z;
  comment_date : Z;
  comment_text : string
}.

(** One line of the output file: the dictionary of lines 293-297. *)
Record collection_record := {
  rec_group_id : Z;
  rec_group_screen_name : option string;
  rec_group_name : option string;
  rec_post : post_data;
  rec_comments : list comment_data
}.

(** When the output file fails: not at all, in [open], or in the [write]
    that follows [k] successful ones. *)
Inductive io_fault :=
| NoFault
| OpenFails
| WriteFails (k : nat).

(** The loop of lines 303-305 over the entries still to write; [budget] is
    the number of writes that succeed before one raises [IOError] ([None]:
    all succeed).  Returns the file, the counter [group_posts_saved] and
    whether the loop completed. *)
Fixpoint write_entries (entries : list collection_record) (budget : option nat)
    (file : list collection_record) (group_posts_saved : Z)
    : list collection_record * Z * bool :=
  match entries with
  | [] => (file, group_posts_saved, true)
  | entry_to_write :: rest =>
      match budget with
      | Some O => (file, group_posts_saved, false)
      | Some (S k) =>
          write_entries rest (Some k) (file ++ [entry_to_write])
            (group_posts_saved + 1)
      | None =>
          write_entries rest None (file ++ [entry_to_write])
            (group_posts_saved + 1)
      end
  end.

Section GroupProcessor.

(** Result of [_fetch_group_info]: the group, or [None] when it returns
    [False]. *)
Variable fetched_group : option group_info.

(** Result of [_parse_posts]. *)
Variable posts_in_period : list post_data.

(** Result of [_parse_comments_for_post] for a post id; [None] when it
    raises. *)
Variable parse_comments_for_post : Z -> option (list comment_data).

(** Lines 288-297. *)
Definition group_record (g : group_info) (post : post_data) : collection_record :=
  let comments_for_this_post :=
    if 0 <? comments_api_count post
    then default [] (parse_comments_for_post (vk_post_id post))
    else [] in
  {| rec_group_id := vk_group_id g;
     rec_group_screen_name := screen_name g;
     rec_group_name := name g;
     rec_post := post;
     rec_comments := comments_for_this_post |}.

Definition all_group_data_to_write (g : group_info) : list collection_record :=
  group_record g <$> posts_in_period.

(** [process_and_write_to_file]: the saved count it returns and the output
    file after it. *)
Definition process_and_write_to_file (fault : io_fault)
    (file : list collection_record) : Z * list collection_record :=
  match fetched_group with
  | None => (0, file)
  | Some g =>
      match posts_in_period with
      | [] => (0, file)
      | _ =>
          match all_group_data_to_write g with
          | [] => (0, file)
          | batch =>
              match fault with
              | OpenFails => (0, file)
              | _ =>
                  let budget :=
                    match fault with WriteFails k => Some k | _ => None end in
                  let '(file', group_posts_saved, completed) :=
                    write_entries (reverse batch) budget file 0 in
                  if completed then (group_posts_saved, file') else (0, file')
              end
          end
      end
  end.

End GroupProcessor.

(** Newest first: the order in which [wall.get] lists posts. *)
Definition newest_first (posts : list post_data) : Prop :=
  Sorted (fun a b => date b <= date a) posts.

(** Ascending timestamps. *)
Definition chronological (records : list collection_record) : Prop :=
  Sorted (fun a b => date (rec_post a) <= date (rec_post b)) records.

(** ** The coordinator ([fetch_vk_data]) *)

(** An element of the list [asyncio.gather(..., return_exceptions=True)]
    returns: the saved count of a group, or the exception its task raised. *)
Inductive task_result :=
| TaskSaved (saved : Z)
| TaskException.

(** How a run of [fetch_vk_data] ends: with a raised exception, or with the
    value it returns, the path [output_file]. *)
Inductive fetch_result :=
| FetchValueError
| FetchIOError
| FetchReturns (output_file : string).

(** Lines 362-364. *)
Definition total_posts_saved (results : list task_result) : Z :=
  foldl (fun total result =>
           match result with
           | TaskSaved n => total + n
           | TaskException => total
           end) 0 results.

(** [fetch_vk_data]: its result, and the total of the final log line (line
    365) when that line is reached.
    [clear_ok]: the output file could be created or cleared;
    [service_token]: [config.VK_SERVICE_TOKEN];
    [results]: what [gather] returns for the group tasks. *)
Definition fetch_vk_data (start_ts end_ts : Z) (output_file : string)
    (clear_ok : bool) (service_token : option string)
    (results : list task_result) : fetch_result * option Z :=
  if end_ts <? start_ts then (FetchValueError, None)
  else if negb clear_ok then (FetchIOError, None)
  else if negb (opt_truthy service_token) then (FetchValueError, None)
  else (FetchReturns output_file, Some (total_posts_saved results)).

(** ** Counts of one label, and what the aggregation keeps true *)

(** [summary.get(e, {}).get(d, {}).get(label, 0)] *)
Definition count_at (s : gmap string (gmap string (gmap string Z)))
    (e d label : string) : Z :=
  match s !! e with
  | Some ds =>
      match ds !! d with
      | Some b => default 0 (b !! label)
      | None => 0
      end
  | None => 0
  end.

(** The key under which lines 109-112 count a polarity: the polarity itself
    when it is a key of the bucket (a label of the map, or ["UNKNOWN"]),
    ["UNKNOWN"] otherwise. *)
Definition counted_under (tesa_id2label : gmap Z string) (polarity : string)
    : string :=
  if decide (is_Some (zero_bucket tesa_id2label !! polarity))
  then polarity else "UNKNOWN".

Definition mention_slot (tesa_id2label : gmap Z string)
    (m : gmap string pyval) : option string :=
  match m !! "polarity" with
  | Some (PStr p) => Some (counted_under tesa_id2label p)
  | _ => None
  end.

(** Number of mention records of one entity and day whose polarity is
    counted under the key [k]. *)
Definition slot_count (tesa_id2label : gmap Z string)
    (ms : list (gmap string pyval)) (e d k : string) : nat :=
  length (filter (fun m => m !! "entity_normalized" = Some (PStr e)
                           ∧ m !! "date" = Some (PStr d)
                           ∧ mention_slot tesa_id2label m = Some k) ms).

(** The invariant of the aggregation loops, label by label: every bucket
    has the keys of a new bucket, and each of its counts is the number of
    mention records counted under its key. *)
Definition labels_agree (tesa_id2label : gmap Z string)
    (st : gmap string (gmap string (gmap string Z)) * list (gmap string pyval))
    : Prop :=
  (forall E ds D b, st.1 !! E = Some ds -> ds !! D = Some b ->
     forall k, is_Some (b !! k) <-> is_Some (zero_bucket tesa_id2label !! k))
  ∧ forall E D k,
      count_at st.1 E D k = Z.of_nat (slot_count tesa_id2label st.2 E D k).


(** No entity of the summary is the empty name or without a date, and
    every bucket counts at least one mention. *)
Definition cells_counted (s : gmap string (gmap string (gmap string Z))) : Prop :=
  forall E ds, s !! E = Some ds ->
    E ≠ "" ∧ ds ≠ ∅ ∧ forall D b, ds !! D = Some b -> 1 <= sum_values b.

(** The inputs of the examples: two texts, the first with a label of the
    map, a polarity that is no label and an opinion without entity. *)
Definition example_metadata : list (gmap string pyval) :=
  [ {[ "date_timestamp" := PInt 1714557600; "source_type" := PStr "post";
       "source_id" := PInt 17; "group_name" := PStr "news" ]};
    {[ "date_timestamp" := PInt 1714644000; "source_type" := PStr "comment";
       "source_id" := PInt 18; "post_id_parent" := PInt 17 ]} ].

Definition example_judgments : list (list (gmap string string)) :=
  [ [ {[ "entity" := "Ivanov"; "entity_original" := "Ivanova";
         "polarity" := "POS" ]};
      {[ "entity" := "Ivanov"; "polarity" := "MIXED" ]};
      {[ "entity" := ""; "polarity" := "POS" ]} ];
    [ {[ "entity" := "Ivanov"; "polarity" := "NEG" ]} ] ].

Definition example_summary : gmap string (gmap string (gmap string Z)) :=
  {[ "Ivanov" :=
       {[ "2024-05-01" :=
            {[ "POS" := 1; "NEG" := 0; "NEU" := 0; "UNKNOWN" := 1 ]};
          "2024-05-02" :=
            {[ "POS" := 0; "NEG" := 1; "NEU" := 0; "UNKNOWN" := 0 ]} ]} ]}.

Definition example_mentions : list (gmap string pyval) :=
  [ mention_record "Ivanov" (Some "Ivanova") "POS" "2024-05-01"
      (PInt 1714557600)
      {[ "date_timestamp" := PInt 1714557600; "source_type" := PStr "post";
         "source_id" := PInt 17; "group_name" := PStr "news" ]};
    mention_record "Ivanov" None "MIXED" "2024-05-01" (PInt 1714557600)
      {[ "date_timestamp" := PInt 1714557600; "source_type" := PStr "post";
         "source_id" := PInt 17; "group_name" := PStr "news" ]};
    mention_record "Ivanov" None "NEG" "2024-05-02" (PInt 1714644000)
      {[ "date_timestamp" := PInt 1714644000; "source_type" := PStr "comment";
         "source_id" := PInt 18; "post_id_parent" := PInt 17 ]} ].

(** [sum(summary.get(a, {}).get(d, {}).get(label, 0) for a in aliases
         if a != canonical)] *)
Definition aliases_count (s : gmap string (gmap string (gmap string Z)))
    (aliases : list string) (canonical d label : string) : Z :=
  foldr (fun a total =>
           (if decide (a = canonical) then 0 else count_at s a d label) + total)
        0 aliases.

(** A summary of two spellings of a name and one other entity. *)
Definition example_two_spellings : gmap string (gmap string (gmap string Z)) :=
  {[ "Ivanov" :=
       {[ "2024-05-01" :=
            {[ "POS" := 1; "NEG" := 0; "NEU" := 0; "UNKNOWN" := 1 ]} ]};
     "Ivanov I." :=
       {[ "2024-05-01" :=
            {[ "POS" := 2; "NEG" := 1; "NEU" := 0; "UNKNOWN" := 0 ]};
          "2024-05-02" :=
            {[ "POS" := 0; "NEG" := 0; "NEU" := 3; "UNKNOWN" := 0 ]} ]};
     "Petrov" :=
       {[ "2024-05-02" :=
            {[ "POS" := 0; "NEG" := 4; "NEU" := 0; "UNKNOWN" := 0 ]} ]} ]}.

(** The attempts after which a call slept before going on or giving up. *)
Definition backoff_attempts (trace : list wire_event) : list nat :=
  omap (fun ev => match ev with EvBackoff a _ => Some a | _ => None end) trace.


(** The defaults of [AsyncVKAPI.__init__] and of [config]. *)
Definition default_wire_config : wire_config :=
  {| max_retries := 3; base_retry_delay_s := 1; rate_limit_delay_s := 10;
     delay_after_api_call := Some (37 # 100) |}.

(** ** The posts of a group ([VKGroupProcessor._parse_posts]) *)

(** An element of ['items'] in the response of [wall.get], as the code reads
    it: [None] is a key that the item does not have.  The values, when
    present, have the types of the VK API. *)
Record wall_item := {
  wi_id : option Z;
  wi_owner_id : option Z;
  wi_date : option Z;
  wi_text : option string;
  (** [post_item.get('comments', {}).get('count', 0)], when both keys are
      there *)
  wi_comments_count : option Z
}.

(** How the [for] loop over the items of a chunk ends. *)
Inductive scan_end :=
| ScanDone
| ScanStop
| ScanRaised.

Section PostsParser.

(** [self.start_ts], [self.end_ts], [self.posts_chunk_size] *)
Variables start_ts end_ts posts_chunk_size : Z.

(** [self.api.wall_get(owner_id=..., count=self.posts_chunk_size,
    offset=offset)] for the group, by offset: [Returned None] is a response
    that is falsy or has no ['items']. *)
Variable wall_get : Z -> call_result (option (list wall_item)).

(** Lines 210-212: the dictionary built for an item; [None] is the
    [KeyError] of a missing ['id'] or ['owner_id']. *)
Definition post_data_of (post_item : wall_item) (item_date : Z)
    : option post_data :=
  match wi_id post_item, wi_owner_id post_item with
  | Some id, Some owner =>
      Some {| vk_post_id := id; owner_id := owner; date := item_date;
              text := strip (default "" (wi_text post_item));
              comments_api_count := default 0 (wi_comments_count post_item) |}
  | _, _ => None
  end.

(** The loop of lines 207-213 over the items that are left; the flag is
    [false] when an item raised. *)
Fixpoint scan_posts (items : list wall_item)
    (collected_posts_data : list post_data) : list post_data * bool :=
  match items with
  | [] => (collected_posts_data, true)
  | post_item :: rest =>
      match wi_date post_item with
      | None => (collected_posts_data, false)
      | Some d =>
          if end_ts <? d then scan_posts rest collected_posts_data
          else if start_ts <=? d then
            match post_data_of post_item d with
            | None => (collected_posts_data, false)
            | Some post =>
                if str_truthy (text post)
                then scan_posts rest (collected_posts_data ++ [post])
                else scan_posts rest collected_posts_data
            end
          else scan_posts rest collected_posts_data
      end
  end.

(** The [while True] loop of lines 198-218 with [fuel] iterations allowed:
    the posts collected and the offsets requested, or [None] when the
    iterations do not suffice. *)
Fixpoint parse_posts_loop (fuel : nat) (offset : Z)
    (collected_posts_data : list post_data) (requests : list Z)
    : option (list post_data * list Z) :=
  match fuel with
  | O => None
  | S fuel' =>
      let requests := requests ++ [offset] in
      match wall_get offset with
      | Returned (Some items) =>
          match last items with
          | None => Some (collected_posts_data, requests)
          | Some oldest =>
              match wi_date oldest with
              | None => Some (collected_posts_data, requests)
              | Some oldest_post_date_in_chunk =>
                  let stop_fetching_posts :=
                    oldest_post_date_in_chunk <? start_ts in
                  let '(collected_posts_data, completed) :=
                    scan_posts items collected_posts_data in
                  if negb completed then Some (collected_posts_data, requests)
                  else if stop_fetching_posts
                  then Some (collected_posts_data, requests)
                  else if Z.of_nat (length items) <? posts_chunk_size
                  then Some (collected_posts_data, requests)
                  else parse_posts_loop fuel' (offset + posts_chunk_size)
                         collected_posts_data requests
              end
          end
      | _ => Some (collected_posts_data, requests)
      end
  end.

(** [VKGroupProcessor._parse_posts] *)
Definition _parse_posts (fuel : nat) (vk_group_id_numeric : option Z)
    : option (list post_data * list Z) :=
  match vk_group_id_numeric with
  | None => Some ([], [])
  | Some _ => parse_posts_loop fuel 0 [] []
  end.

(** The post that the loop collects for an item, if any. *)
Definition collected_post (post_item : wall_item) : option post_data :=
  match wi_date post_item with
  | Some d =>
      if (start_ts <=? d) && (d <=? end_ts) then
        match post_data_of post_item d with
        | Some post => if str_truthy (text post) then Some post else None
        | None => None
        end
      else None
  | None => None
  end.

End PostsParser.

(** An item with the keys the loop reads without a default. *)
Definition wall_item_complete (post_item : wall_item) : Prop :=
  is_Some (wi_id post_item) ∧ is_Some (wi_owner_id post_item)
  ∧ is_Some (wi_date post_item).

(** The wall lists its items newest first. *)
Definition wall_newest_first (wall : list wall_item) : Prop :=
  StronglySorted (fun a b => default 0 (wi_date b) <= default 0 (wi_date a)) wall.

(** [wall.get] on a wall of finitely many items: the [count] items from
    [offset] on. *)
Definition serve_wall (wall : list wall_item) (count : Z) (offset : Z)
    : call_result (option (list wall_item)) :=
  Returned (Some (take (Z.to_nat count) (drop (Z.to_nat offset) wall))).

(** The API with every failing request answered by an empty response. *)
Definition quiet_wall (wall_get : Z -> call_result (option (list wall_item)))
    : Z -> call_result (option (list wall_item)) :=
  fun offset =>
    match wall_get offset with
    | Returned response => Returned response
    | _ => Returned None
    end.

(** A wall of three posts, the second one without text. *)
Definition example_wall : list wall_item :=
  [ {| wi_id := Some 103; wi_owner_id := Some (-7); wi_date := Some 1714650000;
       wi_text := Some "  Ivanov spoke today "; wi_comments_count := Some 2 |};
    {| wi_id := Some 102; wi_owner_id := Some (-7); wi_date := Some 1714600000;
       wi_text := None; wi_comments_count := None |};
    {| wi_id := Some 101; wi_owner_id := Some (-7); wi_date := Some 1714560000;
       wi_text := Some "Petrov answers"; wi_comments_count := None |} ].

(** ** The comments of a post
    ([VKGroupProcessor._parse_comments_for_post]) *)

(** An element of ['items'] in the response of [wall.getComments], as the
    code reads it. *)
Record comment_item := {
  ci_id : option Z;
  ci_from_id : option Z;
  ci_date : option Z;
  ci_text : option string
}.

Section CommentsParser.

(** [self.start_ts], [self.end_ts], [self.comments_chunk_size],
    [self.max_comments_per_post] *)
Variables start_ts end_ts comments_chunk_size : Z.
Variable max_comments_per_post : option Z.

(** [self.api.wall_getComments(owner_id=..., post_id=vk_post_id,
    count=count, offset=offset)] for the post, by count and offset. *)
Variable wall_getComments : Z -> Z -> call_result (option (list comment_item)).

(** [self.max_comments_per_post is not None
     and fetched_count >= self.max_comments_per_post] *)
Definition cap_reached (fetched_count : Z) : bool :=
  match max_comments_per_post with
  | Some m => m <=? fetched_count
  | None => false
  end.

(** The loop of lines 250-259 over the items that are left. *)
Fixpoint scan_comments (items : list comment_item)
    (collected_comments_data : list comment_data) (fetched_count : Z)
    : list comment_data * Z * scan_end :=
  match items with
  | [] => (collected_comments_data, fetched_count, ScanDone)
  | item :: rest =>
      match ci_date item with
      | None => (collected_comments_data, fetched_count, ScanRaised)
      | Some d =>
          if end_ts <? d
          then (collected_comments_data, fetched_count, ScanStop)
          else if d <? start_ts
          then scan_comments rest collected_comments_data fetched_count
          else
            let text := strip (default "" (ci_text item)) in
            if str_truthy text then
              match ci_id item with
              | None => (collected_comments_data, fetched_count, ScanRaised)
              | Some id =>
                  let collected_comments_data :=
                    collected_comments_data
                    ++ [ {| vk_comment_id := id; from_id := ci_from_id item;
                            comment_date := d; comment_text := text |} ] in
                  let fetched_count := fetched_count + 1 in
                  if cap_reached fetched_count
                  then (collected_comments_data, fetched_count, ScanStop)
                  else scan_comments rest collected_comments_data fetched_count
              end
            else scan_comments rest collected_comments_data fetched_count
      end
  end.

(** [count_to_request] (lines 239-243) *)
Definition count_to_request (fetched_count : Z) : Z :=
  match max_comments_per_post with
  | Some m => Z.min comments_chunk_size (m - fetched_count)
  | None => comments_chunk_size
  end.

(** The [while True] loop of lines 235-267 with [fuel] iterations allowed. *)
Fixpoint parse_comments_loop (fuel : nat) (offset fetched_count : Z)
    (collected_comments_data : list comment_data)
    : option (list comment_data) :=
  match fuel with
  | O => None
  | S fuel' =>
      if cap_reached fetched_count then Some collected_comments_data
      else if match max_comments_per_post with
              | Some m => m - fetched_count <=? 0
              | None => false
              end
      then Some collected_comments_data
      else
        match wall_getComments (count_to_request fetched_count) offset with
        | Returned (Some items) =>
            match items with
            | [] => Some collected_comments_data
            | _ =>
                let '(collected_comments_data', fetched_count', scan_ended) :=
                  scan_comments items collected_comments_data fetched_count in
                match scan_ended with
                | ScanDone =>
                    if Z.of_nat (length items) <? count_to_request fetched_count
                    then Some collected_comments_data'
                    else parse_comments_loop fuel'
                           (offset + Z.of_nat (length items)) fetched_count'
                           collected_comments_data'
                | _ => Some collected_comments_data'
                end
            end
        | _ => Some collected_comments_data
        end
  end.

(** [VKGroupProcessor._parse_comments_for_post] *)
Definition _parse_comments_for_post (fuel : nat)
    (vk_group_id_numeric : option Z) : option (list comment_data) :=
  match vk_group_id_numeric with
  | None => Some []
  | Some _ => parse_comments_loop fuel 0 0 []
  end.

(** The comment that the loop collects for an item, if any. *)
Definition collected_comment (item : comment_item) : option comment_data :=
  match ci_date item, ci_id item with
  | Some d, Some id =>
      let text := strip (default "" (ci_text item)) in
      if (start_ts <=? d) && (d <=? end_ts) && str_truthy text
      then Some {| vk_comment_id := id; from_id := ci_from_id item;
                   comment_date := d; comment_text := text |}
      else None
  | _, _ => None
  end.

(** The first [max_comments_per_post] elements of a list, all of them when
    there is no maximum. *)
Definition capped (l : list comment_data) : list comment_data :=
  match max_comments_per_post with
  | Some m => take (Z.to_nat m) l
  | None => l
  end.

End CommentsParser.

Definition comment_item_complete (item : comment_item) : Prop :=
  is_Some (ci_id item) ∧ is_Some (ci_date item).

(** The thread lists its comments oldest first ([sort=asc], line 131). *)
Definition thread_oldest_first (thread : list comment_item) : Prop :=
  StronglySorted (fun a b => default 0 (ci_date a) <= default 0 (ci_date b))
    thread.

(** [wall.getComments] on a thread of finitely many comments. *)
Definition serve_thread (thread : list comment_item) (count offset : Z)
    : call_result (option (list comment_item)) :=
  Returned (Some (take (Z.to_nat count) (drop (Z.to_nat offset) thread))).

(** A thread of four comments, the last one after the period. *)
Definition example_thread : list comment_item :=
  [ {| ci_id := Some 1; ci_from_id := Some 501; ci_date := Some 1714560100;
       ci_text := Some "agree " |};
    {| ci_id := Some 2; ci_from_id := None; ci_date := Some 1714560200;
       ci_text := Some "   " |};
    {| ci_id := Some 3; ci_from_id := Some 502; ci_date := Some 1714560300;
       ci_text := Some "Ivanov is right" |};
    {| ci_id := Some 4; ci_from_id := Some 503; ci_date := Some 1714700000;
       ci_text := Some "late" |} ].

(** ** Several groups, one output file *)




(** ** Reading the collected data back ([NLPDataPreprocessor]) *)

(** What [json.loads] returns for a line. *)
#[warnings="-register-all"]
Inductive json :=
| JNull
| JBool (b : bool)
| JInt (z : Z)
| JFloat (q : Q)
| JStr (s : string)
| JList (l : list json)
| JDict (m : gmap string json).

(** [d.get(k, dflt)]; [None] is the [AttributeError] of a value that is not
    a [dict]. *)
Definition json_get (d : json) (k : string) (dflt : json) : option json :=
  match d with
  | JDict m => Some (default dflt (m !! k))
  | _ => None
  end.

(** [v.strip()]; [None] is the [AttributeError] of a value that is not a
    [str]. *)
Definition json_strip (v : json) : option string :=
  match v with
  | JStr s => Some (strip s)
  | _ => None
  end.

(** The elements [for x in v] visits; [None] is the [TypeError] of a value
    that cannot be iterated.  A [str] gives its characters and a [dict] its
    keys (in an order the loop below never gets to see: the first key
    already raises). *)
Definition json_iter (v : json) : option (list json) :=
  match v with
  | JList l => Some l
  | JStr s =>
      Some ((fun c => JStr (String c EmptyString)) <$> list_ascii_of_string s)
  | JDict m => Some (JStr <$> (map_to_list m).*1)
  | _ => None
  end.

(** [s[:n]] *)
Definition py_prefix (n : Z) (s : string) : string :=
  let chars := list_ascii_of_string s in
  let stop :=
    if n <? 0 then Z.max 0 (Z.of_nat (length chars) + n) else n in
  string_of_list_ascii (take (Z.to_nat stop) chars).

(** [texts_for_nlp] and [metadata_for_nlp] *)
Definition nlp_input : Type := list string * list (gmap string json).

(** The file at [parsed_data_path]: absent, failing while it is read, or
    its lines, each with what [json.loads] makes of it ([None]: a
    [JSONDecodeError]). *)
Inductive parsed_file :=
| FileMissing
| FileUnreadable
| FileLines (lines : list (option json)).

Section NLPDataPreprocessor.

(** [self.max_text_preview_length] *)
Variable max_text_preview_length : Z.

(** [_extract_post_data]: the outer [None] is an exception, the inner one
    the result [(None, None)]. *)
Definition _extract_post_data (record : json)
    : option (option (string * gmap string json)) :=
  text_value ← json_get record "text" (JStr "");
  post_text ← json_strip text_value;
  if negb (str_truthy post_text) then Some None
  else
    source_id ← json_get record "vk_post_id" JNull;
    group_id ← json_get record "vk_group_id" JNull;
    group_name ← json_get record "group_name" JNull;
    date_timestamp ← json_get record "date" JNull;
    Some (Some (post_text,
      list_to_map
        [ ("source_type", JStr "post");
          ("source_id", source_id);
          ("group_id", group_id);
          ("group_name", group_name);
          ("date_timestamp", date_timestamp);
          ("original_text_preview",
           JStr (py_prefix max_text_preview_length post_text)) ])).

(** [_extract_comment_data] *)
Definition _extract_comment_data (comment_record main_post_record : json)
    : option (option (string * gmap string json)) :=
  text_value ← json_get comment_record "text" (JStr "");
  comment_text ← json_strip text_value;
  if negb (str_truthy comment_text) then Some None
  else
    source_id ← json_get comment_record "vk_comment_id" JNull;
    post_id_parent ← json_get main_post_record "vk_post_id" JNull;
    group_id ← json_get main_post_record "vk_group_id" JNull;
    group_name ← json_get main_post_record "group_name" JNull;
    commenter_id ← json_get comment_record "from_id" JNull;
    date_timestamp ← json_get comment_record "date" JNull;
    Some (Some (comment_text,
      list_to_map
        [ ("source_type", JStr "comment");
          ("source_id", source_id);
          ("post_id_parent", post_id_parent);
          ("group_id", group_id);
          ("group_name", group_name);
          ("commenter_id", commenter_id);
          ("date_timestamp", date_timestamp);
          ("original_text_preview",
           JStr (py_prefix max_text_preview_length comment_text)) ])).

(** Lines 98-99 and 103-104. *)
Definition append_text (acc : nlp_input)
    (extracted : option (string * gmap string json)) : nlp_input :=
  match extracted with
  | Some (text, meta) => (acc.1 ++ [text], acc.2 ++ [meta])
  | None => acc
  end.

(** The loop of lines 100-104 over the comments that are left; an exception
    ends the work on the line (lines 107-109) and keeps what was appended. *)
Fixpoint extract_comments (comments : list json) (record : json)
    (acc : nlp_input) : nlp_input :=
  match comments with
  | [] => acc
  | comment :: rest =>
      match _extract_comment_data comment record with
      | None => acc
      | Some extracted =>
          extract_comments rest record (append_text acc extracted)
      end
  end.

(** The body of the loop over the lines (lines 94-109). *)
Definition extract_line (acc : nlp_input) (line : option json) : nlp_input :=
  match line with
  | None => acc
  | Some record =>
      match _extract_post_data record with
      | None => acc
      | Some extracted =>
          let acc := append_text acc extracted in
          match json_get record "comments" (JList []) with
          | None => acc
          | Some comments =>
              match json_iter comments with
              | None => acc
              | Some items => extract_comments items record acc
              end
          end
      end
  end.

(** [extract_and_prepare_input]; [None] is the [RuntimeError] of line 113. *)
Definition extract_and_prepare_input (file : parsed_file) : option nlp_input :=
  match file with
  | FileMissing => Some ([], [])
  | FileUnreadable => None
  | FileLines lines => Some (foldl extract_line ([], []) lines)
  end.


End NLPDataPreprocessor.

(** *** The lines that [process_and_write_to_file] writes *)

Definition json_of_opt_str (o : option string) : json :=
  match o with
  | Some s => JStr s
  | None => JNull
  end.

Definition json_of_opt_int (o : option Z) : json :=
  match o with
  | Some z => JInt z
  | None => JNull
  end.

(** A comment dictionary ([parser.py], lines 255-256) after [json.dumps]
    and [json.loads]. *)
Definition json_of_comment (c : comment_data) : json :=
  JDict (list_to_map
    [ ("vk_comment_id", JInt (vk_comment_id c));
      ("from_id", json_of_opt_int (from_id c));
      ("date", JInt (comment_date c));
      ("text", JStr (comment_text c)) ]).

(** An entry of [all_group_data_to_write] ([parser.py], lines 293-297)
    after [json.dumps] and [json.loads]. *)
Definition json_of_record (r : collection_record) : json :=
  JDict (list_to_map
    [ ("vk_group_id", JInt (rec_group_id r));
      ("group_screen_name", json_of_opt_str (rec_group_screen_name r));
      ("group_name", json_of_opt_str (rec_group_name r));
      ("vk_post_id", JInt (vk_post_id (rec_post r)));
      ("owner_id", JInt (owner_id (rec_post r)));
      ("date", JInt (date (rec_post r)));
      ("text", JStr (text (rec_post r)));
      ("comments_api_count", JInt (comments_api_count (rec_post r)));
      ("comments", JList (json_of_comment <$> rec_comments r)) ]).

(** A text as the parser keeps it: stripped and not empty. *)
Definition kept_text (s : string) : Prop := s ≠ "" ∧ strip s = s.

Definition record_kept (r : collection_record) : Prop :=
  kept_text (text (rec_post r))
  ∧ Forall (fun c => kept_text (comment_text c)) (rec_comments r).

(** Where a text comes from. *)
Record text_source := {
  src_type : string;
  src_id : Z;
  src_post_id : option Z;
  src_group_name : option string;
  src_date : Z;
  src_text : string
}.

(** The post of a record and then its comments. *)
Definition record_sources (r : collection_record) : list text_source :=
  {| src_type := "post"; src_id := vk_post_id (rec_post r);
     src_post_id := None; src_group_name := rec_group_name r;
     src_date := date (rec_post r); src_text := text (rec_post r) |}
  :: ((fun c =>
         {| src_type := "comment"; src_id := vk_comment_id c;
            src_post_id := Some (vk_post_id (rec_post r));
            src_group_name := rec_group_name r;
            src_date := comment_date c; src_text := comment_text c |})
      <$> rec_comments r).

(** The metadata names the source. *)
Definition metadata_of_source (meta : gmap string json) (src : text_source)
    : Prop :=
  meta !! "source_type" = Some (JStr (src_type src))
  ∧ meta !! "source_id" = Some (JInt (src_id src))
  ∧ meta !! "post_id_parent" = JInt <$> src_post_id src
  ∧ meta !! "group_name" = Some (json_of_opt_str (src_group_name src))
  ∧ meta !! "date_timestamp" = Some (JInt (src_date src)).

(** Two records, the second one with two comments. *)
Definition example_records : list collection_record :=
  [ {| rec_group_id := 7; rec_group_screen_name := Some "club7";
       rec_group_name := Some "Club";
       rec_post := {| vk_post_id := 101; owner_id := -7; date := 1714560000;
                      text := "Petrov answers"; comments_api_count := 0 |};
       rec_comments := [] |};
    {| rec_group_id := 7; rec_group_screen_name := Some "club7";
       rec_group_name := Some "Club";
       rec_post := {| vk_post_id := 103; owner_id := -7; date := 1714650000;
                      text := "Ivanov spoke today"; comments_api_count := 2 |};
       rec_comments :=
         [ {| vk_comment_id := 1; from_id := Some 501;
              comment_date := 1714650100; comment_text := "well said" |};
           {| vk_comment_id := 2; from_id := None;
              comment_date := 1714650200; comment_text := "no" |} ] |} ].

(** ** The pipeline ([SentimentPipeline.run]) *)

(** [entity_info.get("text")] when it passes the test of line 102: a [str]
    that is not empty. *)
Definition entity_text_of (entity_info : gmap string pyval) : option string :=
  match py_get entity_info "text" with
  | PStr s => if str_truthy s then Some s else None
  | _ => None
  end.

(** The entity texts of one text that go on to TESA. *)
Definition entity_texts (ner_entities_for_text : list (gmap string pyval))
    : list string :=
  omap entity_text_of ner_entities_for_text.

(** The dictionary of lines 124-128. *)
Definition judgment (entity entity_original polarity : string)
    : gmap string string :=
  list_to_map [ ("entity", entity); ("entity_original", entity_original);
                ("polarity", polarity) ].

(** The dictionary of lines 134-136. *)
Definition mismatch_judgment (entity : string) : gmap string string :=
  list_to_map [ ("entity", entity);
                ("polarity", "ERROR_TESA_LENGTH_MISMATCH") ].

(** [final_pipeline_results[idx].append(x)]; [None] is an [IndexError]. *)
Definition append_result (final_pipeline_results : list (list (gmap string string)))
    (idx : nat) (x : gmap string string)
    : option (list (list (gmap string string))) :=
  match final_pipeline_results !! idx with
  | Some l => Some (<[idx := l ++ [x]]> final_pipeline_results)
  | None => None
  end.

(** The loop of lines 100-104 over the entities of one text: the pairs for
    TESA and the entries of [tesa_input_map_back]. *)
Fixpoint collect_entities (original_text : string) (text_idx : nat)
    (ner_entities_for_text : list (gmap string pyval))
    (acc : list (string * string) * list (nat * string))
    : list (string * string) * list (nat * string) :=
  match ner_entities_for_text with
  | [] => acc
  | entity_info :: rest =>
      collect_entities original_text text_idx rest
        match entity_text_of entity_info with
        | Some entity_text =>
            (acc.1 ++ [(original_text, entity_text)],
             acc.2 ++ [(text_idx, entity_text)])
        | None => acc
        end
  end.

(** The loop of line 98 over [zip(text_list, all_ner_results_per_text)]. *)
Fixpoint collect_pairs (text_idx : nat) (text_list : list string)
    (all_ner_results_per_text : list (list (gmap string pyval)))
    (acc : list (string * string) * list (nat * string))
    : list (string * string) * list (nat * string) :=
  match text_list, all_ner_results_per_text with
  | original_text :: texts, ner_entities_for_text :: ners =>
      collect_pairs (S text_idx) texts ners
        (collect_entities original_text text_idx ner_entities_for_text acc)
  | _, _ => acc
  end.

(** The loop of lines 133-136. *)
Fixpoint mark_mismatch (tesa_input_map_back : list (nat * string))
    (final_pipeline_results : list (list (gmap string string)))
    : option (list (list (gmap string string))) :=
  match tesa_input_map_back with
  | [] => Some final_pipeline_results
  | (original_text_index, entity_text) :: rest =>
      final_pipeline_results ←
        append_result final_pipeline_results original_text_index
          (mismatch_judgment entity_text);
      mark_mismatch rest final_pipeline_results
  end.

Section SentimentPipeline.

(** [self.ner_predictor.predict] and [self.tesa_predictor.predict]; [None]
    is an exception. *)
Variable ner_predict : list string -> option (list (list (gmap string pyval))).
Variable tesa_predict : list (string * string) -> option (list string).

(** [self._lemmatize_name] (the morphological analyser) and
    [str.capitalize], taken as functions. *)
Variable _lemmatize_name : string -> string.
Variable capitalize : string -> string.

(** Lines 119-122. *)
Definition normalized_entity (entity_text : string) : string :=
  let normalized_entity_text := _lemmatize_name entity_text in
  if str_truthy normalized_entity_text then normalized_entity_text
  else capitalize entity_text.

(** The loop of lines 115-128; [predicted_polarities[i]] is the head of the
    polarities that are left. *)
Fixpoint fill_results (tesa_input_map_back : list (nat * string))
    (predicted_polarities : list string)
    (final_pipeline_results : list (list (gmap string string)))
    : option (list (list (gmap string string))) :=
  match tesa_input_map_back with
  | [] => Some final_pipeline_results
  | (original_text_index, entity_text) :: rest =>
      match predicted_polarities with
      | [] => None
      | polarity :: polarities =>
          final_pipeline_results ←
            append_result final_pipeline_results original_text_index
              (judgment (normalized_entity entity_text) entity_text polarity);
          fill_results rest polarities final_pipeline_results
      end
  end.

(** [SentimentPipeline.run]; [None] is an [IndexError]. *)
Definition run (text_list : list string)
    : option (list (list (gmap string string))) :=
  match text_list with
  | [] => Some []
  | _ =>
      match ner_predict text_list with
      | None => Some (replicate (length text_list) [])
      | Some all_ner_results_per_text =>
          let '(all_tesa_input_pairs, tesa_input_map_back) :=
            collect_pairs 0 text_list all_ner_results_per_text ([], []) in
          let final_pipeline_results := replicate (length text_list) [] in
          match all_tesa_input_pairs with
          | [] => Some final_pipeline_results
          | _ =>
              let predicted_polarities :=
                default
                  (replicate (length all_tesa_input_pairs) "ERROR_TESA_PIPELINE")
                  (tesa_predict all_tesa_input_pairs) in
              if (length predicted_polarities
                  =? length tesa_input_map_back)%nat
              then fill_results tesa_input_map_back predicted_polarities
                     final_pipeline_results
              else mark_mismatch tesa_input_map_back final_pipeline_results
          end
      end
  end.

End SentimentPipeline.

(** The entity texts NER found, text by text: its results cut or filled up
    with empty lists to the number of texts. *)
Definition found_entities (text_list : list string)
    (all_ner_results_per_text : list (list (gmap string pyval)))
    : list (list string) :=
  resize (length text_list) [] (entity_texts <$> all_ner_results_per_text).

(** The pairs handed to TESA. *)
Definition tesa_pairs (text_list : list string) (found : list (list string))
    : list (string * string) :=
  concat (zip_with (fun original_text entities =>
                      pair original_text <$> entities) text_list found).

(** *** A sample run: two texts, the first one with two persons *)

Definition example_texts : list string :=
  [ "Ivanov met Petrov"; "nothing to see" ].

Definition example_ner (text_list : list string)
    : option (list (list (gmap string pyval))) :=
  Some [ [ {[ "text" := PStr "Ivanov"; "type" := PStr "PER" ]};
           {[ "text" := PStr ""; "type" := PStr "PER" ]};
           {[ "text" := PStr "Petrov"; "type" := PStr "PER" ]} ];
         [] ].

Definition example_tesa (pairs : list (string * string))
    : option (list string) :=
  Some ((fun pair => if bool_decide (pair.2 = "Ivanov") then "POS" else "NEG")
        <$> pairs).

(** A TESA that loses its last answer. *)
Definition example_short_tesa (pairs : list (string * string))
    : option (list string) :=
  Some (replicate (length pairs - 1) "NEU").

(** ** The group identifier typed into the form
    ([frontend/app_ui.py], [clean_vk_identifier_for_api]) *)

(** [c in s] for a one-character string [c] *)
Fixpoint contains (c : ascii) (s : string) : bool :=
  match s with
  | EmptyString => false
  | String a s' => if Ascii.eqb a c then true else contains c s'
  end.

(** [s.split(c)[0]] *)
Fixpoint first_field (c : ascii) (s : string) : string :=
  match s with
  | EmptyString => EmptyString
  | String a s' =>
      if Ascii.eqb a c then EmptyString else String a (first_field c s')
  end.

(** [s[n:]] *)
Fixpoint string_drop (n : nat) (s : string) : string :=
  match n, s with
  | O, _ => s
  | S n', String _ s' => string_drop n' s'
  | S _, EmptyString => EmptyString
  end.

(** [s.startswith(p)] *)
Definition startswith (s p : string) : bool := String.prefix p s.

(** [clean_vk_identifier_for_api].  Lines 109-123 compute [cleaned_id],
    which nothing reads; the result is made by lines 124-135. *)
Definition clean_vk_identifier_for_api (input_str : string) : string :=
  if negb (str_truthy input_str) then ""
  else
    let _identifier := strip input_str in
    let _identifier :=
      if startswith _identifier "https://" then string_drop 8 _identifier
      else if startswith _identifier "http://" then string_drop 7 _identifier
      else _identifier in
    let _identifier :=
      if startswith _identifier "vk.com/" then string_drop 7 _identifier
      else if startswith _identifier "m.vk.com/"
      then string_drop 9 _identifier
      else _identifier in
    let _identifier :=
      if contains "/" _identifier then first_field "/" _identifier
      else _identifier in
    let _identifier :=
      if contains "?" _identifier then first_field "?" _identifier
      else _identifier in
    let _identifier :=
      if contains "#" _identifier then first_field "#" _identifier
      else _identifier in
    if negb (str_truthy _identifier) then "" else _identifier.

(** A screen name or id as it stands in an address: not empty, without
    ['/'], ['?'] and ['#']. *)
Definition identifier_like (name : string) : Prop :=
  name ≠ ""
  ∧ contains "/" name = false
  ∧ contains "?" name = false
  ∧ contains "#" name = false.

(** What may follow the name in an address: nothing, or a path, a query or
    a fragment. *)
Definition address_rest (tail : string) : Prop :=
  match tail with
  | EmptyString => True
  | String c _ => c = "/"%char ∨ c = "?"%char ∨ c = "#"%char
  end.

(** * Properties *)

(** Closed equations between computed values are checked by the virtual
    machine. *)
Ltac vm_eval :=
  match goal with |- _ = ?r => vm_cast_no_check (eq_refl r) end.

(** ** Sums over dictionaries *)

Section MapSum.
Context {A : Type} (f : A -> Z).

Lemma map_sum_empty : map_sum f ∅ = 0.
Proof. unfold map_sum. by rewrite map_fold_empty. Qed.

Lemma map_sum_insert_None (m : gmap string A) k x :
  m !! k = None -> map_sum f (<[k := x]> m) = f x + map_sum f m.
Proof.
  intros Hk. unfold map_sum.
  rewrite map_fold_insert_L; [done | | done].
  intros; lia.
Qed.

Lemma map_sum_delete (m : gmap string A) k x :
  m !! k = Some x -> map_sum f m = f x + map_sum f (delete k m).
Proof.
  intros Hk. rewrite <- (insert_delete_id m k x) at 1 by done.
  apply map_sum_insert_None, lookup_delete_eq.
Qed.

Lemma map_sum_insert (m : gmap string A) k x :
  map_sum f (<[k := x]> m)
  = f x + map_sum f m - match m !! k with Some y => f y | None => 0 end.
Proof.
  destruct (m !! k) as [y|] eqn:Hk.
  - rewrite <- insert_delete_eq.
    rewrite map_sum_insert_None by apply lookup_delete_eq.
    rewrite (map_sum_delete m k y) by done. lia.
  - rewrite map_sum_insert_None by done. lia.
Qed.

Lemma map_sum_zero (m : gmap string A) :
  (forall k x, m !! k = Some x -> f x = 0) -> map_sum f m = 0.
Proof.
  induction m as [|k x m Hk _ IH] using map_first_key_ind; intros Hz.
  - apply map_sum_empty.
  - rewrite map_sum_insert_None by done.
    rewrite (Hz k x) by apply lookup_insert_eq.
    rewrite IH; [done|]. intros j y Hj. apply (Hz j).
    rewrite lookup_insert_ne; [done|]. intros ->. congruence.
Qed.

End MapSum.

Lemma sum_values_insert (d : gmap string Z) k v :
  sum_values (<[k := v]> d) = v + sum_values d - default 0 (d !! k).
Proof.
  unfold sum_values. rewrite map_sum_insert. by destruct (d !! k).
Qed.

Lemma sum_values_insert_None (d : gmap string Z) k v :
  d !! k = None -> sum_values (<[k := v]> d) = v + sum_values d.
Proof. intros H. rewrite sum_values_insert, H. simpl. lia. Qed.

Lemma sum_values_empty : sum_values ∅ = 0.
Proof. apply map_sum_empty. Qed.

Lemma entity_total_absent s e : s !! e = None -> entity_total s e = 0.
Proof. intros H. unfold entity_total. rewrite H. apply map_sum_empty. Qed.

Lemma entity_total_lookup s s' e :
  s' !! e = s !! e -> entity_total s' e = entity_total s e.
Proof. intros H. unfold entity_total. by rewrite H. Qed.

(** ** Alias merge: conservation of counts *)

Section MergeFacts.
Variable tesa_id2label : gmap Z string.

Local Abbreviation zero_bucket' := (zero_bucket tesa_id2label).
Local Abbreviation merge_date' := (merge_date tesa_id2label).
Local Abbreviation merge_alias' := (merge_alias tesa_id2label).
Local Abbreviation ensure_bucket' := (ensure_bucket tesa_id2label).

Lemma zero_labels_all_zero (labels : list string) (d : gmap string Z) :
  (forall k v, d !! k = Some v -> v = 0) ->
  forall k v, foldl (fun d label => <[label := 0]> d) d labels !! k = Some v ->
              v = 0.
Proof.
  revert d. induction labels as [|l labels IH]; intros d Hd k v; simpl.
  - apply Hd.
  - apply IH. intros k' v'. rewrite lookup_insert.
    case_decide; [congruence | apply Hd].
Qed.

Lemma sum_values_zero_bucket : sum_values zero_bucket' = 0.
Proof.
  apply map_sum_zero. intros k v.
  unfold zero_bucket. rewrite lookup_insert.
  case_decide; [simpl; congruence|].
  apply zero_labels_all_zero. intros ? ?. by rewrite lookup_empty.
Qed.

Lemma add_count_other c d k v s e :
  e ≠ c -> add_count c d k v s !! e = s !! e.
Proof. intros. unfold add_count. by rewrite lookup_insert_ne. Qed.

Lemma add_count_total c d k v s :
  entity_total (add_count c d k v s) c = entity_total s c + v.
Proof.
  unfold entity_total, add_count.
  rewrite lookup_insert_eq. simpl.
  set (dates := default ∅ (s !! c)).
  rewrite map_sum_insert, sum_values_insert.
  destruct (dates !! d) as [b|] eqn:Hb; simpl.
  - lia.
  - rewrite sum_values_empty, lookup_empty. simpl. lia.
Qed.

Lemma ensure_bucket_other c d s e :
  e ≠ c -> ensure_bucket' c d s !! e = s !! e.
Proof.
  intros. unfold ensure_bucket.
  destruct (default ∅ (s !! c) !! d); [done|]. by rewrite lookup_insert_ne.
Qed.

Lemma ensure_bucket_total c d s :
  entity_total (ensure_bucket' c d s) c = entity_total s c.
Proof.
  unfold ensure_bucket.
  destruct (default ∅ (s !! c) !! d) eqn:Hd; [done|].
  unfold entity_total. rewrite lookup_insert_eq. simpl.
  rewrite map_sum_insert, Hd, sum_values_zero_bucket. lia.
Qed.

Lemma map_sum_to_list {A} (f : A -> Z) (m : gmap string A) :
  map_sum f m = foldr (fun kv acc => f kv.2 + acc) 0 (map_to_list m).
Proof.
  unfold map_sum. rewrite map_fold_foldr.
  induction (map_to_list m) as [|[k x] items IH]; simpl; [done | by rewrite IH].
Qed.

Lemma add_counts_spec c d (items : list (string * Z)) : forall s,
  entity_total
    (foldl (fun s '(sentiment, count) => add_count c d sentiment count s)
       s items) c
  = entity_total s c + foldr (fun kv acc => id kv.2 + acc) 0 items
  ∧ forall e, e ≠ c ->
      foldl (fun s '(sentiment, count) => add_count c d sentiment count s)
        s items !! e = s !! e.
Proof.
  induction items as [|[k v] items IH]; intros s; simpl.
  - split; [lia | done].
  - destruct (IH (add_count c d k v s)) as [H1 H2]. split.
    + rewrite H1, add_count_total. unfold id. lia.
    + intros e He. rewrite H2 by done. by apply add_count_other.
Qed.

Lemma merge_date_spec c s d sc :
  entity_total (merge_date' c s (d, sc)) c = entity_total s c + sum_values sc
  ∧ forall e, e ≠ c -> merge_date' c s (d, sc) !! e = s !! e.
Proof.
  unfold merge_date.
  destruct (add_counts_spec c d (map_to_list sc) (ensure_bucket' c d s))
    as [H1 H2]. split.
  - rewrite H1, ensure_bucket_total. unfold sum_values.
    by rewrite map_sum_to_list.
  - intros e He. rewrite H2 by done. by apply ensure_bucket_other.
Qed.

Lemma merge_dates_spec c (items : list (string * gmap string Z)) : forall s,
  entity_total (foldl (merge_date' c) s items) c
    = entity_total s c + foldr (fun kv acc => sum_values kv.2 + acc) 0 items
  ∧ forall e, e ≠ c -> foldl (merge_date' c) s items !! e = s !! e.
Proof.
  induction items as [|[d sc] items IH]; intros s; cbn [foldl foldr].
  - split; [lia | done].
  - destruct (IH (merge_date' c s (d, sc))) as [H1 H2].
    destruct (merge_date_spec c s d sc) as [H3 H4]. split.
    + rewrite H1, H3. simpl. lia.
    + intros e He. rewrite H2 by done. by apply H4.
Qed.

(** One alias: its counts move to the canonical entity. *)
Lemma merge_alias_total c s a :
  entity_total (merge_alias' c s a) c
  = entity_total s c + (if decide (a = c) then 0 else entity_total s a).
Proof.
  unfold merge_alias. case_decide as Hac; [lia|].
  destruct (s !! a) as [dates|] eqn:Ha.
  - rewrite (entity_total_lookup (foldl (merge_date' c) s (map_to_list dates))).
    + destruct (merge_dates_spec c (map_to_list dates) s) as [-> _].
      unfold entity_total at 3. rewrite Ha. simpl.
      by rewrite map_sum_to_list.
    + apply lookup_delete_ne. done.
  - rewrite (entity_total_absent s a) by done. lia.
Qed.

Lemma merge_alias_other c s a e :
  e ≠ c -> e ≠ a -> merge_alias' c s a !! e = s !! e.
Proof.
  intros Hec Hea. unfold merge_alias. case_decide; [done|].
  destruct (s !! a) as [dates|]; [|done].
  rewrite lookup_delete_ne by done.
  by apply merge_dates_spec.
Qed.

Lemma merge_alias_removed c s a :
  a ≠ c -> merge_alias' c s a !! a = None.
Proof.
  intros Hac. unfold merge_alias. rewrite decide_False by done.
  destruct (s !! a) eqn:Ha; [apply lookup_delete_eq | done].
Qed.

Lemma merge_alias_keeps_absent c s a e :
  e ≠ c -> s !! e = None -> merge_alias' c s a !! e = None.
Proof.
  intros Hec He. destruct (decide (e = a)) as [->|Hea].
  - by apply merge_alias_removed.
  - by rewrite merge_alias_other.
Qed.

End MergeFacts.

(** ** Blank canonical names *)

Lemma lstrip_chars_all_space l :
  forallb is_space l = true -> lstrip_chars l = [].
Proof.
  induction l as [|c l IH]; simpl; [done|].
  destruct (is_space c); simpl; [exact IH | discriminate].
Qed.

Lemma lstrip_chars_some_nonspace l :
  forallb is_space l = false -> exists c l', lstrip_chars l = c :: l' ∧ is_space c = false.
Proof.
  induction l as [|c l IH]; simpl; [discriminate|].
  destruct (is_space c) eqn:Hc; simpl; [exact IH | eauto].
Qed.

Lemma forallb_rev {A} (p : A -> bool) l : forallb p (rev l) = forallb p l.
Proof.
  induction l as [|x l IH]; simpl; [done|].
  rewrite forallb_app, IH. simpl. destruct (forallb p l), (p x); done.
Qed.

(** [s.strip()] is empty exactly when [s] is empty or whitespace only. *)
Lemma strip_empty_iff s : strip s = "" <-> whitespace_only s = true.
Proof.
  unfold strip, whitespace_only.
  set (l := list_ascii_of_string s). split.
  - intros H. destruct (forallb is_space l) eqn:Hl; [done|].
    destruct (lstrip_chars_some_nonspace l Hl) as (c & l' & Hs & Hc).
    rewrite Hs in H. simpl in H.
    assert (Hns : forallb is_space (rev l' ++ [c]) = false).
    { rewrite forallb_app. simpl. rewrite Hc. by destruct (forallb is_space (rev l')). }
    destruct (lstrip_chars_some_nonspace _ Hns) as (c' & l'' & Hs' & _).
    rewrite Hs' in H. simpl in H.
    destruct (rev l'' ++ [c'])%list eqn:E; [by destruct (rev l'')|].
    discriminate.
  - intros Hl. by rewrite (lstrip_chars_all_space l Hl).
Qed.

Lemma str_truthy_strip s : str_truthy (strip s) = negb (whitespace_only s).
Proof.
  unfold str_truthy. destruct (whitespace_only s) eqn:Hw; simpl.
  - apply strip_empty_iff in Hw. by rewrite bool_decide_eq_true_2.
  - rewrite bool_decide_eq_false_2; [done|].
    intros H%strip_empty_iff. congruence.
Qed.

(** C5: with an empty or whitespace-only canonical name,
    [reaggregate_with_aliases] returns the pair [(S, M)] it was given:
    the returned summary and mention list are equal to the inputs. *)
Theorem reaggregate_blank_canonical_identity
    (tesa_id2label : gmap Z string)
    (S : gmap string (gmap string (gmap string Z)))
    (M : list (gmap string pyval)) (aliases : list string) (C : string) :
  whitespace_only C = true ->
  reaggregate_with_aliases tesa_id2label S M aliases C = (S, M).
Proof.
  intros HC. unfold reaggregate_with_aliases.
  by rewrite str_truthy_strip, HC.
Qed.

Lemma reaggregate_blank_canonical_identity_witness :
  whitespace_only "  " = true
  ∧ reaggregate_with_aliases default_tesa_id2label
      {[ "Ivanov" := {[ "2024-05-01" := {[ "POS" := 2 ]} ]} ]}
      [ {[ "entity_normalized" := PStr "Ivanov" ]} ] ["Ivanov"] "  "
    = ({[ "Ivanov" := {[ "2024-05-01" := {[ "POS" := 2 ]} ]} ]},
       [ {[ "entity_normalized" := PStr "Ivanov" ]} ]).
Proof.
  split; [reflexivity|].
  apply (reaggregate_blank_canonical_identity default_tesa_id2label).
  reflexivity.
Defined.

(** C1 (as stated, for a merely non-empty canonical name and the three-term
    sum) fails: a whitespace-only canonical name merges nothing, so the alias
    stays a key; and an alias listed twice is counted once by the code but
    twice by the stated sum. *)
Lemma reaggregate_conserves_totals_counterexample :
  let S0 : gmap string (gmap string (gmap string Z)) :=
    {[ "a" := {[ "2024-05-01" := {[ "POS" := 1 ]} ]} ]} in
  (" " ≠ "" ∧ "a" ≠ " "
   ∧ (reaggregate_with_aliases default_tesa_id2label S0 [] ["a"; "b"] " ").1 !! "a"
     ≠ None)
  ∧ ("c" ≠ ""
     ∧ entity_total
         (reaggregate_with_aliases default_tesa_id2label S0 [] ["a"; "a"] "c").1 "c"
       = 1
     ∧ entity_total S0 "a" + entity_total S0 "a" + entity_total S0 "c" = 2).
Proof.
  repeat split; try discriminate; vm_compute; congruence.
Qed.

(** C1 (amended): for a canonical name [C] that is not empty or whitespace
    only, the counts under [C] in the new summary are the counts that [S]
    holds under the distinct names among [C], [A1], [A2] (each name counted
    once), and [A1], [A2], when distinct from [C], are no keys of the new
    summary. *)
Theorem reaggregate_conserves_totals
    (tesa_id2label : gmap Z string)
    (S : gmap string (gmap string (gmap string Z)))
    (M : list (gmap string pyval)) (A1 A2 C : string) :
  whitespace_only C = false ->
  let S' := (reaggregate_with_aliases tesa_id2label S M [A1; A2] C).1 in
  entity_total S' C
  = entity_total S C
    + (if decide (A1 = C) then 0 else entity_total S A1)
    + (if decide (A2 = C ∨ A2 = A1) then 0 else entity_total S A2)
  ∧ (A1 ≠ C -> S' !! A1 = None)
  ∧ (A2 ≠ C -> S' !! A2 = None).
Proof.
  intros HC. unfold reaggregate_with_aliases.
  rewrite str_truthy_strip, HC. simpl.
  set (s0 := match S !! C with Some _ => S | None => <[C := ∅]> S end).
  assert (Htot : forall e, entity_total s0 e = entity_total S e).
  { intros e. unfold s0. destruct (S !! C) eqn:HSC; [done|].
    destruct (decide (e = C)) as [->|Hne].
    - unfold entity_total. rewrite lookup_insert_eq, HSC. done.
    - apply entity_total_lookup. by rewrite lookup_insert_ne. }
  set (s1 := merge_alias tesa_id2label C s0 A1).
  assert (H1 : A1 ≠ C -> s1 !! A1 = None) by apply merge_alias_removed.
  split; [|split].
  - rewrite merge_alias_total. unfold s1 at 1. rewrite merge_alias_total, !Htot.
    f_equal. destruct (decide (A2 = C)) as [->|HA2].
    + rewrite decide_True by auto. done.
    + destruct (decide (A2 = A1)) as [->|HA21].
      * rewrite decide_True by auto. apply entity_total_absent. auto.
      * rewrite decide_False by tauto. rewrite <- Htot.
        apply entity_total_lookup. by apply merge_alias_other.
  - intros HA1. apply merge_alias_keeps_absent; auto.
  - intros HA2. by apply merge_alias_removed.
Qed.

Lemma reaggregate_conserves_totals_witness :
  whitespace_only "Ivanov" = false
  ∧ let S0 : gmap string (gmap string (gmap string Z)) :=
      {[ "Ivanov" := {[ "2024-05-01" := {[ "POS" := 2 ]} ]};
         "Ivanov I." := {[ "2024-05-01" := {[ "NEG" := 1 ]} ]};
         "I. Ivanov" := {[ "2024-05-02" := {[ "POS" := 3 ]} ]} ]} in
    let S' := (reaggregate_with_aliases default_tesa_id2label S0 []
                 ["Ivanov I."; "I. Ivanov"] "Ivanov").1 in
    entity_total S' "Ivanov"
    = entity_total S0 "Ivanov"
      + (if decide ("Ivanov I." = "Ivanov") then 0 else entity_total S0 "Ivanov I.")
      + (if decide ("I. Ivanov" = "Ivanov" ∨ "I. Ivanov" = "Ivanov I.") then 0
         else entity_total S0 "I. Ivanov")
    ∧ ("Ivanov I." ≠ "Ivanov" -> S' !! "Ivanov I." = None)
    ∧ ("I. Ivanov" ≠ "Ivanov" -> S' !! "I. Ivanov" = None).
Proof.
  split; [reflexivity|].
  apply (reaggregate_conserves_totals default_tesa_id2label).
  reflexivity.
Defined.

(** ** Aggregation: counts and mention records agree *)

Section AggregateFacts.
Variable tesa_id2label : gmap Z string.
Variable fromtimestamp : Z -> date_outcome.

Lemma zero_bucket_unknown : zero_bucket tesa_id2label !! "UNKNOWN" = Some 0.
Proof. unfold zero_bucket. apply lookup_insert_eq. Qed.

Lemma count_polarity_sum b p b' :
  count_polarity b p = Some b' -> sum_values b' = sum_values b + 1.
Proof.
  unfold count_polarity. intros H.
  destruct (b !! p) as [n|] eqn:Hp.
  - inversion H; subst. rewrite sum_values_insert, Hp. simpl. lia.
  - destruct (b !! "UNKNOWN") as [n|] eqn:Hu; [|discriminate].
    inversion H; subst. rewrite sum_values_insert, Hu. simpl. lia.
Qed.

Lemma count_polarity_seeded b p :
  is_Some (b !! "UNKNOWN") ->
  exists b', count_polarity b p = Some b' ∧ is_Some (b' !! "UNKNOWN").
Proof.
  intros [u Hu]. unfold count_polarity.
  destruct (b !! p) as [n|] eqn:Hp.
  - eexists; split; [done|]. rewrite lookup_insert. case_decide; eauto.
  - rewrite Hu. eexists; split; [done|]. rewrite lookup_insert_eq. eauto.
Qed.

Lemma mention_record_entity e eo p d ts meta :
  mention_record e eo p d ts meta !! "entity_normalized" = Some (PStr e).
Proof. reflexivity. Qed.

Lemma mention_record_date e eo p d ts meta :
  mention_record e eo p d ts meta !! "date" = Some (PStr d).
Proof. reflexivity. Qed.

(** The records built by the aggregation have no ["entity"] key. *)
Lemma mention_record_no_entity_key e eo p d ts meta :
  mention_record e eo p d ts meta !! "entity" = None.
Proof. reflexivity. Qed.

Lemma mention_count_snoc ms r E D :
  mention_count (ms ++ [r]) E D
  = (mention_count ms E D
     + if decide (r !! "entity_normalized" = Some (PStr E)
                  ∧ r !! "date" = Some (PStr D)) then 1 else 0)%nat.
Proof.
  unfold mention_count. rewrite filter_app, length_app. f_equal.
  rewrite filter_cons, filter_nil. by case_decide.
Qed.

Lemma cell_total_insert s e dk b E D :
  cell_total (<[e := <[dk := b]> (default ∅ (s !! e))]> s) E D
  = if decide (E = e ∧ D = dk) then sum_values b else cell_total s E D.
Proof.
  unfold cell_total. destruct (decide (E = e)) as [->|HE].
  - rewrite lookup_insert_eq. destruct (decide (D = dk)) as [->|HD].
    + rewrite lookup_insert_eq. by rewrite decide_True.
    + rewrite lookup_insert_ne by done. rewrite decide_False by tauto.
      by destruct (s !! e).
  - rewrite lookup_insert_ne by done. by rewrite decide_False by tauto.
Qed.

Lemma aggregate_opinion_agree dk ts meta st op st' :
  counts_agree st ->
  aggregate_opinion tesa_id2label dk ts meta st op = Some st' ->
  counts_agree st'.
Proof.
  intros Hinv. unfold aggregate_opinion. destruct st as [s ms].
  destruct (op !! "entity") as [e|]; [|by intros [= <-]].
  destruct (op !! "polarity") as [p|]; [|by intros [= <-]].
  destruct (negb (str_truthy e) || negb (str_truthy p)); [by intros [= <-]|].
  destruct (count_polarity _ p) as [b'|] eqn:Hb'; [|discriminate].
  intros [= <-]. intros E D. simpl.
  rewrite cell_total_insert, mention_count_snoc.
  rewrite mention_record_entity, mention_record_date.
  apply count_polarity_sum in Hb'.
  specialize (Hinv E D). simpl in Hinv.
  destruct (decide (E = e ∧ D = dk)) as [[-> ->]|Hne].
  - rewrite decide_True by done. rewrite Hb', Nat2Z.inj_add, <- Hinv.
    unfold cell_total. destruct (s !! e) as [ds|]; simpl.
    + destruct (ds !! dk); simpl; [done|].
      by rewrite sum_values_zero_bucket.
    + rewrite lookup_empty. simpl. by rewrite sum_values_zero_bucket.
  - rewrite decide_False; [lia|]. intros [[= ->] [= ->]]. tauto.
Qed.

Lemma aggregate_opinions_agree dk ts meta ops : forall st st',
  counts_agree st ->
  aggregate_opinions tesa_id2label dk ts meta st ops = Some st' ->
  counts_agree st'.
Proof.
  induction ops as [|op ops IH]; simpl; intros st st' Hinv H.
  - by inversion H; subst.
  - destruct (aggregate_opinion _ _ _ _ st op) as [st1|] eqn:H1; [|discriminate].
    eapply IH; [|exact H]. eapply aggregate_opinion_agree; eauto.
Qed.

Lemma aggregate_text_agree metadata st i ops st' :
  counts_agree st ->
  aggregate_text tesa_id2label fromtimestamp metadata st i ops = Some st' ->
  counts_agree st'.
Proof.
  intros Hinv. unfold aggregate_text.
  destruct (metadata !! i) as [meta|]; [|by intros [= <-]].
  destruct (py_get meta "date_timestamp") as [|z|x] eqn:Hts;
    [by intros [= <-]| |].
  - destruct (date_key_of _ _) as [dk| |]; [|by intros [= <-]|discriminate].
    by apply aggregate_opinions_agree.
  - destruct (date_key_of _ _) as [dk| |]; [|by intros [= <-]|discriminate].
    by apply aggregate_opinions_agree.
Qed.

Lemma aggregate_texts_agree metadata texts : forall st i st',
  counts_agree st ->
  aggregate_texts tesa_id2label fromtimestamp metadata st i texts = Some st' ->
  counts_agree st'.
Proof.
  induction texts as [|ops texts IH]; simpl; intros st i st' Hinv H.
  - by inversion H; subst.
  - destruct (aggregate_text _ _ _ st i ops) as [st1|] eqn:H1; [|discriminate].
    eapply IH; [|exact H]. eapply aggregate_text_agree; eauto.
Qed.

(** *** The aggregation returns unless the date conversion lets an
    exception through. *)

Lemma aggregate_opinion_returns dk ts meta st op :
  buckets_seeded st.1 ->
  exists st', aggregate_opinion tesa_id2label dk ts meta st op = Some st'
              ∧ buckets_seeded st'.1.
Proof.
  intros Hseed. unfold aggregate_opinion. destruct st as [s ms].
  destruct (op !! "entity") as [e|]; [|eauto].
  destruct (op !! "polarity") as [p|]; [|eauto].
  destruct (negb (str_truthy e) || negb (str_truthy p)); [eauto|].
  simpl in Hseed.
  set (dates := default ∅ (s !! e)).
  set (bucket := default (zero_bucket tesa_id2label) (dates !! dk)).
  assert (Hb : is_Some (bucket !! "UNKNOWN")).
  { unfold bucket, dates. destruct (s !! e) as [ds|] eqn:He; simpl.
    - destruct (ds !! dk) as [b|] eqn:Hd; simpl; [eauto|].
      rewrite zero_bucket_unknown. eauto.
    - rewrite lookup_empty. simpl. rewrite zero_bucket_unknown. eauto. }
  destruct (count_polarity_seeded bucket p Hb) as (b' & -> & Hb').
  eexists; split; [done|]. simpl.
  intros E ds D b. rewrite lookup_insert. case_decide as HE.
  - intros [= <-]. rewrite lookup_insert. case_decide as HD.
    + by intros [= <-].
    + subst E. unfold dates. destruct (s !! e) as [ds|] eqn:He; simpl.
      * eauto.
      * by rewrite lookup_empty.
  - eauto.
Qed.

Lemma aggregate_opinions_returns dk ts meta ops : forall st,
  buckets_seeded st.1 ->
  exists st', aggregate_opinions tesa_id2label dk ts meta st ops = Some st'
              ∧ buckets_seeded st'.1.
Proof.
  induction ops as [|op ops IH]; simpl; intros st Hseed; [eauto|].
  destruct (aggregate_opinion_returns dk ts meta st op Hseed) as (st1 & -> & H1).
  by apply IH.
Qed.

Lemma aggregate_text_returns metadata st i ops :
  (forall z, fromtimestamp z ≠ DateCrash) ->
  buckets_seeded st.1 ->
  exists st', aggregate_text tesa_id2label fromtimestamp metadata st i ops = Some st'
              ∧ buckets_seeded st'.1.
Proof.
  intros Hts Hseed. unfold aggregate_text.
  destruct (metadata !! i) as [meta|]; [|eauto].
  destruct (py_get meta "date_timestamp") as [|z|x]; [eauto| |]; simpl.
  - specialize (Hts z). destruct (fromtimestamp z); [|eauto|done].
    by apply aggregate_opinions_returns.
  - eauto.
Qed.

Lemma aggregate_texts_returns metadata texts : forall st i,
  (forall z, fromtimestamp z ≠ DateCrash) ->
  buckets_seeded st.1 ->
  exists st', aggregate_texts tesa_id2label fromtimestamp metadata st i texts = Some st'
              ∧ buckets_seeded st'.1.
Proof.
  induction texts as [|ops texts IH]; simpl; intros st i Hts Hseed; [eauto|].
  destruct (aggregate_text_returns metadata st i ops Hts Hseed) as (st1 & -> & H1).
  by apply IH.
Qed.

(** The aggregation returns a pair for all inputs, provided the date
    conversion raises nothing but the exceptions the code catches. *)
Lemma aggregate_returns judgments metadata :
  (forall z, fromtimestamp z ≠ DateCrash) ->
  is_Some (_aggregate_nlp_results tesa_id2label fromtimestamp judgments metadata).
Proof.
  intros Hts. unfold _aggregate_nlp_results.
  destruct (aggregate_texts_returns metadata judgments (∅, []) 0%nat Hts)
    as (st' & -> & _); [|eauto].
  intros E ds D b. simpl. by rewrite lookup_empty.
Qed.

End AggregateFacts.

(** C4: in the pair [(summary, mentions)] that the aggregation returns, for
    every entity [E] and date [D] present in the summary, the sentiment
    counts of [summary[E][D]] sum to the number of mention records with
    [entity_normalized == E] and [date == D]. *)
Theorem aggregate_counts_match_mentions
    (tesa_id2label : gmap Z string) (fromtimestamp : Z -> date_outcome)
    (judgments : list (list (gmap string string)))
    (metadata : list (gmap string pyval))
    (summary : gmap string (gmap string (gmap string Z)))
    (mentions : list (gmap string pyval)) :
  _aggregate_nlp_results tesa_id2label fromtimestamp judgments metadata
    = Some (summary, mentions) ->
  forall (E D : string) ds bucket,
    summary !! E = Some ds -> ds !! D = Some bucket ->
    sum_values bucket = Z.of_nat (mention_count mentions E D).
Proof.
  intros Hrun E D ds bucket HE HD.
  assert (Hinv : counts_agree (summary, mentions)).
  { eapply aggregate_texts_agree; [|exact Hrun].
    intros E' D'. reflexivity. }
  specialize (Hinv E D). unfold cell_total in Hinv. simpl in Hinv.
  by rewrite HE, HD in Hinv.
Qed.

Lemma aggregate_counts_match_mentions_witness :
  let meta0 : gmap string pyval :=
    {[ "date_timestamp" := PInt 1714557600; "source_type" := PStr "post";
       "source_id" := PInt 17; "group_name" := PStr "news" ]} in
  let meta1 : gmap string pyval :=
    {[ "date_timestamp" := PInt 1714644000; "source_type" := PStr "comment";
       "source_id" := PInt 18; "post_id_parent" := PInt 17 ]} in
  let summary : gmap string (gmap string (gmap string Z)) :=
    {[ "Ivanov" :=
         {[ "2024-05-01" :=
              {[ "POS" := 1; "NEG" := 0; "NEU" := 0; "UNKNOWN" := 1 ]};
            "2024-05-02" :=
              {[ "POS" := 0; "NEG" := 1; "NEU" := 0; "UNKNOWN" := 0 ]} ]} ]} in
  let mentions :=
    [ mention_record "Ivanov" (Some "Ivanova") "POS" "2024-05-01"
        (PInt 1714557600) meta0;
      mention_record "Ivanov" None "MIXED" "2024-05-01" (PInt 1714557600) meta0;
      mention_record "Ivanov" None "NEG" "2024-05-02" (PInt 1714644000) meta1 ] in
  _aggregate_nlp_results default_tesa_id2label example_fromtimestamp
    [ [ {[ "entity" := "Ivanov"; "entity_original" := "Ivanova";
           "polarity" := "POS" ]};
        {[ "entity" := "Ivanov"; "polarity" := "MIXED" ]};
        {[ "entity" := ""; "polarity" := "POS" ]} ];
      [ {[ "entity" := "Ivanov"; "polarity" := "NEG" ]} ] ]
    [ meta0; meta1 ]
  = Some (summary, mentions)
  ∧ sum_values {[ "POS" := 1; "NEG" := 0; "NEU" := 0; "UNKNOWN" := 1 ]}
    = Z.of_nat (mention_count mentions "Ivanov" "2024-05-01").
Proof.
  assert (Hrun :
    _aggregate_nlp_results default_tesa_id2label example_fromtimestamp
      [ [ {[ "entity" := "Ivanov"; "entity_original" := "Ivanova";
             "polarity" := "POS" ]};
          {[ "entity" := "Ivanov"; "polarity" := "MIXED" ]};
          {[ "entity" := ""; "polarity" := "POS" ]} ];
        [ {[ "entity" := "Ivanov"; "polarity" := "NEG" ]} ] ]
      [ {[ "date_timestamp" := PInt 1714557600; "source_type" := PStr "post";
           "source_id" := PInt 17; "group_name" := PStr "news" ]};
        {[ "date_timestamp" := PInt 1714644000; "source_type" := PStr "comment";
           "source_id" := PInt 18; "post_id_parent" := PInt 17 ]} ]
    = Some
        ({[ "Ivanov" :=
              {[ "2024-05-01" :=
                   {[ "POS" := 1; "NEG" := 0; "NEU" := 0; "UNKNOWN" := 1 ]};
                 "2024-05-02" :=
                   {[ "POS" := 0; "NEG" := 1; "NEU" := 0; "UNKNOWN" := 0 ]} ]} ]},
         [ mention_record "Ivanov" (Some "Ivanova") "POS" "2024-05-01"
             (PInt 1714557600)
             {[ "date_timestamp" := PInt 1714557600; "source_type" := PStr "post";
                "source_id" := PInt 17; "group_name" := PStr "news" ]};
           mention_record "Ivanov" None "MIXED" "2024-05-01" (PInt 1714557600)
             {[ "date_timestamp" := PInt 1714557600; "source_type" := PStr "post";
                "source_id" := PInt 17; "group_name" := PStr "news" ]};
           mention_record "Ivanov" None "NEG" "2024-05-02" (PInt 1714644000)
             {[ "date_timestamp" := PInt 1714644000;
                "source_type" := PStr "comment";
                "source_id" := PInt 18; "post_id_parent" := PInt 17 ]} ]))
    by vm_eval.
  split; [exact Hrun|].
  refine (aggregate_counts_match_mentions _ _ _ _ _ _ Hrun "Ivanov" "2024-05-01"
            _ _ _ _); reflexivity.
Defined.

(** ** The wire client: retry policy *)

Section WireFacts.
Context {R : Type}.
Variable cfg : wire_config.
Variable wire : nat -> attempt_outcome R.

(** One iteration that meets an API error with another code than 6 and 29
    ends the call, whatever budget is left. *)
Lemma call_loop_fatal remaining attempt trace code msg :
  wire attempt = ApiError code msg ->
  code ≠ Some 6 -> code ≠ Some 29 ->
  call_loop cfg wire (S remaining) attempt trace
  = (RaisedVKAPIError (ApiErrorFatal code msg), trace ++ [EvPost attempt]).
Proof.
  intros Hw H6 H29. simpl. rewrite Hw.
  by rewrite !decide_False by done.
Qed.

Lemma not_last_attempt attempt :
  (S attempt < max_retries cfg)%nat ->
  is_last_attempt cfg attempt = false
  ∧ (Z.of_nat attempt <? Z.of_nat (max_retries cfg) - 1) = true.
Proof.
  intros H. unfold is_last_attempt. split.
  - apply Z.eqb_neq. lia.
  - apply Z.ltb_lt. lia.
Qed.

(** A retried attempt that is not the last one: one request, one back-off
    sleep, then the next attempt. *)
Lemma call_loop_retried remaining attempt trace :
  (S attempt < max_retries cfg)%nat ->
  retried (wire attempt) ->
  exists d,
    call_loop cfg wire (S remaining) attempt trace
    = call_loop cfg wire remaining (S attempt)
        (trace ++ [EvPost attempt; EvBackoff attempt d]).
Proof.
  intros Hlt Hr. destruct (not_last_attempt attempt Hlt) as [Hlast Hlt'].
  simpl. unfold retried in Hr.
  destruct (wire attempt) as [| | |code msg|r]; try done.
  - rewrite Hlast. eexists. by rewrite <- app_assoc.
  - rewrite Hlt'. eexists. by rewrite <- app_assoc.
  - destruct Hr as [-> | ->].
    + rewrite decide_True by done. rewrite Hlast. eexists. by rewrite <- app_assoc.
    + rewrite decide_False by done. rewrite decide_True by done.
      rewrite Hlast. eexists. by rewrite <- app_assoc.
Qed.

Lemma call_loop_reaches k : forall remaining attempt trace,
  (attempt + remaining = max_retries cfg)%nat ->
  (attempt <= k)%nat -> (k < max_retries cfg)%nat ->
  (forall j, (attempt <= j < k)%nat -> retried (wire j)) ->
  exists earlier,
    call_loop cfg wire remaining attempt trace
    = call_loop cfg wire (max_retries cfg - k) k (trace ++ earlier)
    ∧ posts_sent earlier = seq attempt (k - attempt)
    ∧ (forall a d, EvBackoff a d ∈ earlier -> (a < k)%nat).
Proof.
  intros remaining attempt. remember (k - attempt)%nat as n eqn:Hn.
  revert remaining attempt Hn.
  induction n as [|n IH]; intros remaining attempt Hn trace Hsum Hle Hk Hretr.
  - assert (attempt = k) as -> by lia.
    exists []. rewrite app_nil_r.
    replace (max_retries cfg - k)%nat with remaining by lia.
    split; [done|]. split; [done|]. intros a d H. by apply elem_of_nil in H.
  - destruct remaining as [|remaining]; [lia|].
    destruct (call_loop_retried remaining attempt trace) as [d Hstep];
      [lia | apply Hretr; lia |].
    destruct (IH remaining (S attempt) ltac:(lia)
                (trace ++ [EvPost attempt; EvBackoff attempt d]))
      as (earlier & Hrun & Hposts & Hback); [lia | lia | done | |].
    { intros j Hj. apply Hretr. lia. }
    exists ([EvPost attempt; EvBackoff attempt d] ++ earlier).
    rewrite Hstep, Hrun, <- app_assoc. split; [done|]. split.
    + change (attempt :: posts_sent earlier = attempt :: seq (S attempt) n).
      by rewrite Hposts.
    + intros a d' Hin. apply elem_of_app in Hin as [Hin|Hin]; [|by eapply Hback].
      apply elem_of_cons in Hin as [?|Hin]; [done|].
      apply list_elem_of_singleton in Hin. inversion Hin; subst. lia.
Qed.

End WireFacts.

(** C6: when the response of an attempt carries an API-level error object
    whose code is neither 6 nor 29, the call fails with the fatal error on
    that attempt: the trace ends with the request of that attempt, so there
    is no sleep for it and no later request, although the attempt is within
    the retry budget.  (The attempts before it are the retried ones.) *)
Theorem other_api_error_code_fails_immediately {R : Type}
    (cfg : wire_config) (wire : nat -> attempt_outcome R)
    (k : nat) (code : option Z) (msg : string) :
  (k < max_retries cfg)%nat ->
  (forall j, (j < k)%nat -> retried (wire j)) ->
  wire k = ApiError code msg ->
  code ≠ Some 6 -> code ≠ Some 29 ->
  exists earlier,
    _call_method cfg wire
    = (RaisedVKAPIError (ApiErrorFatal code msg), earlier ++ [EvPost k])
    ∧ posts_sent earlier = seq 0 k
    ∧ (forall a d, EvBackoff a d ∈ earlier -> (a < k)%nat).
Proof.
  intros Hk Hretr Hw H6 H29. unfold _call_method.
  destruct (call_loop_reaches cfg wire k (max_retries cfg) 0%nat [])
    as (earlier & Hrun & Hposts & Hback); [lia | lia | done | |].
  { intros j Hj. apply Hretr. lia. }
  exists earlier. rewrite Hrun. simpl app.
  destruct (max_retries cfg - k)%nat as [|remaining] eqn:Hrem; [lia|].
  rewrite (call_loop_fatal cfg wire remaining k earlier code msg) by done.
  split; [done|]. split; [|done]. by rewrite Hposts, Nat.sub_0_r.
Qed.

Lemma other_api_error_code_fails_immediately_witness :
  let cfg := {| max_retries := 3; base_retry_delay_s := 1;
                rate_limit_delay_s := 10;
                delay_after_api_call := Some (37 # 100) |} in
  let wire : nat -> attempt_outcome Z := fun attempt =>
    match attempt with
    | O => ApiError (Some 6) "Too many requests per second"
    | _ => ApiError (Some 5) "User authorization failed"
    end in
  (1 < max_retries cfg)%nat
  ∧ wire 1%nat = ApiError (Some 5) "User authorization failed"
  ∧ exists earlier,
      _call_method cfg wire
      = (RaisedVKAPIError
           (ApiErrorFatal (Some 5) "User authorization failed"),
         earlier ++ [EvPost 1])
      ∧ posts_sent earlier = seq 0 1
      ∧ (forall a d, EvBackoff a d ∈ earlier -> (a < 1)%nat).
Proof.
  split; [simpl; lia|]. split; [reflexivity|].
  apply (other_api_error_code_fails_immediately
           {| max_retries := 3; base_retry_delay_s := 1;
              rate_limit_delay_s := 10;
              delay_after_api_call := Some (37 # 100) |}
           (fun attempt =>
              match attempt with
              | O => ApiError (Some 6) "Too many requests per second"
              | _ => ApiError (Some 5) "User authorization failed"
              end) 1%nat (Some 5) "User authorization failed").
  - simpl. lia.
  - intros [|j] Hj; [simpl; auto | lia].
  - reflexivity.
  - discriminate.
  - discriminate.
Defined.

(** C7: with [max_retries >= 3], when the first two attempts fail with API
    error code 6 and the third succeeds, the call returns the payload of
    the third response, and the back-off slept over the failed attempts is
    [base_retry_delay_s * (2^0 + 2^1)]. *)
Theorem throttled_twice_then_success {R : Type}
    (cfg : wire_config) (wire : nat -> attempt_outcome R)
    (msg0 msg1 : string) (payload : R) :
  (3 <= max_retries cfg)%nat ->
  wire 0%nat = ApiError (Some 6) msg0 ->
  wire 1%nat = ApiError (Some 6) msg1 ->
  wire 2%nat = Payload payload ->
  (_call_method cfg wire).1 = Returned payload
  ∧ (_call_method cfg wire).2
    = [EvPost 0; EvBackoff 0 (exponential_delay cfg 0);
       EvPost 1; EvBackoff 1 (exponential_delay cfg 1);
       EvPost 2] ++ delay_after_call_events cfg
  ∧ (total_backoff (_call_method cfg wire).2
     == base_retry_delay_s cfg * inject_Z (2 ^ 0 + 2 ^ 1))%Q.
Proof.
  intros Hmax H0 H1 H2. unfold _call_method.
  destruct (max_retries cfg) as [|[|[|n]]] eqn:Hm; try lia.
  assert (Hl0 : is_last_attempt cfg 0 = false).
  { unfold is_last_attempt. rewrite Hm. apply Z.eqb_neq. lia. }
  assert (Hl1 : is_last_attempt cfg 1 = false).
  { unfold is_last_attempt. rewrite Hm. apply Z.eqb_neq. lia. }
  cbn [call_loop]. rewrite H0. rewrite decide_True by done. rewrite Hl0.
  cbn [call_loop]. rewrite H1. rewrite decide_True by done. rewrite Hl1.
  cbn [call_loop]. rewrite H2. cbn [fst snd app].
  split; [done|]. split; [done|].
  unfold delay_after_call_events, exponential_delay.
  destruct (delay_after_api_call cfg); cbn [app total_backoff];
    change (Z.of_nat 0) with 0%Z; change (Z.of_nat 1) with 1%Z;
    change (2 ^ 0)%Z with 1%Z; change (2 ^ 1)%Z with 2%Z;
    change (inject_Z (1 + 2)) with (inject_Z 3);
    unfold inject_Z; ring.
Qed.

Lemma throttled_twice_then_success_witness :
  let cfg := {| max_retries := 3; base_retry_delay_s := 1;
                rate_limit_delay_s := 10;
                delay_after_api_call := Some (37 # 100) |} in
  let wire : nat -> attempt_outcome Z := fun attempt =>
    match attempt with
    | O | S O => ApiError (Some 6) "Too many requests per second"
    | _ => Payload 42
    end in
  (_call_method cfg wire).1 = Returned 42
  ∧ (_call_method cfg wire).2
    = [EvPost 0; EvBackoff 0 (exponential_delay cfg 0);
       EvPost 1; EvBackoff 1 (exponential_delay cfg 1);
       EvPost 2] ++ delay_after_call_events cfg
  ∧ (total_backoff (_call_method cfg wire).2
     == base_retry_delay_s cfg * inject_Z (2 ^ 0 + 2 ^ 1))%Q.
Proof.
  apply (throttled_twice_then_success
           {| max_retries := 3; base_retry_delay_s := 1;
              rate_limit_delay_s := 10;
              delay_after_api_call := Some (37 # 100) |}
           (fun attempt =>
              match attempt with
              | O | S O => ApiError (Some 6) "Too many requests per second"
              | _ => Payload 42
              end)
           "Too many requests per second" "Too many requests per second" 42);
    [simpl; lia | reflexivity | reflexivity | reflexivity].
Defined.

(** ** One group: order of the written records and failed writes *)

Lemma Sorted_take {A} (R : relation A) (l : list A) k :
  Sorted R l -> Sorted R (take k l).
Proof.
  intros H. revert k. induction H as [|x l Hs IH Hhd]; intros [|k]; simpl;
    try by constructor.
  constructor; [apply IH|].
  destruct Hhd; destruct k; simpl; by constructor.
Qed.

Lemma write_entries_all entries : forall file saved,
  write_entries entries None file saved
  = (file ++ entries, saved + Z.of_nat (length entries), true).
Proof.
  induction entries as [|e entries IH]; intros file saved; simpl.
  - by rewrite app_nil_r, Z.add_0_r.
  - rewrite IH, <- app_assoc. simpl. do 2 f_equal. lia.
Qed.

Lemma write_entries_budget entries : forall k file saved,
  write_entries entries (Some k) file saved
  = (file ++ take k entries,
     saved + Z.of_nat (Nat.min k (length entries)),
     bool_decide (length entries <= k)%nat).
Proof.
  induction entries as [|e entries IH]; intros k file saved; simpl.
  - by rewrite take_nil, app_nil_r, Nat.min_0_r, Z.add_0_r.
  - destruct k as [|k]; simpl.
    + by rewrite app_nil_r, Z.add_0_r.
    + rewrite IH, <- app_assoc. simpl.
      rewrite (bool_decide_ext (S (length entries) <= S k)%nat
                 (length entries <= k)%nat) by lia.
      do 2 f_equal. lia.
Qed.

Section GroupFacts.
Variable fetched_group : option group_info.
Variable posts_in_period : list post_data.
Variable parse_comments_for_post : Z -> option (list comment_data).

Lemma batch_chronological g :
  newest_first posts_in_period ->
  chronological
    (reverse (all_group_data_to_write posts_in_period parse_comments_for_post g)).
Proof.
  intros H. unfold chronological, all_group_data_to_write.
  apply (Sorted_reverse
           (fun a b : collection_record => date (rec_post b) <= date (rec_post a))).
  eapply Sorted_fmap; [|exact H]. intros x y Hxy. exact Hxy.
Qed.

(** What a run adds to the file: nothing, the whole batch reversed, or the
    part of it written before the failing [write]. *)
Lemma process_and_write_appends fault file :
  exists written,
    (process_and_write_to_file fetched_group posts_in_period
       parse_comments_for_post fault file).2 = file ++ written
    ∧ (written = []
       ∨ exists g k, fetched_group = Some g
           ∧ written = take k (reverse (all_group_data_to_write posts_in_period
                                          parse_comments_for_post g)))
    ∧ (fault = NoFault -> forall g, fetched_group = Some g ->
       written = reverse (all_group_data_to_write posts_in_period
                            parse_comments_for_post g)).
Proof.
  unfold process_and_write_to_file.
  destruct fetched_group as [g|].
  2:{ exists []. rewrite app_nil_r. split; [done|]. split; [by left|]. done. }
  destruct posts_in_period as [|p ps] eqn:Hposts.
  { exists []. rewrite app_nil_r. split; [done|]. split; [by left|].
    intros _ g' [= <-]. done. }
  rewrite <- Hposts.
  destruct (all_group_data_to_write posts_in_period parse_comments_for_post g)
    as [|e batch] eqn:Hbatch.
  { exists []. rewrite app_nil_r. split; [done|]. split; [by left|].
    intros _ g' [= <-]. by rewrite Hbatch. }
  rewrite <- Hbatch.
  set (batch' := all_group_data_to_write posts_in_period parse_comments_for_post g).
  destruct fault as [| |k].
  - rewrite write_entries_all. simpl. exists (reverse batch').
    split; [done|]. split.
    + right. exists g, (length (reverse batch')). by rewrite firstn_all.
    + intros _ g' [= <-]. done.
  - exists []. rewrite app_nil_r. split; [done|]. split; [by left|]. done.
  - rewrite write_entries_budget.
    exists (take k (reverse batch')).
    split; [by case_bool_decide|]. split; [right; eauto|]. done.
Qed.

End GroupFacts.

(** C8: when the collected post list of a group is ordered newest first,
    the records the run appends to the output file are in ascending
    timestamp order; without an I/O failure they are the batch reversed
    once. *)
Theorem written_records_chronological
    (fetched_group : option group_info) (posts_in_period : list post_data)
    (parse_comments_for_post : Z -> option (list comment_data))
    (fault : io_fault) (file : list collection_record) :
  newest_first posts_in_period ->
  exists written,
    (process_and_write_to_file fetched_group posts_in_period
       parse_comments_for_post fault file).2 = file ++ written
    ∧ chronological written
    ∧ (fault = NoFault -> forall g, fetched_group = Some g ->
       written = reverse (all_group_data_to_write posts_in_period
                            parse_comments_for_post g)).
Proof.
  intros Hsorted.
  destruct (process_and_write_appends fetched_group posts_in_period
              parse_comments_for_post fault file)
    as (written & Hfile & Hshape & Hall).
  exists written. split; [done|]. split; [|done].
  destruct Hshape as [->|(g & k & _ & ->)].
  - constructor.
  - apply Sorted_take. by apply batch_chronological.
Qed.

(** C10: when a [write] of the batch raises [IOError],
    [process_and_write_to_file] returns the saved count 0, and the records
    written before the failure stay appended to the file. *)
Theorem failed_write_returns_zero
    (g : group_info) (posts_in_period : list post_data)
    (parse_comments_for_post : Z -> option (list comment_data))
    (k : nat) (file : list collection_record) :
  (k < length posts_in_period)%nat ->
  process_and_write_to_file (Some g) posts_in_period parse_comments_for_post
    (WriteFails k) file
  = (0, file ++ take k (reverse (all_group_data_to_write posts_in_period
                                   parse_comments_for_post g))).
Proof.
  intros Hk. unfold process_and_write_to_file.
  destruct posts_in_period as [|p ps] eqn:Hposts; [simpl in Hk; lia|].
  rewrite <- Hposts.
  destruct (all_group_data_to_write posts_in_period parse_comments_for_post g)
    as [|e batch] eqn:Hbatch.
  { unfold all_group_data_to_write in Hbatch. rewrite Hposts in Hbatch.
    discriminate. }
  rewrite <- Hbatch. rewrite write_entries_budget.
  rewrite bool_decide_eq_false_2; [done|].
  unfold all_group_data_to_write.
  rewrite length_reverse, length_fmap, Hposts. lia.
Qed.

(** ** The coordinator: what a run returns *)

Lemma total_posts_saved_from results : forall total,
  foldl (fun total result =>
           match result with
           | TaskSaved n => total + n
           | TaskException => total
           end) total results
  = total + total_posts_saved results.
Proof.
  unfold total_posts_saved.
  induction results as [|r results IH]; intros total; simpl; [lia|].
  rewrite IH, (IH (match r with TaskSaved n => 0 + n | TaskException => 0 end)).
  destruct r; lia.
Qed.

(** The logged total: each saved count once, nothing for a failed group. *)
Lemma total_posts_saved_cons r results :
  total_posts_saved (r :: results)
  = match r with TaskSaved n => n | TaskException => 0 end
    + total_posts_saved results.
Proof.
  unfold total_posts_saved at 1. simpl. rewrite total_posts_saved_from.
  destruct r; lia.
Qed.

(** C9 (as stated) fails: the value a run returns is the path alone, so
    two runs that persist different numbers of records return the same
    result. *)
Lemma fetch_vk_data_result_counterexample :
  (fetch_vk_data 0 86399 "vk_parsed_data_temp.jsonl" true (Some "token")
     [TaskSaved 3]).1
  = (fetch_vk_data 0 86399 "vk_parsed_data_temp.jsonl" true (Some "token")
       [TaskSaved 5; TaskException]).1
  ∧ total_posts_saved [TaskSaved 3] ≠ total_posts_saved [TaskSaved 5; TaskException].
Proof. split; [reflexivity | discriminate]. Qed.

(** C9 (amended): a run that gets through its checks returns the path to
    the output file, and nothing else; the total it logs is the sum of the
    saved counts of the groups, a failed group adding 0. *)
Theorem fetch_vk_data_returns_path
    (start_ts end_ts : Z) (output_file : string) (service_token : string)
    (results : list task_result) :
  start_ts <= end_ts -> service_token ≠ "" ->
  fetch_vk_data start_ts end_ts output_file true (Some service_token) results
  = (FetchReturns output_file,
     Some (foldr (fun result total =>
                    match result with
                    | TaskSaved n => n
                    | TaskException => 0
                    end + total) 0 results)).
Proof.
  intros Hts Htok. unfold fetch_vk_data.
  rewrite (proj2 (Z.ltb_ge end_ts start_ts)) by done. simpl.
  unfold str_truthy. rewrite bool_decide_eq_false_2 by done. simpl.
  do 2 f_equal.
  induction results as [|r results IH]; [done|].
  rewrite total_posts_saved_cons, IH. done.
Qed.

(** ** The object store: arguments are not mutated, results are copies *)

Section StoreFrame.

(** The store at the call. *)
Variable h0 : list pyobj.

Local Abbreviation vfresh := (vfresh h0).
Local Abbreviation obj_fresh := (obj_fresh h0).
Local Abbreviation extends := (extends h0).
Local Abbreviation triple := (triple h0).
Local Abbreviation memo_fresh := (memo_fresh h0).

Lemma triple_ret {A} (a : A) (Q : A -> Prop) : Q a -> triple (ret a) Q.
Proof. intros HQ h Hh. by split. Qed.

Lemma triple_raise {A} (Q : A -> Prop) : triple raise Q.
Proof. intros h Hh. by split. Qed.

Lemma triple_bind {A B} (m : M A) (f : A -> M B) (P : A -> Prop) (Q : B -> Prop) :
  triple m P -> (forall a, P a -> triple (f a) Q) -> triple (bind m f) Q.
Proof.
  intros Hm Hf h Hh. unfold bind.
  destruct (Hm h Hh) as [Hext HP].
  destruct (m h) as [[a|] h1]; simpl in *.
  - by apply Hf.
  - by split.
Qed.

Lemma triple_weaken {A} (m : M A) (P Q : A -> Prop) :
  triple m P -> (forall a, P a -> Q a) -> triple m Q.
Proof.
  intros Hm HPQ h Hh. destruct (Hm h Hh) as [Hext HP]. split; [done|].
  destruct (m h).1; auto.
Qed.

Lemma triple_alloc o : obj_fresh o -> triple (alloc o) (fun l => vfresh (ORef l)).
Proof.
  intros Ho h (created & -> & Hc). split; simpl.
  - exists (created ++ [o]). rewrite app_assoc. split; [done|].
    apply Forall_app. split; [done|]. by constructor.
  - rewrite length_app. lia.
Qed.

Lemma triple_load l : triple (load l) (fun o => vfresh (ORef l) -> obj_fresh o).
Proof.
  intros h Hh. unfold load.
  destruct (h !! l) as [o|] eqn:Hl; simpl; [|done]. split; [done|].
  intros Hfresh. destruct Hh as (created & -> & Hc). simpl in Hfresh.
  rewrite lookup_app_r in Hl by done.
  eapply Forall_lookup_1 in Hl; eauto.
Qed.

Lemma triple_store l o :
  vfresh (ORef l) -> obj_fresh o -> triple (store l o) (fun _ => True).
Proof.
  intros Hl Ho h Hh. unfold store. case_decide as Hlt; simpl; [|done].
  split; [|done]. destruct Hh as (created & -> & Hc). simpl in Hl.
  exists (<[(l - length h0)%nat := o]> created). split.
  - by rewrite insert_app_r_alt.
  - by apply Forall_insert.
Qed.

Lemma triple_store_size : triple store_size (fun _ => True).
Proof. intros h Hh. by split. Qed.

Lemma triple_load_dict v :
  triple (load_dict v)
    (fun ld => vfresh v -> vfresh (ORef ld.1) ∧ obj_fresh (ODict ld.2)).
Proof.
  destruct v as [a|l]; simpl; [apply triple_raise|].
  eapply triple_bind; [apply triple_load|]. intros [d|items] Ho; simpl.
  - apply triple_ret. intros H. split; [done | by apply Ho].
  - apply triple_raise.
Qed.

Lemma triple_load_list v :
  triple (load_list v)
    (fun li => vfresh v -> vfresh (ORef li.1) ∧ obj_fresh (OList li.2)).
Proof.
  destruct v as [a|l]; simpl; [apply triple_raise|].
  eapply triple_bind; [apply triple_load|]. intros [d|items] Ho; simpl.
  - apply triple_raise.
  - apply triple_ret. intros H. split; [done | by apply Ho].
Qed.

Lemma triple_dict_getitem v k :
  vfresh v -> triple (dict_getitem v k) vfresh.
Proof.
  intros Hv. unfold dict_getitem.
  eapply triple_bind; [apply triple_load_dict|]. intros [l d] Hd.
  destruct (Hd Hv) as [_ Hfresh]. simpl in *.
  destruct (d !! k) as [x|] eqn:Hk; [|apply triple_raise].
  apply triple_ret. by eapply Hfresh.
Qed.

Lemma triple_dict_setitem v k x :
  vfresh v -> vfresh x -> triple (dict_setitem v k x) (fun _ => True).
Proof.
  intros Hv Hx. unfold dict_setitem.
  eapply triple_bind; [apply triple_load_dict|]. intros [l d] Hd.
  destruct (Hd Hv) as [Hl Hfresh]. simpl in *.
  apply triple_store; [done|]. simpl. by apply map_Forall_insert_2.
Qed.

Lemma triple_dict_delitem v k :
  vfresh v -> triple (dict_delitem v k) (fun _ => True).
Proof.
  intros Hv. unfold dict_delitem.
  eapply triple_bind; [apply triple_load_dict|]. intros [l d] Hd.
  destruct (Hd Hv) as [Hl Hfresh]. simpl in *.
  destruct (d !! k); [|apply triple_raise].
  apply triple_store; [done|]. simpl. by apply map_Forall_delete.
Qed.

Lemma triple_for_each {A} (f : A -> M unit) (P : A -> Prop) xs :
  Forall P xs ->
  (forall x, P x -> triple (f x) (fun _ => True)) ->
  triple (for_each f xs) (fun _ => True).
Proof.
  intros Hxs Hf. induction Hxs as [|x xs Hx _ IH]; simpl.
  - by apply triple_ret.
  - eapply triple_bind; [by apply Hf|]. intros _ _. exact IH.
Qed.

Lemma triple_fold_each {A B} (f : B -> A -> M B) (I : B -> Prop) xs : forall b,
  I b ->
  (forall b x, I b -> triple (f b x) I) ->
  triple (fold_each f b xs) I.
Proof.
  induction xs as [|x xs IH]; intros b Hb Hf; simpl.
  - by apply triple_ret.
  - eapply triple_bind; [by apply Hf|]. intros b' Hb'. by apply IH.
Qed.

(** *** [copy.deepcopy] creates objects and writes to the objects it
    created. *)

Lemma triple_deepcopy_memo depth : forall memo v,
  memo_fresh memo ->
  triple (deepcopy_memo depth memo v)
    (fun r => memo_fresh r.1 ∧ vfresh r.2).
Proof.
  induction depth as [|depth IH]; intros memo v Hmemo;
    destruct v as [a|l]; simpl; try (by apply triple_ret);
    destruct (memo !! l) as [l'|] eqn:Hl;
    try (apply triple_ret; split; [done | by eapply Hmemo]);
    try apply triple_raise.
  eapply triple_bind; [apply triple_load|]. intros [d|items] _.
  - eapply triple_bind; [apply triple_alloc; apply map_Forall_empty|].
    intros l' Hl'.
    eapply triple_bind.
    + apply (triple_fold_each _ memo_fresh).
      * by apply map_Forall_insert_2.
      * intros memo1 [k x] Hmemo1.
        eapply triple_bind; [by apply IH|]. intros [memo2 x'] [Hmemo2 Hx'].
        eapply triple_bind; [by apply triple_dict_setitem|]. intros _ _.
        by apply triple_ret.
    + intros memo' Hmemo'. by apply triple_ret.
  - eapply triple_bind; [apply triple_alloc; constructor|].
    intros l' Hl'.
    eapply triple_bind.
    + apply (triple_fold_each _ memo_fresh).
      * by apply map_Forall_insert_2.
      * intros memo1 x Hmemo1.
        eapply triple_bind; [by apply IH|]. intros [memo2 x'] [Hmemo2 Hx'].
        eapply triple_bind; [apply (triple_load_list (ORef l'))|].
        intros [l2 copied] Hc.
        destruct (Hc Hl') as [_ Hcopied]. simpl in *.
        eapply triple_bind.
        { apply triple_store; [done|]. simpl. apply Forall_app. split; [done|].
          by constructor. }
        intros _ _. by apply triple_ret.
    + intros memo' Hmemo'. by apply triple_ret.
Qed.

Lemma triple_deepcopy v : triple (deepcopy v) vfresh.
Proof.
  unfold deepcopy.
  eapply triple_bind; [apply triple_store_size|]. intros n _.
  eapply triple_bind; [apply triple_deepcopy_memo, map_Forall_empty|].
  intros [memo v'] [_ Hv']. by apply triple_ret.
Qed.

(** *** The merge writes to the copies only. *)

Variable tesa_id2label : gmap Z string.

Lemma triple_py_add a b : triple (py_add a b) vfresh.
Proof.
  destruct a as [[|x|x]|], b as [[|y|y]|]; simpl;
    first [apply triple_raise | by apply triple_ret].
Qed.

Lemma triple_merge_date_store new_summary canonical item :
  vfresh new_summary -> vfresh item.2 ->
  triple (merge_date_store tesa_id2label new_summary canonical item)
    (fun _ => True).
Proof.
  intros Hs Hitem. destruct item as [date_key sentiment_counts].
  unfold merge_date_store. simpl in Hitem.
  eapply triple_bind; [by apply triple_dict_getitem|]. intros cd Hcd.
  eapply triple_bind; [apply triple_load_dict|]. intros [lc dates] _.
  apply (triple_bind _ _ (fun _ => True)).
  { destruct (dates !! date_key); [by apply triple_ret|].
    eapply triple_bind.
    - apply triple_alloc. simpl. intros k v.
      rewrite lookup_fmap. by destruct (_ !! k); intros [= <-].
    - intros b Hb. by apply triple_dict_setitem. }
  intros _ _.
  eapply triple_bind; [apply triple_load_dict|]. intros [lsc counts] Hcounts.
  destruct (Hcounts Hitem) as [_ Hfresh]. simpl in Hfresh.
  apply (triple_for_each _ (fun kv => vfresh kv.2)).
  - apply Forall_forall. intros [k v] Hin.
    apply elem_of_map_to_list in Hin. by eapply Hfresh.
  - intros [sentiment count] Hcount. simpl in Hcount.
    eapply triple_bind; [by apply triple_dict_getitem|]. intros cd' Hcd'.
    eapply triple_bind; [by apply triple_dict_getitem|]. intros bucket Hbucket.
    eapply triple_bind; [apply triple_load_dict|]. intros [lb labels] _.
    eapply triple_bind; [apply triple_py_add|]. intros total Htotal.
    by apply triple_dict_setitem.
Qed.

Lemma triple_merge_alias_store new_summary canonical alias :
  vfresh new_summary ->
  triple (merge_alias_store tesa_id2label new_summary canonical alias)
    (fun _ => True).
Proof.
  intros Hs. unfold merge_alias_store. case_decide; [by apply triple_ret|].
  eapply triple_bind; [apply triple_load_dict|]. intros [ls entities] Hent.
  destruct (Hent Hs) as [_ Hfresh]. simpl in Hfresh. simpl.
  destruct (entities !! alias) as [alias_dates|] eqn:Halias;
    [|by apply triple_ret].
  assert (Had : vfresh alias_dates) by (by eapply Hfresh).
  eapply triple_bind; [apply triple_load_dict|]. intros [la dates] Hdates.
  destruct (Hdates Had) as [_ Hdfresh]. simpl in Hdfresh. simpl.
  eapply triple_bind.
  - apply (triple_for_each _ (fun kv => vfresh kv.2)).
    + apply Forall_forall. intros [k v] Hin.
      apply elem_of_map_to_list in Hin. by eapply Hdfresh.
    + intros item Hitem. by apply triple_merge_date_store.
  - intros _ _. by apply triple_dict_delitem.
Qed.

Lemma triple_rewrite_mention_store aliases canonical mention :
  vfresh mention ->
  triple (rewrite_mention_store aliases canonical mention) (fun _ => True).
Proof.
  intros Hm. unfold rewrite_mention_store.
  eapply triple_bind; [apply triple_load_dict|]. intros [lm fields] _. simpl.
  destruct (oval_in _ aliases); [|by apply triple_ret].
  by apply triple_dict_setitem.
Qed.

Lemma triple_reaggregate s m aliases canonical :
  triple (reaggregate_with_aliases_store tesa_id2label s m aliases canonical)
    (fun r => whitespace_only canonical = false -> vfresh r.1 ∧ vfresh r.2).
Proof.
  unfold reaggregate_with_aliases_store. rewrite str_truthy_strip, negb_involutive.
  destruct (whitespace_only canonical); [by apply triple_ret|].
  eapply triple_bind; [apply triple_deepcopy|]. intros s' Hs'.
  eapply triple_bind; [apply triple_deepcopy|]. intros m' Hm'.
  eapply triple_bind; [apply triple_load_dict|]. intros [ls entities] _. simpl.
  apply (triple_bind _ _ (fun _ => True)).
  { destruct (entities !! canonical); [by apply triple_ret|].
    eapply triple_bind; [apply triple_alloc, map_Forall_empty|].
    intros fresh Hfresh. by apply triple_dict_setitem. }
  intros _ _.
  eapply triple_bind.
  { apply (triple_for_each _ (fun _ => True)); [by apply Forall_true|].
    intros alias _. by apply triple_merge_alias_store. }
  intros _ _.
  eapply triple_bind; [apply triple_load_list|]. intros [lm mentions] Hmentions.
  destruct (Hmentions Hm') as [_ Hmfresh]. simpl in Hmfresh. simpl.
  eapply triple_bind.
  { apply (triple_for_each _ vfresh); [done|].
    intros mention Hmention. by apply triple_rewrite_mention_store. }
  intros _ _. by apply triple_ret.
Qed.

(** What a fresh value leads to was created after the call began. *)
Lemma reachable_fresh h v l :
  extends h -> vfresh v -> reachable h v l -> vfresh (ORef l).
Proof.
  intros (created & -> & Hc) Hv Hreach.
  induction Hreach as [l|v l o l' _ IH Hl Hin]; [done|].
  specialize (IH Hv). simpl in IH.
  rewrite lookup_app_r in Hl by done.
  eapply Forall_lookup_1 in Hl; [|exact Hc].
  destruct o as [d|items]; simpl in *.
  - apply list_elem_of_fmap in Hin as ([k x] & Hx & Hin). simpl in Hx. subst x.
    apply elem_of_map_to_list in Hin. by apply (Hl k (ORef l')).
  - rewrite Forall_forall in Hl. by apply (Hl (ORef l')).
Qed.

End StoreFrame.

(** C3 (as stated) fails: with an empty canonical name the references that
    come back are the caller's own objects, not copies. *)
Lemma reaggregate_store_copies_counterexample :
  let h := [ ODict {[ "Ivanov" := ORef 1 ]};
             ODict {[ "2024-05-01" := ORef 2 ]};
             ODict {[ "POS" := OAtom (PInt 2) ]};
             OList [] ] in
  (reaggregate_with_aliases_store default_tesa_id2label
     (ORef 0) (ORef 3) ["Ivanov I."] "" h).1
  = Ok (ORef 0, ORef 3)
  ∧ (0 < length h)%nat ∧ (3 < length h)%nat.
Proof. split; [reflexivity | simpl; lia]. Qed.

(** C3 (amended): [reaggregate_with_aliases] never mutates the objects of
    the caller: every object of the store at the call is the same after it,
    whether the call returns or raises.  When the canonical name is not
    empty or whitespace only, whatever the returned summary and mention
    list lead to was created during the call, so they share no object with
    the arguments; when it is, the arguments themselves are returned and
    the store is unchanged. *)
Theorem reaggregate_store_does_not_mutate
    (tesa_id2label : gmap Z string) (h : list pyobj)
    (current_summary current_detailed_mentions : oval)
    (aliases : list string) (C : string) :
  let run := reaggregate_with_aliases_store tesa_id2label
               current_summary current_detailed_mentions aliases C h in
  (forall l o, h !! l = Some o -> run.2 !! l = Some o)
  ∧ (forall new_summary new_mentions l,
       whitespace_only C = false ->
       run.1 = Ok (new_summary, new_mentions) ->
       reachable run.2 new_summary l ∨ reachable run.2 new_mentions l ->
       (length h <= l)%nat)
  ∧ (whitespace_only C = true ->
     run = (Ok (current_summary, current_detailed_mentions), h)).
Proof.
  intros run.
  assert (Hstart : extends h h).
  { exists []. by rewrite app_nil_r. }
  destruct (triple_reaggregate h tesa_id2label current_summary
              current_detailed_mentions aliases C h Hstart) as [Hext Hres].
  fold run in Hext, Hres. split; [|split].
  - intros l o Hl. destruct Hext as (created & -> & _).
    by apply lookup_app_l_Some.
  - intros s' m' l HC Hrun Hreach. rewrite Hrun in Hres.
    destruct (Hres HC) as [Hs' Hm']. simpl in Hs', Hm'.
    destruct Hreach as [Hreach|Hreach];
      eapply (reachable_fresh h) in Hreach; eauto.
  - intros HC. unfold run, reaggregate_with_aliases_store.
    by rewrite str_truthy_strip, HC.
Qed.

(** A run on a small store: the merge happens in new objects 4 and up. *)
Example reaggregate_store_example :
  let h := [ ODict {[ "Ivanov" := ORef 1 ]};
             ODict {[ "2024-05-01" := ORef 2 ]};
             ODict {[ "POS" := OAtom (PInt 2) ]};
             OList [] ] in
  let run := reaggregate_with_aliases_store default_tesa_id2label
               (ORef 0) (ORef 3) ["Ivanov"] "I. Ivanov" h in
  run.1 = Ok (ORef 4, ORef 7)
  ∧ take 4 run.2 = h
  ∧ run.2 !! 4%nat = Some (ODict {[ "I. Ivanov" := ORef 8 ]}).
Proof. repeat split; vm_eval. Qed.

Lemma written_records_chronological_witness :
  let g := {| vk_group_id := 77; screen_name := Some "news";
              name := Some "News" |} in
  let newer := {| vk_post_id := 12; owner_id := -77; date := 1714644000;
                  text := "second"; comments_api_count := 0 |} in
  let older := {| vk_post_id := 11; owner_id := -77; date := 1714557600;
                  text := "first"; comments_api_count := 3 |} in
  newest_first [newer; older]
  ∧ exists written,
      (process_and_write_to_file (Some g) [newer; older] (fun _ => None)
         NoFault []).2 = [] ++ written
      ∧ chronological written
      ∧ (NoFault = NoFault -> forall g', Some g = Some g' ->
         written = reverse (all_group_data_to_write [newer; older]
                              (fun _ => None) g')).
Proof.
  assert (Hsorted : newest_first
    [ {| vk_post_id := 12; owner_id := -77; date := 1714644000;
         text := "second"; comments_api_count := 0 |};
      {| vk_post_id := 11; owner_id := -77; date := 1714557600;
         text := "first"; comments_api_count := 3 |} ]).
  { unfold newest_first. repeat constructor. simpl. lia. }
  split; [exact Hsorted|].
  exact (written_records_chronological
           (Some {| vk_group_id := 77; screen_name := Some "news";
                    name := Some "News" |})
           _ (fun _ => None) NoFault [] Hsorted).
Defined.

Lemma failed_write_returns_zero_witness :
  let g := {| vk_group_id := 77; screen_name := Some "news";
              name := Some "News" |} in
  let newer := {| vk_post_id := 12; owner_id := -77; date := 1714644000;
                  text := "second"; comments_api_count := 0 |} in
  let older := {| vk_post_id := 11; owner_id := -77; date := 1714557600;
                  text := "first"; comments_api_count := 3 |} in
  (1 < length [newer; older])%nat
  ∧ process_and_write_to_file (Some g) [newer; older] (fun _ => None)
      (WriteFails 1) []
    = (0, [] ++ take 1 (reverse (all_group_data_to_write [newer; older]
                                   (fun _ => None) g))).
Proof.
  split; [simpl; lia|].
  apply (failed_write_returns_zero
           {| vk_group_id := 77; screen_name := Some "news";
              name := Some "News" |}
           [ {| vk_post_id := 12; owner_id := -77; date := 1714644000;
                text := "second"; comments_api_count := 0 |};
             {| vk_post_id := 11; owner_id := -77; date := 1714557600;
                text := "first"; comments_api_count := 3 |} ]
           (fun _ => None) 1%nat []).
  simpl. lia.
Defined.

Lemma fetch_vk_data_returns_path_witness :
  1714510800 <= 1714683599 ∧ "token" ≠ ""
  ∧ fetch_vk_data 1714510800 1714683599 "vk_parsed_data_temp.jsonl" true
      (Some "token") [TaskSaved 3; TaskException; TaskSaved 0]
    = (FetchReturns "vk_parsed_data_temp.jsonl",
       Some (foldr (fun result total =>
                      match result with
                      | TaskSaved n => n
                      | TaskException => 0
                      end + total) 0
               [TaskSaved 3; TaskException; TaskSaved 0])).
Proof.
  split; [lia|]. split; [discriminate|].
  apply (fetch_vk_data_returns_path 1714510800 1714683599
           "vk_parsed_data_temp.jsonl" "token"
           [TaskSaved 3; TaskException; TaskSaved 0]);
    [lia | discriminate].
Defined.

(** ** Mention records under a merge *)

(** The merge writes the key ["entity"] and no other. *)
Lemma rewrite_mention_other_keys aliases C (m : gmap string pyval) k :
  k ≠ "entity" -> rewrite_mention aliases C m !! k = m !! k.
Proof.
  intros Hk. unfold rewrite_mention.
  destruct (py_in _ aliases); [|done]. by rewrite lookup_insert_ne.
Qed.

(** A record whose ["entity"] key holds a merged alias gets the canonical
    name under that key. *)
Lemma rewrite_mention_entity_key aliases C (m : gmap string pyval) a :
  m !! "entity" = Some (PStr a) -> a ∈ aliases ->
  rewrite_mention aliases C m !! "entity" = Some (PStr C).
Proof.
  intros Hm Ha. unfold rewrite_mention, py_get. rewrite Hm. simpl.
  rewrite bool_decide_eq_true_2 by done. apply lookup_insert_eq.
Qed.

(** A record without an ["entity"] key is left as it is. *)
Lemma rewrite_mention_no_entity_key aliases C (m : gmap string pyval) :
  m !! "entity" = None -> rewrite_mention aliases C m = m.
Proof. intros Hm. unfold rewrite_mention, py_get. by rewrite Hm. Qed.

Section AggregatedMentions.
Variable tesa_id2label : gmap Z string.
Variable fromtimestamp : Z -> date_outcome.

(** The records of the aggregation carry the entity under
    ["entity_normalized"]; none has an ["entity"] key. *)
Lemma aggregate_opinions_no_entity_key dk ts meta ops : forall st st',
  no_entity_key st.2 ->
  aggregate_opinions tesa_id2label dk ts meta st ops = Some st' ->
  no_entity_key st'.2.
Proof.
  induction ops as [|op ops IH]; simpl; intros st st' Hst H.
  - by inversion H; subst.
  - destruct (aggregate_opinion _ _ _ _ st op) as [st1|] eqn:H1; [|discriminate].
    eapply IH; [|exact H]. clear IH H.
    unfold aggregate_opinion in H1. destruct st as [s ms].
    destruct (op !! "entity") as [e|]; [|by inversion H1; subst].
    destruct (op !! "polarity") as [p|]; [|by inversion H1; subst].
    destruct (negb (str_truthy e) || negb (str_truthy p));
      [by inversion H1; subst|].
    destruct (count_polarity _ p); [|discriminate].
    inversion H1; subst. simpl. apply Forall_app. split; [done|].
    constructor; [|constructor]. apply mention_record_no_entity_key.
Qed.

Lemma aggregate_texts_no_entity_key metadata texts : forall st i st',
  no_entity_key st.2 ->
  aggregate_texts tesa_id2label fromtimestamp metadata st i texts = Some st' ->
  no_entity_key st'.2.
Proof.
  induction texts as [|ops texts IH]; simpl; intros st i st' Hst H.
  - by inversion H; subst.
  - destruct (aggregate_text _ _ _ st i ops) as [st1|] eqn:H1; [|discriminate].
    eapply IH; [|exact H]. clear IH H.
    unfold aggregate_text in H1.
    destruct (metadata !! i) as [meta|]; [|by inversion H1; subst].
    destruct (py_get meta "date_timestamp") as [|z|x];
      [by inversion H1; subst| |];
      (destruct (date_key_of _ _) as [dk| |];
         [|by inversion H1; subst|discriminate]);
      by eapply aggregate_opinions_no_entity_key.
Qed.

(** No mention record that the aggregation produced is rewritten by a
    merge, whatever the aliases. *)
Lemma reaggregate_leaves_aggregated_mentions judgments metadata S ms
    S' aliases C :
  _aggregate_nlp_results tesa_id2label fromtimestamp judgments metadata
    = Some (S, ms) ->
  (reaggregate_with_aliases tesa_id2label S' ms aliases C).2 = ms.
Proof.
  intros Hrun.
  assert (Hms : no_entity_key ms).
  { apply (aggregate_texts_no_entity_key metadata judgments (∅, []) 0%nat (S, ms));
      [constructor | exact Hrun]. }
  unfold reaggregate_with_aliases.
  destruct (negb _); [done|]. simpl. clear Hrun.
  induction Hms as [|m ms Hm _ IH]; [done|].
  rewrite fmap_cons, IH. by rewrite rewrite_mention_no_entity_key.
Qed.

End AggregatedMentions.

(** C2, at a mention record as the aggregation builds it: merging the
    alias ["Ivanov I."] into ["Ivanov"] moves the counts in the summary,
    and returns the mention record as it was, its [entity_normalized] still
    the alias. *)
Theorem reaggregate_keeps_entity_normalized :
  let mention :=
    mention_record "Ivanov I." (Some "Ivanov I.") "POS" "2024-05-01"
      (PInt 1714557600) {[ "source_type" := PStr "post" ]} in
  let merged :=
    reaggregate_with_aliases default_tesa_id2label
      {[ "Ivanov I." := {[ "2024-05-01" := {[ "POS" := 1 ]} ]} ]}
      [mention] ["Ivanov I."] "Ivanov" in
  merged.1 !! "Ivanov I." = None
  ∧ entity_total merged.1 "Ivanov" = 1
  ∧ merged.2 = [mention]
  ∧ mention !! "entity_normalized" = Some (PStr "Ivanov I.")
  ∧ mention !! "entity" = None.
Proof. repeat split; vm_eval. Qed.

(** ** The object store: what [copy.deepcopy] returns *)

Lemma rename_mono memo memo' v :
  memo ⊆ memo' -> covered memo v -> rename memo v = rename memo' v.
Proof.
  intros Hsub Hc. destruct v as [a|l]; [done|]. simpl in *.
  destruct Hc as [l' Hl']. rewrite Hl'.
  by rewrite (lookup_weaken _ _ _ _ Hl' Hsub).
Qed.

Lemma covered_mono memo memo' v : memo ⊆ memo' -> covered memo v -> covered memo' v.
Proof.
  intros Hsub Hc. destruct v as [a|l]; [done|]. simpl in *.
  destruct Hc as [l' Hl']. exists l'. by eapply lookup_weaken.
Qed.

Lemma rename_obj_mono memo memo' o :
  memo ⊆ memo' -> Forall (covered memo) (children o) ->
  rename_obj memo o = rename_obj memo' o.
Proof.
  intros Hsub Hc. destruct o as [d|items]; simpl in *; f_equal.
  - apply map_fmap_ext. intros k x Hk. apply rename_mono; [done|].
    rewrite Forall_forall in Hc. apply Hc.
    apply list_elem_of_fmap. exists (k, x). split; [done|].
    by apply elem_of_map_to_list.
  - apply list_fmap_ext. intros i x Hi. apply rename_mono; [done|].
    rewrite Forall_forall in Hc. apply Hc. by eapply list_elem_of_lookup_2.
Qed.

Lemma fold_each_prefix {A B} (f : B -> A -> M B)
    (I : list A -> B -> list pyobj -> Prop) items :
  (forall pre x post b h, items = pre ++ x :: post -> I pre b h ->
     exists b' h', f b x h = (Ok b', h') ∧ I (pre ++ [x]) b' h') ->
  forall b h, I [] b h ->
  exists b' h', fold_each f b items h = (Ok b', h') ∧ I items b' h'.
Proof.
  intros Hf.
  assert (Hgen : forall xs pre b h, items = pre ++ xs -> I pre b h ->
            exists b' h', fold_each f b xs h = (Ok b', h') ∧ I items b' h').
  { induction xs as [|x xs IH]; intros pre b h Hitems Hb; simpl.
    - rewrite app_nil_r in Hitems. subst pre. by exists b, h.
    - destruct (Hf pre x xs b h Hitems Hb) as (b1 & h1 & Hrun & Hb1).
      unfold bind. rewrite Hrun. apply (IH (pre ++ [x])); [|done].
      by rewrite <- app_assoc. }
  intros b h Hb. by apply (Hgen items []).
Qed.

Lemma lookup_middle_cell (h c : list pyobj) o : (h ++ o :: c) !! length h = Some o.
Proof. by rewrite list_lookup_middle. Qed.

Lemma insert_middle_cell (h c : list pyobj) o o' :
  <[length h := o']> (h ++ o :: c) = h ++ o' :: c.
Proof. by rewrite insert_app_r_alt, Nat.sub_diag by lia. Qed.

Section DeepcopyCopies.
Variable h0 : list pyobj.
Hypothesis h0_closed : closed h0.

Local Abbreviation copied := (copied h0).

Lemma keys_old_size memo : keys_old h0 memo -> (size memo <= length h0)%nat.
Proof.
  intros Hk. rewrite <- (size_dom (D:=gset nat)).
  rewrite <- (size_set_seq (C:=gset nat) 0 (length h0)).
  apply subseteq_size. intros l Hl. apply elem_of_dom in Hl as [l' Hl].
  apply elem_of_set_seq. specialize (Hk l l' Hl). lia.
Qed.

Lemma children_valid l o x :
  h0 !! l = Some o -> x ∈ children o -> valid_in h0 x.
Proof.
  intros Ho Hx. destruct x as [a|lx]; [done|]. simpl. by eapply h0_closed.
Qed.

Lemma copied_refl memo h : copied memo memo h h.
Proof. intros l l' H1 H2. congruence. Qed.

Lemma injective_insert_fresh memo l (h : list pyobj) :
  injective_memo memo ->
  (forall l1 l1', memo !! l1 = Some l1' -> (l1' < length h)%nat) ->
  injective_memo (<[l := length h]> memo).
Proof.
  intros Hinj Hb l1 l2 l'. rewrite !lookup_insert.
  repeat case_decide; subst; intros H1 H2; simplify_eq; try done.
  - apply Hb in H2. lia.
  - apply Hb in H1. lia.
  - by eapply Hinj.
Qed.

Lemma deepcopy_memo_copies depth : forall memo v h,
  continues h0 h -> valid_in h0 v -> keys_old h0 memo ->
  (length h0 - size memo < depth)%nat ->
  injective_memo memo ->
  (forall l l', memo !! l = Some l' -> (l' < length h)%nat) ->
  exists memo' h',
    deepcopy_memo depth memo v h = (Ok (memo', rename memo' v), h')
    ∧ continues h h'
    ∧ memo ⊆ memo' ∧ keys_old h0 memo' ∧ injective_memo memo'
    ∧ (forall l l', memo' !! l = Some l' -> (l' < length h')%nat)
    ∧ covered memo' v
    ∧ copied memo memo' h h'.
Proof.
  assert (Htriv : forall memo v v' h,
    v' = rename memo v ->
    covered memo v -> keys_old h0 memo -> injective_memo memo ->
    (forall l l', memo !! l = Some l' -> (l' < length h)%nat) ->
    exists memo' h',
      ret (memo, v') h = (Ok (memo', rename memo' v), h')
      ∧ continues h h'
      ∧ memo ⊆ memo' ∧ keys_old h0 memo' ∧ injective_memo memo'
      ∧ (forall l l', memo' !! l = Some l' -> (l' < length h')%nat)
      ∧ covered memo' v
      ∧ copied memo memo' h h').
  { intros memo v v' h -> Hc Hk Hinj Hb. exists memo, h.
    split; [done|]. split; [exists []; by rewrite app_nil_r|].
    split; [done|]. split; [done|]. split; [done|]. split; [done|].
    split; [done|]. apply copied_refl. }
  induction depth as [|depth IH]; intros memo v h Hh Hv Hk Hd Hinj Hb.
  { destruct v as [a|l]; cbn [deepcopy_memo]; [by apply Htriv|].
    destruct (memo !! l) as [l'|] eqn:Hl.
    - apply Htriv; try done; simpl; by rewrite Hl.
    - exfalso. simpl in Hv.
      assert (Hk' : keys_old h0 (<[l := 0%nat]> memo)).
      { intros l1 l1'. rewrite lookup_insert. case_decide; [by intros; subst|]. apply Hk. }
      apply keys_old_size in Hk'. rewrite map_size_insert_None in Hk' by done. lia. }
  destruct v as [a|l]; cbn [deepcopy_memo]; [by apply Htriv|].
  destruct (memo !! l) as [l'|] eqn:Hl.
  { apply Htriv; try done; simpl; by rewrite Hl. }
  simpl in Hv.
  assert (Hkl : keys_old h0 (<[l := length h]> memo)).
  { intros l1 l1'. rewrite lookup_insert. case_decide; [by intros; subst|]. apply Hk. }
  assert (Hsz : (S (size memo) <= length h0)%nat).
  { apply keys_old_size in Hkl. by rewrite map_size_insert_None in Hkl by done. }
  unfold bind at 1. unfold load at 1.
  destruct Hh as [c0 Hc0].
  assert (Hlook : h !! l = h0 !! l) by (subst h; by apply lookup_app_l).
  rewrite Hlook.
  destruct (h0 !! l) as [o|] eqn:Ho; [|by apply lookup_ge_None in Ho; lia].
  set (l' := length h). set (memo1 := <[l := l']> memo).
  assert (Hsub1 : memo ⊆ memo1) by (by apply insert_subseteq).
  assert (Hinj1 : injective_memo memo1) by (by apply injective_insert_fresh).
  destruct o as [d|items].
  - (* a dictionary *)
    unfold bind at 1. unfold alloc at 1. fold l'.
    set (h1 := h ++ [ODict ∅]).
    set (I := fun (pre : list (string * oval)) (memo_i : gmap nat nat)
                  (h_i : list pyobj) =>
      (exists c, h_i = h ++ ODict (rename memo_i <$> list_to_map pre) :: c)
      ∧ memo1 ⊆ memo_i ∧ keys_old h0 memo_i ∧ injective_memo memo_i
      ∧ (forall l1 l1', memo_i !! l1 = Some l1' -> (l1' < length h_i)%nat)
      ∧ Forall (covered memo_i) pre.*2
      ∧ copied memo1 memo_i h1 h_i).
    destruct (fold_each_prefix
      (fun memo0 '(k, x) =>
         do (memo1, x') <- deepcopy_memo depth memo0 x;
         dict_setitem (ORef l') k x' ;; ret memo1) I (map_to_list d))
      with (b := memo1) (h := h1) as (memo' & h' & Hrun & HI).
    + intros pre [k x] post memo_i h_i Hitems
        ([c Hc] & Hsub & Hki & Hinji & Hbi & Hcov & Hcop).
      assert (Hvx : valid_in h0 x).
      { eapply children_valid; [exact Ho|]. simpl. rewrite Hitems.
        rewrite fmap_app, fmap_cons. apply elem_of_app. right. by left. }
      destruct (IH memo_i x h_i)
        as (memo2 & h2 & Hcopy & [c2 Hc2] & Hsub2 & Hk2 & Hinj2 & Hb2 & Hcov2 & Hcop2);
        [ | done | done | | done | done | ].
      { exists (c0 ++ ODict (rename memo_i <$> list_to_map pre) :: c).
        rewrite Hc, Hc0. by rewrite <- app_assoc. }
      { apply map_subseteq_size in Hsub. unfold memo1 in Hsub.
        rewrite map_size_insert_None in Hsub by done.
        pose proof (keys_old_size memo_i Hki). lia. }
      unfold bind at 1. rewrite Hcopy.
      assert (Hcell : h2 !! l' = Some (ODict (rename memo_i <$> list_to_map pre))).
      { rewrite Hc2, Hc, <- app_assoc. simpl. apply lookup_middle_cell. }
      unfold bind at 1. unfold dict_setitem, load_dict, bind, load.
      rewrite Hcell. simpl. unfold store.
      rewrite decide_True by (by eapply lookup_lt_Some). simpl.
      set (h3 := <[l' := ODict (<[k := rename memo2 x]>
                                  (rename memo_i <$> list_to_map pre))]> h2).
      assert (Hlen3 : length h3 = length h2) by apply length_insert.
      assert (Hk_fresh : k ∉ pre.*1).
      { pose proof (NoDup_fst_map_to_list d) as Hnd. rewrite Hitems in Hnd.
        rewrite fmap_app, fmap_cons in Hnd. apply NoDup_app in Hnd as (_ & Hnd & _).
        intros Hin. apply (Hnd k Hin). by left. }
      exists memo2, h3. split; [done|]. unfold I.
      split; [|split; [|split; [|split; [|split; [|split]]]]].
      * exists (c ++ c2). unfold h3, l'. rewrite Hc2, Hc, <- app_assoc. simpl.
        rewrite insert_middle_cell. do 3 f_equal.
        rewrite list_to_map_snoc by done. rewrite fmap_insert. f_equal.
        apply map_fmap_ext. intros k1 x1 Hk1. apply rename_mono; [done|].
        rewrite Forall_forall in Hcov. apply Hcov.
        apply list_elem_of_fmap. exists (k1, x1). split; [done|].
        by apply elem_of_list_to_map_2.
      * by etrans.
      * done.
      * done.
      * intros l1 l1' H1. rewrite Hlen3. by eapply Hb2.
      * rewrite fmap_app. apply Forall_app. split.
        -- eapply Forall_impl; [exact Hcov|]. intros y. by apply covered_mono.
        -- simpl. by constructor.
      * intros l1 l1' H1 H1none. rewrite Hlen3.
        destruct (memo_i !! l1) as [v|] eqn:Hi.
        -- assert (v = l1') as ->.
           { pose proof (lookup_weaken _ _ _ _ Hi Hsub2). congruence. }
           destruct (Hcop l1 l1' Hi H1none) as (Hrange & o & Ho1 & Hcell1 & Hcov1).
           split.
           { rewrite Hc2, length_app. lia. }
           exists o. split; [done|]. split.
           ++ unfold h3. rewrite list_lookup_insert_ne.
              2:{ unfold h1 in Hrange. rewrite length_app in Hrange. simpl in Hrange.
                  unfold l'. lia. }
              rewrite Hc2. rewrite lookup_app_l by lia. rewrite Hcell1.
              f_equal. by apply rename_obj_mono.
           ++ eapply Forall_impl; [exact Hcov1|]. intros y. by apply covered_mono.
        -- destruct (Hcop2 l1 l1' H1 Hi) as (Hrange & o & Ho1 & Hcell1 & Hcov1).
           split.
           { unfold h1. rewrite length_app. simpl.
             rewrite Hc, length_app in Hrange. simpl in Hrange. lia. }
           exists o. split; [done|]. split; [|done].
           unfold h3. rewrite list_lookup_insert_ne; [done|].
           rewrite Hc, length_app in Hrange. simpl in Hrange. unfold l'. lia.
    + unfold I. split; [|split; [|split; [|split; [|split; [|split]]]]].
      * exists []. simpl. by rewrite fmap_empty.
      * done.
      * done.
      * done.
      * intros l1 l1'. unfold memo1, h1. rewrite lookup_insert, length_app. simpl.
        case_decide; [intros [= <-]; unfold l'; lia|]. intros H1. apply Hb in H1. lia.
      * constructor.
      * apply copied_refl.
    + destruct HI as ([c Hc] & Hsub & Hk' & Hinj' & Hb' & Hcov & Hcop).
      unfold bind at 1. fold h1. fold memo1. rewrite Hrun. simpl.
      assert (Hl' : memo' !! l = Some l').
      { eapply lookup_weaken; [|exact Hsub]. apply lookup_insert_eq. }
      exists memo', h'. rewrite Hl'. simpl.
      split; [done|]. split; [by eexists|]. split; [by etrans|].
      split; [done|]. split; [done|]. split; [done|]. split; [eauto|].
      intros l1 l1' H1 H1none.
      destruct (decide (l1 = l)) as [->|Hne].
      * assert (l1' = l') as -> by congruence. split.
        { rewrite Hc, length_app. simpl. unfold l'. lia. }
        exists (ODict d). split; [done|]. split; [|done].
        rewrite Hc. unfold l'. rewrite lookup_middle_cell. simpl.
        by rewrite list_to_map_to_list.
      * destruct (Hcop l1 l1' H1) as (Hrange & o & Ho1 & Hcell1 & Hcov1).
        { unfold memo1. by rewrite lookup_insert_ne. }
        split.
        { unfold h1 in Hrange. rewrite length_app in Hrange. simpl in Hrange. lia. }
        by exists o.
  - (* a list *)
    unfold bind at 1. unfold alloc at 1. fold l'.
    set (h1 := h ++ [OList []]).
    set (I := fun (pre : list oval) (memo_i : gmap nat nat)
                  (h_i : list pyobj) =>
      (exists c, h_i = h ++ OList (rename memo_i <$> pre) :: c)
      ∧ memo1 ⊆ memo_i ∧ keys_old h0 memo_i ∧ injective_memo memo_i
      ∧ (forall l1 l1', memo_i !! l1 = Some l1' -> (l1' < length h_i)%nat)
      ∧ Forall (covered memo_i) pre
      ∧ copied memo1 memo_i h1 h_i).
    destruct (fold_each_prefix
      (fun memo0 x =>
         do (memo1, x') <- deepcopy_memo depth memo0 x;
         do (_, copied) <- load_list (ORef l');
         store l' (OList (copied ++ [x'])) ;; ret memo1) I items)
      with (b := memo1) (h := h1) as (memo' & h' & Hrun & HI).
    + intros pre x post memo_i h_i Hitems
        ([c Hc] & Hsub & Hki & Hinji & Hbi & Hcov & Hcop).
      assert (Hvx : valid_in h0 x).
      { eapply children_valid; [exact Ho|]. simpl. rewrite Hitems.
        apply elem_of_app. right. by left. }
      destruct (IH memo_i x h_i)
        as (memo2 & h2 & Hcopy & [c2 Hc2] & Hsub2 & Hk2 & Hinj2 & Hb2 & Hcov2 & Hcop2);
        [ | done | done | | done | done | ].
      { exists (c0 ++ OList (rename memo_i <$> pre) :: c).
        rewrite Hc, Hc0. by rewrite <- app_assoc. }
      { apply map_subseteq_size in Hsub. unfold memo1 in Hsub.
        rewrite map_size_insert_None in Hsub by done.
        pose proof (keys_old_size memo_i Hki). lia. }
      unfold bind at 1. rewrite Hcopy.
      assert (Hcell : h2 !! l' = Some (OList (rename memo_i <$> pre))).
      { rewrite Hc2, Hc, <- app_assoc. simpl. apply lookup_middle_cell. }
      unfold bind at 1. unfold load_list, bind, load.
      rewrite Hcell. simpl. unfold store.
      rewrite decide_True by (by eapply lookup_lt_Some). simpl.
      set (h3 := <[l' := OList ((rename memo_i <$> pre) ++ [rename memo2 x])]> h2).
      assert (Hlen3 : length h3 = length h2) by apply length_insert.
      exists memo2, h3. split; [done|]. unfold I.
      split; [|split; [|split; [|split; [|split; [|split]]]]].
      * exists (c ++ c2). unfold h3, l'. rewrite Hc2, Hc, <- app_assoc. simpl.
        rewrite insert_middle_cell. do 3 f_equal.
        rewrite fmap_app. simpl. f_equal.
        apply list_fmap_ext. intros i x1 Hi. apply rename_mono; [done|].
        rewrite Forall_forall in Hcov. apply Hcov. by eapply list_elem_of_lookup_2.
      * by etrans.
      * done.
      * done.
      * intros l1 l1' H1. rewrite Hlen3. by eapply Hb2.
      * apply Forall_app. split.
        -- eapply Forall_impl; [exact Hcov|]. intros y. by apply covered_mono.
        -- by constructor.
      * intros l1 l1' H1 H1none. rewrite Hlen3.
        destruct (memo_i !! l1) as [v|] eqn:Hi.
        -- assert (v = l1') as ->.
           { pose proof (lookup_weaken _ _ _ _ Hi Hsub2). congruence. }
           destruct (Hcop l1 l1' Hi H1none) as (Hrange & o & Ho1 & Hcell1 & Hcov1).
           split.
           { rewrite Hc2, length_app. lia. }
           exists o. split; [done|]. split.
           ++ unfold h3. rewrite list_lookup_insert_ne.
              2:{ unfold h1 in Hrange. rewrite length_app in Hrange. simpl in Hrange.
                  unfold l'. lia. }
              rewrite Hc2. rewrite lookup_app_l by lia. rewrite Hcell1.
              f_equal. by apply rename_obj_mono.
           ++ eapply Forall_impl; [exact Hcov1|]. intros y. by apply covered_mono.
        -- destruct (Hcop2 l1 l1' H1 Hi) as (Hrange & o & Ho1 & Hcell1 & Hcov1).
           split.
           { unfold h1. rewrite length_app. simpl.
             rewrite Hc, length_app in Hrange. simpl in Hrange. lia. }
           exists o. split; [done|]. split; [|done].
           unfold h3. rewrite list_lookup_insert_ne; [done|].
           rewrite Hc, length_app in Hrange. simpl in Hrange. unfold l'. lia.
    + unfold I. split; [|split; [|split; [|split; [|split; [|split]]]]].
      * by exists [].
      * done.
      * done.
      * done.
      * intros l1 l1'. unfold memo1, h1. rewrite lookup_insert, length_app. simpl.
        case_decide; [intros [= <-]; unfold l'; lia|]. intros H1. apply Hb in H1. lia.
      * constructor.
      * apply copied_refl.
    + destruct HI as ([c Hc] & Hsub & Hk' & Hinj' & Hb' & Hcov & Hcop).
      unfold bind at 1. fold h1. fold memo1. rewrite Hrun. simpl.
      assert (Hl' : memo' !! l = Some l').
      { eapply lookup_weaken; [|exact Hsub]. apply lookup_insert_eq. }
      exists memo', h'. rewrite Hl'. simpl.
      split; [done|]. split; [by eexists|]. split; [by etrans|].
      split; [done|]. split; [done|]. split; [done|]. split; [eauto|].
      intros l1 l1' H1 H1none.
      destruct (decide (l1 = l)) as [->|Hne].
      * assert (l1' = l') as -> by congruence. split.
        { rewrite Hc, length_app. simpl. unfold l'. lia. }
        exists (OList items). split; [done|]. split; [|done].
        rewrite Hc. unfold l'. by rewrite lookup_middle_cell.
      * destruct (Hcop l1 l1' H1) as (Hrange & o & Ho1 & Hcell1 & Hcov1).
        { unfold memo1. by rewrite lookup_insert_ne. }
        split.
        { unfold h1 in Hrange. rewrite length_app in Hrange. simpl in Hrange. lia. }
        by exists o.
Qed.

End DeepcopyCopies.

(** [copy.deepcopy(v)] returns on every store without dangling references
    (the bound on the nesting of its calls is never reached), and what it
    returns is a copy: [memo] maps each object it met to a new object that
    holds the same atoms and the copies of the same objects, and the
    objects of the store at the call are left as they were.  [h0] is any
    earlier state of the store that [v] refers into. *)
Lemma deepcopy_copies (h0 h : list pyobj) (v : oval) :
  closed h0 -> continues h0 h -> valid_in h0 v ->
  exists memo h',
    deepcopy v h = (Ok (rename memo v), h')
    ∧ continues h h'
    ∧ injective_memo memo
    ∧ covered memo v
    ∧ copied h0 ∅ memo h h'.
Proof.
  intros Hclosed Hh Hv. unfold deepcopy, bind, store_size.
  destruct (deepcopy_memo_copies h0 Hclosed (S (length h)) ∅ v h)
    as (memo' & h' & Hrun & Hh' & _ & _ & Hinj & _ & Hcov & Hcop).
  - done.
  - done.
  - intros l l'. by rewrite lookup_empty.
  - rewrite map_size_empty. destruct Hh as [c ->]. rewrite length_app. lia.
  - intros l1 l2 l'. by rewrite lookup_empty.
  - intros l l'. by rewrite lookup_empty.
  - rewrite Hrun. simpl. by exists memo', h'.
Qed.

(** ** The object store: summaries laid out in it *)

Lemma as_int_cell (b : gmap string Z) : omap as_int (OAtom ∘ PInt <$> b) = b.
Proof.
  apply map_eq. intros k. rewrite lookup_omap, lookup_fmap.
  by destruct (b !! k).
Qed.

Lemma read_bucket_cell h lb b :
  h !! lb = Some (bucket_cell b) -> read_bucket h lb = b.
Proof. intros H. unfold read_bucket. rewrite H. apply as_int_cell. Qed.

Lemma read_bucket_agree h h' lb :
  h' !! lb = h !! lb -> read_bucket h' lb = read_bucket h lb.
Proof. intros H. unfold read_bucket. by rewrite H. Qed.

Lemma read_dates_agree h h' (lbs : gmap string nat) :
  (forall d lb, lbs !! d = Some lb -> h' !! lb = h !! lb) ->
  read_dates h' lbs = read_dates h lbs.
Proof.
  intros H. unfold read_dates. apply map_fmap_ext. intros d lb Hd.
  apply read_bucket_agree. by eapply H.
Qed.

Lemma read_summary_agree h h' (ents : gmap string (nat * gmap string nat)) :
  (forall e ld lbs d lb, ents !! e = Some (ld, lbs) -> lbs !! d = Some lb ->
     h' !! lb = h !! lb) ->
  read_summary h' ents = read_summary h ents.
Proof.
  intros H. unfold read_summary. apply map_fmap_ext. intros e [ld lbs] He.
  simpl. apply read_dates_agree. intros d lb Hd. by eapply H.
Qed.

Lemma read_summary_lookup h ents e :
  read_summary h ents !! e = (fun p => read_dates h p.2) <$> ents !! e.
Proof. unfold read_summary. by rewrite lookup_fmap. Qed.

(** Changing objects that play no part, growing the store, or changing the
    objects to avoid to others that play no part, leaves a laid summary
    laid. *)
Lemma laid_agree avoid avoid' h h' root ents :
  laid avoid h root ents ->
  (length h <= length h')%nat ->
  (forall r l, plays root ents r l -> h' !! l = h !! l) ->
  (forall r l, plays root ents r l -> ¬ avoid' l) ->
  (forall l, avoid' l -> (l < length h')%nat) ->
  laid avoid' h' root ents.
Proof.
  intros (Hroot & Hdates & Hbuckets & Hsep & Hbound & Havoid)
    Hlen Hagree Hnot Havoid'.
  split; [|split; [|split; [|split; [|split]]]].
  - rewrite (Hagree RoleRoot root) by done. done.
  - intros e ld lbs He. rewrite (Hagree (RoleDates e) ld) by (by exists lbs).
    by eapply Hdates.
  - intros e ld lbs d lb He Hd.
    rewrite (Hagree (RoleBucket e d) lb) by (by exists ld, lbs).
    by eapply Hbuckets.
  - done.
  - intros r l Hr. destruct (Hbound r l Hr). split; [lia | by eapply Hnot].
  - done.
Qed.

(** *** Statements on known objects *)

Lemma bind_ok {A B} (m : M A) (f : A -> M B) h a h1 :
  m h = (Ok a, h1) -> bind m f h = f a h1.
Proof. intros H. unfold bind. by rewrite H. Qed.

Lemma load_dict_cell h l d :
  h !! l = Some (ODict d) -> load_dict (ORef l) h = (Ok (l, d), h).
Proof. intros H. unfold load_dict, bind, load. by rewrite H. Qed.

Lemma load_list_cell h l items :
  h !! l = Some (OList items) -> load_list (ORef l) h = (Ok (l, items), h).
Proof. intros H. unfold load_list, bind, load. by rewrite H. Qed.

Lemma dict_getitem_cell h l d k x :
  h !! l = Some (ODict d) -> d !! k = Some x ->
  dict_getitem (ORef l) k h = (Ok x, h).
Proof.
  intros H Hk. unfold dict_getitem.
  rewrite (bind_ok _ _ _ _ _ (load_dict_cell h l d H)). by rewrite Hk.
Qed.

Lemma dict_setitem_cell h l d k x :
  h !! l = Some (ODict d) ->
  dict_setitem (ORef l) k x h = (Ok tt, <[l := ODict (<[k := x]> d)]> h).
Proof.
  intros H. unfold dict_setitem.
  rewrite (bind_ok _ _ _ _ _ (load_dict_cell h l d H)).
  unfold store. by rewrite decide_True by (by eapply lookup_lt_Some).
Qed.

Lemma dict_delitem_cell h l d k :
  h !! l = Some (ODict d) -> is_Some (d !! k) ->
  dict_delitem (ORef l) k h = (Ok tt, <[l := ODict (delete k d)]> h).
Proof.
  intros H [x Hk]. unfold dict_delitem.
  rewrite (bind_ok _ _ _ _ _ (load_dict_cell h l d H)). rewrite Hk.
  unfold store. by rewrite decide_True by (by eapply lookup_lt_Some).
Qed.

Section LaidSummary.
Variable avoid : nat -> Prop.

(** [new_summary[canonical_name] = {}] (line 159) *)
Lemma laid_new_entity h root ents c :
  laid avoid h root ents -> ents !! c = None ->
  let ents' := <[c := (length h, ∅)]> ents in
  let h' := <[root := root_cell ents']> (h ++ [ODict ∅]) in
  laid avoid h' root ents'
  ∧ read_summary h' ents' = <[c := ∅]> (read_summary h ents).
Proof.
  intros (Hroot & Hdates & Hbuckets & Hsep & Hbound & Havoid) Hc ents' h'.
  assert (Hrootlt : (root < length h)%nat) by (by eapply lookup_lt_Some).
  assert (Hother : forall l, (l < length h)%nat -> l ≠ root -> h' !! l = h !! l).
  { intros l Hl Hne. unfold h'.
    rewrite list_lookup_insert_ne by done. by rewrite lookup_app_l. }
  assert (Hplays : forall r l, plays root ents' r l ->
            plays root ents r l ∨ (r = RoleDates c ∧ l = length h)).
  { intros [|e|e d] l; simpl; [by left| |].
    - intros [lbs He]. unfold ents' in He.
      destruct (decide (e = c)) as [->|Hne].
      + rewrite lookup_insert_eq in He. injection He as <- <-. by right.
      + rewrite lookup_insert_ne in He by done. left. by exists lbs.
    - intros (ld & lbs & He & Hd). unfold ents' in He.
      destruct (decide (e = c)) as [->|Hne].
      + rewrite lookup_insert_eq in He. injection He as <- <-. done.
      + rewrite lookup_insert_ne in He by done. left. by exists ld, lbs. }
  assert (Hlen : length h' = S (length h)).
  { unfold h'. rewrite length_insert, length_app. simpl. lia. }
  split.
  - split; [|split; [|split; [|split; [|split]]]].
    + unfold h'. rewrite list_lookup_insert_eq; [done|].
      rewrite length_app. lia.
    + intros e ld lbs He.
      destruct (Hplays (RoleDates e) ld) as [[lbs' He']|[_ ->]];
        [by exists lbs| |].
      * assert (e ≠ c) by (intros ->; congruence).
        unfold ents' in He. rewrite lookup_insert_ne in He by done.
        rewrite Hother; [by eapply Hdates| |].
        -- apply (Hbound (RoleDates e)). by exists lbs.
        -- intros ->. assert (RoleDates e = RoleRoot); [|done].
           eapply Hsep; [by exists lbs | done].
      * assert (e = c) as ->.
        { destruct (decide (e = c)); [done|].
          unfold ents' in He. rewrite lookup_insert_ne in He by done.
          destruct (Hbound (RoleDates e) (length h)); [by exists lbs | lia]. }
        unfold ents' in He. rewrite lookup_insert_eq in He.
        injection He as <-. unfold h'.
        rewrite list_lookup_insert_ne by lia.
        rewrite lookup_app_r by lia. rewrite Nat.sub_diag. simpl.
        unfold dates_cell. by rewrite fmap_empty.
    + intros e ld lbs d lb He Hd.
      destruct (Hplays (RoleBucket e d) lb) as [Hold|[? _]];
        [by exists ld, lbs| |done].
      destruct Hold as (ld' & lbs' & He' & Hd').
      rewrite Hother; [by eapply Hbuckets| |].
      * apply (Hbound (RoleBucket e d)). by exists ld', lbs'.
      * intros ->. assert (RoleBucket e d = RoleRoot); [|done].
        eapply Hsep; [by exists ld', lbs' | done].
    + intros r1 r2 l H1 H2.
      destruct (Hplays r1 l H1) as [H1'|[-> Hl1]],
        (Hplays r2 l H2) as [H2'|[-> Hl2]]; [by eapply Hsep| | |done].
      * destruct (Hbound r1 l H1'). lia.
      * destruct (Hbound r2 l H2'). lia.
    + intros r l Hr. rewrite Hlen.
      destruct (Hplays r l Hr) as [Hr'|[-> ->]].
      * destruct (Hbound r l Hr'). split; [lia|done].
      * split; [lia|]. intros Hav. apply Havoid in Hav. lia.
    + intros l Hl. rewrite Hlen. apply Havoid in Hl. lia.
  - unfold read_summary, ents'. rewrite fmap_insert. simpl.
    unfold read_dates at 1. rewrite fmap_empty. f_equal.
    apply map_fmap_ext. intros e [ld lbs] He. simpl.
    apply read_dates_agree. intros d lb Hd. apply Hother.
    + apply (Hbound (RoleBucket e d)). by exists ld, lbs.
    + intros ->. assert (RoleBucket e d = RoleRoot); [|done].
      eapply Hsep; [by exists ld, lbs | done].
Qed.

(** [new_summary[canonical_name][date_key] = {label: 0, ...}]
    (lines 166-168) *)
Lemma laid_new_bucket h root ents c ld lbs d b0 :
  laid avoid h root ents -> ents !! c = Some (ld, lbs) -> lbs !! d = None ->
  let lbs' := <[d := length h]> lbs in
  let ents' := <[c := (ld, lbs')]> ents in
  let h' := <[ld := dates_cell lbs']> (h ++ [bucket_cell b0]) in
  laid avoid h' root ents'
  ∧ read_summary h' ents'
    = <[c := <[d := b0]> (read_dates h lbs)]> (read_summary h ents).
Proof.
  intros (Hroot & Hdates & Hbuckets & Hsep & Hbound & Havoid) Hc Hd
    lbs' ents' h'.
  assert (Hldlt : (ld < length h)%nat).
  { apply (Hbound (RoleDates c)). by exists lbs. }
  assert (Hother : forall l, (l < length h)%nat -> l ≠ ld -> h' !! l = h !! l).
  { intros l Hl Hne. unfold h'.
    rewrite list_lookup_insert_ne by done. by rewrite lookup_app_l. }
  assert (Hold : forall r l, plays root ents r l -> r ≠ RoleDates c ->
            h' !! l = h !! l).
  { intros r l Hr Hne. apply Hother; [by apply (Hbound r)|].
    intros ->. apply Hne. eapply Hsep; [exact Hr | by exists lbs]. }
  assert (Hplays : forall r l, plays root ents' r l ->
            plays root ents r l ∨ (r = RoleBucket c d ∧ l = length h)).
  { intros [|e|e d'] l; simpl; [by left| |].
    - intros [lbs0 He]. unfold ents' in He. left.
      destruct (decide (e = c)) as [->|Hne].
      + rewrite lookup_insert_eq in He. injection He as <- <-. by exists lbs.
      + rewrite lookup_insert_ne in He by done. by exists lbs0.
    - intros (ld0 & lbs0 & He & Hd'). unfold ents' in He.
      destruct (decide (e = c)) as [->|Hne].
      + rewrite lookup_insert_eq in He. injection He as <- <-.
        unfold lbs' in Hd'. destruct (decide (d' = d)) as [->|Hned].
        * rewrite lookup_insert_eq in Hd'. injection Hd' as <-. by right.
        * rewrite lookup_insert_ne in Hd' by done. left. by exists ld, lbs.
      + rewrite lookup_insert_ne in He by done. left. by exists ld0, lbs0. }
  assert (Hlen : length h' = S (length h)).
  { unfold h'. rewrite length_insert, length_app. simpl. lia. }
  assert (Hnew : h' !! length h = Some (bucket_cell b0)).
  { unfold h'. rewrite list_lookup_insert_ne by lia.
    rewrite lookup_app_r by lia. by rewrite Nat.sub_diag. }
  assert (Hfresh : forall r, ¬ plays root ents r (length h)).
  { intros r Hr. destruct (Hbound r _ Hr). lia. }
  split.
  - split; [|split; [|split; [|split; [|split]]]].
    + rewrite (Hold RoleRoot) by done. rewrite Hroot. f_equal.
      unfold root_cell, ents'. rewrite fmap_insert. simpl.
      f_equal. symmetry. apply insert_id. by rewrite lookup_fmap, Hc.
    + intros e ld0 lbs0 He. unfold ents' in He.
      destruct (decide (e = c)) as [->|Hne].
      * rewrite lookup_insert_eq in He. injection He as <- <-.
        unfold h'. rewrite list_lookup_insert_eq; [done|].
        rewrite length_app. lia.
      * rewrite lookup_insert_ne in He by done.
        rewrite (Hold (RoleDates e)); [by eapply Hdates|by exists lbs0|].
        congruence.
    + intros e ld0 lbs0 d' lb He Hd'.
      destruct (Hplays (RoleBucket e d') lb) as [Hr|[_ ->]];
        [by exists ld0, lbs0| |by eauto].
      rewrite (Hold _ _ Hr) by done.
      destruct Hr as (ld1 & lbs1 & He1 & Hd1). by eapply Hbuckets.
    + intros r1 r2 l H1 H2.
      destruct (Hplays r1 l H1) as [H1'|[-> Hl1]],
        (Hplays r2 l H2) as [H2'|[-> Hl2]]; [by eapply Hsep| | |done].
      * subst l. by destruct (Hfresh r1).
      * subst l. by destruct (Hfresh r2).
    + intros r l Hr. rewrite Hlen.
      destruct (Hplays r l Hr) as [Hr'|[-> ->]].
      * destruct (Hbound r l Hr'). split; [lia|done].
      * split; [lia|]. intros Hav. apply Havoid in Hav. lia.
    + intros l Hl. rewrite Hlen. apply Havoid in Hl. lia.
  - unfold read_summary, ents'. rewrite fmap_insert. simpl. f_equal.
    + unfold read_dates, lbs'. rewrite fmap_insert. f_equal.
      * by apply read_bucket_cell.
      * apply map_fmap_ext. intros d' lb Hd'. apply read_bucket_agree.
        apply (Hold (RoleBucket c d')); [by exists ld, lbs | done].
    + apply map_fmap_ext. intros e [ld0 lbs0] He. simpl.
      apply read_dates_agree. intros d' lb Hd'.
      apply (Hold (RoleBucket e d')); [by exists ld0, lbs0 | done].
Qed.

(** [del new_summary[alias]] (line 172) *)
Lemma laid_delete_entity h root ents a :
  laid avoid h root ents ->
  let ents' := delete a ents in
  let h' := <[root := root_cell ents']> h in
  laid avoid h' root ents'
  ∧ read_summary h' ents' = delete a (read_summary h ents).
Proof.
  intros (Hroot & Hdates & Hbuckets & Hsep & Hbound & Havoid) ents' h'.
  assert (Hrootlt : (root < length h)%nat) by (by eapply lookup_lt_Some).
  assert (Hold : forall r l, plays root ents r l -> r ≠ RoleRoot ->
            h' !! l = h !! l).
  { intros r l Hr Hne. unfold h'. apply list_lookup_insert_ne.
    intros <-. apply Hne. by eapply Hsep. }
  assert (Hplays : forall r l, plays root ents' r l -> plays root ents r l).
  { intros [|e|e d] l; simpl; [done| |].
    - intros [lbs [_ He]%lookup_delete_Some]. by exists lbs.
    - intros (ld & lbs & [_ He]%lookup_delete_Some & Hd). by exists ld, lbs. }
  assert (Hlen : length h' = length h) by apply length_insert.
  split.
  - split; [|split; [|split; [|split; [|split]]]].
    + unfold h'. by rewrite list_lookup_insert_eq.
    + intros e ld lbs He.
      rewrite (Hold (RoleDates e)); [|apply Hplays; by exists lbs|done].
      apply lookup_delete_Some in He as [_ He]. by eapply Hdates.
    + intros e ld lbs d lb He Hd.
      rewrite (Hold (RoleBucket e d));
        [|apply Hplays; by exists ld, lbs|done].
      apply lookup_delete_Some in He as [_ He]. by eapply Hbuckets.
    + intros r1 r2 l H1 H2. eapply Hsep; by apply Hplays.
    + intros r l Hr. rewrite Hlen. by apply (Hbound r), Hplays.
    + intros l Hl. rewrite Hlen. by apply Havoid.
  - unfold read_summary, ents'. rewrite <- fmap_delete.
    apply map_fmap_ext. intros e [ld lbs] He. simpl.
    apply lookup_delete_Some in He as [_ He].
    apply read_dates_agree. intros d lb Hd.
    apply (Hold (RoleBucket e d)); [by exists ld, lbs | done].
Qed.

(** Lines 170-171 on a laid summary. *)
Lemma add_count_store_spec h root ents c ld lbs d lb k v :
  laid avoid h root ents ->
  ents !! c = Some (ld, lbs) -> lbs !! d = Some lb ->
  exists h',
    (do canonical_dates <- dict_getitem (ORef root) c;
     do bucket <- dict_getitem canonical_dates d;
     do (_, labels) <- load_dict bucket;
     do total <- py_add (default (OAtom (PInt 0)) (labels !! k))
                   (OAtom (PInt v));
     dict_setitem bucket k total) h = (Ok tt, h')
    ∧ laid avoid h' root ents
    ∧ read_summary h' ents = add_count c d k v (read_summary h ents)
    ∧ length h' = length h
    ∧ (forall l, l ≠ lb -> h' !! l = h !! l).
Proof.
  intros Hlaid Hc Hd.
  pose proof Hlaid as (Hroot & Hdates & Hbuckets & Hsep & Hbound & Havoid).
  destruct (Hbuckets c ld lbs d lb Hc Hd) as [b Hb].
  set (z := default 0 (b !! k) + v).
  set (h' := <[lb := bucket_cell (<[k := z]> b)]> h).
  assert (Hother : forall l, l ≠ lb -> h' !! l = h !! l).
  { intros l Hl. unfold h'. by rewrite list_lookup_insert_ne. }
  assert (Hcell : h' !! lb = Some (bucket_cell (<[k := z]> b))).
  { unfold h'. rewrite list_lookup_insert_eq; [done|]. by eapply lookup_lt_Some. }
  assert (Hlen : length h' = length h) by apply length_insert.
  exists h'. split; [|split; [|split; [|split]]]; [| | |done|done].
  - erewrite bind_ok.
    2:{ eapply dict_getitem_cell; [exact Hroot|].
        rewrite lookup_fmap, Hc. done. }
    erewrite bind_ok.
    2:{ eapply dict_getitem_cell; [by eapply Hdates|].
        rewrite lookup_fmap, Hd. done. }
    erewrite bind_ok; [|by apply load_dict_cell].
    cbn beta iota. rewrite lookup_fmap.
    replace (default (OAtom (PInt 0)) ((OAtom ∘ PInt) <$> b !! k))
      with (OAtom (PInt (default 0 (b !! k)))) by (by destruct (b !! k)).
    simpl. unfold bind, ret. simpl.
    rewrite (dict_setitem_cell h lb _ k _ Hb).
    unfold h', bucket_cell. by rewrite fmap_insert.
  - assert (Hlb : forall r l, plays root ents r l -> r ≠ RoleBucket c d -> l ≠ lb).
    { intros r l Hr Hne ->. apply Hne. eapply Hsep; [exact Hr|].
      by exists ld, lbs. }
    split; [|split; [|split; [|split; [|split]]]].
    + rewrite Hother; [done|]. by apply (Hlb RoleRoot).
    + intros e ld' lbs' He. rewrite Hother; [by eapply Hdates|].
      apply (Hlb (RoleDates e)); [by exists lbs' | done].
    + intros e ld' lbs' d' lb' He Hd'.
      destruct (decide (lb' = lb)) as [->|Hne]; [eauto|].
      rewrite Hother by done. by eapply Hbuckets.
    + done.
    + intros r l Hr. rewrite Hlen. by apply (Hbound r).
    + intros l Hl. rewrite Hlen. by apply Havoid.
  - apply map_eq. intros e. unfold add_count.
    rewrite !read_summary_lookup.
    destruct (decide (e = c)) as [->|Hne].
    + rewrite lookup_insert_eq, Hc. simpl. f_equal.
      apply map_eq. intros d'. unfold read_dates at 1. rewrite lookup_fmap.
      destruct (decide (d' = d)) as [->|Hned].
      * rewrite lookup_insert_eq, Hd. simpl. f_equal.
        rewrite (read_bucket_cell h' lb _ Hcell).
        unfold read_dates. rewrite lookup_fmap, Hd. simpl.
        by rewrite (read_bucket_cell h lb b Hb).
      * rewrite lookup_insert_ne by done.
        unfold read_dates. rewrite lookup_fmap.
        destruct (lbs !! d') as [lb'|] eqn:Hd'; [|done]. simpl. f_equal.
        apply read_bucket_agree, Hother. intros ->.
        assert (RoleBucket c d' = RoleBucket c d) as [= ?]; [|done].
        eapply Hsep; by exists ld, lbs.
    + rewrite lookup_insert_ne by done. rewrite read_summary_lookup.
      destruct (ents !! e) as [[ld' lbs']|] eqn:He; [|done]. simpl. f_equal.
      apply read_dates_agree. intros d' lb' Hd'. apply Hother. intros ->.
      assert (RoleBucket e d' = RoleBucket c d) as [= ? ?]; [|done].
      eapply Hsep; [by exists ld', lbs' | by exists ld, lbs].
Qed.

(** The loop of lines 169-171. *)
Lemma add_counts_store_spec root ents c ld lbs d lb
    (items : list (string * Z)) h :
  laid avoid h root ents ->
  ents !! c = Some (ld, lbs) -> lbs !! d = Some lb ->
  exists h',
    for_each
      (fun '(sentiment, count) =>
         do canonical_dates <- dict_getitem (ORef root) c;
         do bucket <- dict_getitem canonical_dates d;
         do (_, labels) <- load_dict bucket;
         do total <- py_add (default (OAtom (PInt 0)) (labels !! sentiment))
                       count;
         dict_setitem bucket sentiment total)
      (prod_map id (OAtom ∘ PInt) <$> items) h = (Ok tt, h')
    ∧ laid avoid h' root ents
    ∧ read_summary h' ents
      = foldl (fun s '(k, v) => add_count c d k v s) (read_summary h ents)
          items
    ∧ length h' = length h
    ∧ (forall l, l ≠ lb -> h' !! l = h !! l).
Proof.
  intros Hlaid Hc Hd. revert h Hlaid.
  induction items as [|[k v] items IH]; intros h Hlaid.
  { exists h. simpl. unfold ret. by split_and!. }
  destruct (add_count_store_spec h root ents c ld lbs d lb k v Hlaid Hc Hd)
    as (h1 & Hrun1 & Hlaid1 & Hread1 & Hlen1 & Hframe1).
  destruct (IH h1 Hlaid1) as (h2 & Hrun2 & Hlaid2 & Hread2 & Hlen2 & Hframe2).
  exists h2. split; [|split; [|split; [|split]]].
  - cbn [fmap list_fmap for_each prod_map fst snd id compose].
    erewrite bind_ok; [|exact Hrun1]. exact Hrun2.
  - done.
  - rewrite Hread2, Hread1. done.
  - lia.
  - intros l Hl. rewrite Hframe2, Hframe1; done.
Qed.

End LaidSummary.

Section LaidMerge.
Variable tesa_id2label : gmap Z string.
Variable avoid : nat -> Prop.

Lemma ensure_bucket_read h ents c ld lbs d :
  ents !! c = Some (ld, lbs) -> is_Some (lbs !! d) ->
  ensure_bucket tesa_id2label c d (read_summary h ents) = read_summary h ents.
Proof.
  intros Hc [lb Hd]. unfold ensure_bucket.
  rewrite read_summary_lookup, Hc. simpl.
  unfold read_dates. by rewrite lookup_fmap, Hd.
Qed.

Lemma ensure_bucket_read_new h ents c ld lbs d :
  ents !! c = Some (ld, lbs) -> lbs !! d = None ->
  ensure_bucket tesa_id2label c d (read_summary h ents)
  = <[c := <[d := zero_bucket tesa_id2label]> (read_dates h lbs)]>
      (read_summary h ents).
Proof.
  intros Hc Hd. unfold ensure_bucket.
  rewrite read_summary_lookup, Hc. simpl.
  unfold read_dates. by rewrite lookup_fmap, Hd.
Qed.

(** Lines 165-171 on a laid summary, for the counts at [la]. *)
Lemma merge_date_store_spec h root ents c ld lbs d la counts :
  laid avoid h root ents ->
  ents !! c = Some (ld, lbs) ->
  h !! la = Some (bucket_cell counts) -> la ≠ ld ->
  exists h' lbs',
    merge_date_store tesa_id2label (ORef root) c (d, ORef la) h = (Ok tt, h')
    ∧ laid avoid h' root (<[c := (ld, lbs')]> ents)
    ∧ read_summary h' (<[c := (ld, lbs')]> ents)
      = merge_date tesa_id2label c (read_summary h ents) (d, counts)
    ∧ (length h <= length h')%nat
    ∧ (forall l, (l < length h)%nat -> ¬ canonical_part ld lbs l ->
         h' !! l = h !! l)
    ∧ (forall l, canonical_part ld lbs' l ->
         canonical_part ld lbs l ∨ (length h <= l)%nat).
Proof.
  intros Hlaid Hc Hla Hne.
  pose proof Hlaid as (Hroot & Hdates & Hbuckets & Hsep & Hbound & Havoid).
  (* the seeded layout *)
  assert (exists h1 lbs1 lb,
    (do canonical_dates <- dict_getitem (ORef root) c;
     do (_, dates) <- load_dict canonical_dates;
     match dates !! d with
     | Some _ => ret tt
     | None =>
         do bucket <- alloc (ODict (OAtom ∘ PInt <$> zero_bucket tesa_id2label));
         dict_setitem canonical_dates d (ORef bucket)
     end) h = (Ok tt, h1)
    ∧ laid avoid h1 root (<[c := (ld, lbs1)]> ents)
    ∧ lbs1 !! d = Some lb
    ∧ read_summary h1 (<[c := (ld, lbs1)]> ents)
      = ensure_bucket tesa_id2label c d (read_summary h ents)
    ∧ (length h <= length h1)%nat
    ∧ (forall l, (l < length h)%nat -> l ≠ ld -> h1 !! l = h !! l)
    ∧ (forall l, canonical_part ld lbs1 l ->
         canonical_part ld lbs l ∨ (length h <= l)%nat))
    as (h1 & lbs1 & lb & Hrun1 & Hlaid1 & Hd1 & Hread1 & Hlen1 & Hframe1 & Hpart1).
  { destruct (lbs !! d) as [lb|] eqn:Hd.
    - exists h, lbs, lb.
      rewrite (insert_id ents c) by done.
      split_and!; [|done|done| |done|done|by left].
      + erewrite bind_ok.
        2:{ eapply dict_getitem_cell; [exact Hroot|].
            by rewrite lookup_fmap, Hc. }
        erewrite bind_ok; [|apply load_dict_cell; by eapply Hdates].
        cbn beta iota. by rewrite lookup_fmap, Hd.
      + symmetry. by eapply ensure_bucket_read.
    - destruct (laid_new_bucket avoid h root ents c ld lbs d
                  (zero_bucket tesa_id2label) Hlaid Hc Hd) as [Hlaid1 Hread1].
      eexists _, (<[d := length h]> lbs), (length h).
      split_and!; [|exact Hlaid1|by rewrite lookup_insert_eq| | | |].
      + erewrite bind_ok.
        2:{ eapply dict_getitem_cell; [exact Hroot|].
            by rewrite lookup_fmap, Hc. }
        erewrite bind_ok; [|apply load_dict_cell; by eapply Hdates].
        cbn beta iota. rewrite lookup_fmap, Hd. simpl.
        erewrite bind_ok; [|reflexivity].
        erewrite dict_setitem_cell.
        2:{ rewrite lookup_app_l; [by eapply Hdates|].
            apply (Hbound (RoleDates c)). by exists lbs. }
        unfold dates_cell. by rewrite fmap_insert.
      + rewrite Hread1. symmetry. by eapply ensure_bucket_read_new.
      + rewrite length_insert, length_app. lia.
      + intros l Hl Hneq. rewrite list_lookup_insert_ne by done.
        by rewrite lookup_app_l.
      + intros l [->|[d' Hd']]; [left; by left|].
        destruct (decide (d' = d)) as [->|Hned].
        * rewrite lookup_insert_eq in Hd'. injection Hd' as <-. by right.
        * rewrite lookup_insert_ne in Hd' by done. left. right. by exists d'. }
  assert (Hc1 : <[c := (ld, lbs1)]> ents !! c = Some (ld, lbs1))
    by apply lookup_insert_eq.
  destruct (add_counts_store_spec avoid root _ c ld lbs1 d lb
              (map_to_list counts) h1 Hlaid1 Hc1 Hd1)
    as (h2 & Hrun2 & Hlaid2 & Hread2 & Hlen2 & Hframe2).
  assert (Hlalt : (la < length h)%nat) by (by eapply lookup_lt_Some).
  exists h2, lbs1. split_and!; [|done| |lia| |done].
  - unfold merge_date_store.
    erewrite bind_ok.
    2:{ eapply dict_getitem_cell; [exact Hroot|].
        by rewrite lookup_fmap, Hc. }
    erewrite bind_ok; [|apply load_dict_cell; by eapply Hdates].
    cbn beta iota.
    erewrite bind_ok.
    2:{ erewrite bind_ok in Hrun1.
        2:{ eapply dict_getitem_cell; [exact Hroot|].
            by rewrite lookup_fmap, Hc. }
        erewrite bind_ok in Hrun1; [|apply load_dict_cell; by eapply Hdates].
        exact Hrun1. }
    erewrite bind_ok.
    2:{ apply load_dict_cell. rewrite Hframe1 by done. exact Hla. }
    cbn beta iota. rewrite map_to_list_fmap. exact Hrun2.
  - rewrite Hread2, Hread1. done.
  - intros l Hl Hpart. rewrite Hframe2, Hframe1; [done|done| |].
    + intros ->. apply Hpart. by left.
    + intros ->. destruct (Hpart1 lb) as [?|?]; [right; by exists d|done|lia].
Qed.

(** The loop of lines 164-171 over the dates of an alias. *)
Lemma merge_dates_store_spec root c ld (items : list (string * nat)) :
  forall h ents lbs,
  laid avoid h root ents ->
  ents !! c = Some (ld, lbs) ->
  (forall d la, (d, la) ∈ items ->
     ¬ canonical_part ld lbs la ∧ exists b, h !! la = Some (bucket_cell b)) ->
  exists h' lbs',
    for_each (merge_date_store tesa_id2label (ORef root) c)
      (prod_map id ORef <$> items) h = (Ok tt, h')
    ∧ laid avoid h' root (<[c := (ld, lbs')]> ents)
    ∧ read_summary h' (<[c := (ld, lbs')]> ents)
      = foldl (merge_date tesa_id2label c) (read_summary h ents)
          (prod_map id (read_bucket h) <$> items)
    ∧ (length h <= length h')%nat
    ∧ (forall l, (l < length h)%nat -> ¬ canonical_part ld lbs l ->
         h' !! l = h !! l)
    ∧ (forall l, canonical_part ld lbs' l ->
         canonical_part ld lbs l ∨ (length h <= l)%nat).
Proof.
  induction items as [|[d la] items IH]; intros h ents lbs Hlaid Hc Hitems.
  { exists h, lbs. rewrite (insert_id ents c) by done. simpl. unfold ret.
    split_and!; try done. by left. }
  destruct (Hitems d la) as [Hpart [b Hla]]; [by left|].
  destruct (merge_date_store_spec h root ents c ld lbs d la b Hlaid Hc Hla)
    as (h1 & lbs1 & Hrun1 & Hlaid1 & Hread1 & Hlen1 & Hframe1 & Hpart1).
  { intros ->. apply Hpart. by left. }
  assert (Hitems_lt : forall d' la', (d', la') ∈ items ->
            (la' < length h)%nat ∧ ¬ canonical_part ld lbs la').
  { intros d' la' Hin. destruct (Hitems d' la') as [? [b' Hb']]; [by right|].
    split; [by eapply lookup_lt_Some | done]. }
  destruct (IH h1 (<[c := (ld, lbs1)]> ents) lbs1 Hlaid1)
    as (h2 & lbs2 & Hrun2 & Hlaid2 & Hread2 & Hlen2 & Hframe2 & Hpart2).
  { apply lookup_insert_eq. }
  { intros d' la' Hin. destruct (Hitems_lt d' la' Hin) as [Hlt Hnp].
    destruct (Hitems d' la') as [_ [b' Hb']]; [by right|]. split.
    - intros Hp. destruct (Hpart1 la' Hp); [done | lia].
    - exists b'. by rewrite Hframe1. }
  rewrite insert_insert_eq in Hlaid2, Hread2.
  exists h2, lbs2. split_and!; [|done| |lia| |].
  - cbn [fmap list_fmap for_each prod_map fst snd id].
    erewrite bind_ok; [|exact Hrun1]. exact Hrun2.
  - rewrite Hread2, Hread1. cbn [fmap list_fmap foldl prod_map fst snd id].
    rewrite (read_bucket_cell h la b Hla). f_equal.
    apply list_fmap_ext. intros i [d' la'] Hi. unfold prod_map. simpl. f_equal.
    apply list_elem_of_lookup_2 in Hi.
    destruct (Hitems_lt d' la' Hi). apply read_bucket_agree. by apply Hframe1.
  - intros l Hl Hnp. rewrite Hframe2, Hframe1; [done|done|done|lia|].
    intros Hp. destruct (Hpart1 l Hp); [done | lia].
  - intros l Hp. destruct (Hpart2 l Hp) as [Hp1|?]; [|right; lia].
    destruct (Hpart1 l Hp1); [by left | by right].
Qed.

(** Lines 161-174 on a laid summary. *)
Lemma merge_alias_store_spec h root ents c a :
  laid avoid h root ents -> is_Some (ents !! c) ->
  exists h' ents',
    merge_alias_store tesa_id2label (ORef root) c a h = (Ok tt, h')
    ∧ laid avoid h' root ents'
    ∧ is_Some (ents' !! c)
    ∧ read_summary h' ents'
      = merge_alias tesa_id2label c (read_summary h ents) a
    ∧ (length h <= length h')%nat
    ∧ (forall l, (l < length h)%nat ->
         (forall r, ¬ plays root ents r l) -> h' !! l = h !! l).
Proof.
  intros Hlaid [[ld lbs] Hc].
  pose proof Hlaid as (Hroot & Hdates & Hbuckets & Hsep & Hbound & Havoid).
  unfold merge_alias_store, merge_alias.
  destruct (decide (a = c)) as [->|Hne].
  { exists h, ents. unfold ret. by split_and!. }
  erewrite bind_ok; [|by apply load_dict_cell]. cbn beta iota.
  rewrite read_summary_lookup, lookup_fmap.
  destruct (ents !! a) as [[lda lbsa]|] eqn:Ha; simpl.
  2:{ exists h, ents. unfold ret. by split_and!. }
  erewrite bind_ok; [|apply load_dict_cell; by eapply Hdates]. cbn beta iota.
  destruct (merge_dates_store_spec root c ld (map_to_list lbsa) h ents lbs
              Hlaid Hc)
    as (h1 & lbs1 & Hrun1 & Hlaid1 & Hread1 & Hlen1 & Hframe1 & Hpart1).
  { intros d la Hd%elem_of_map_to_list. split.
    - intros [->|[d' Hd']].
      + assert (RoleBucket a d = RoleDates c); [|done].
        eapply Hsep; [by exists lda, lbsa | by exists lbs].
      + assert (RoleBucket a d = RoleBucket c d') as [= ? ?]; [|done].
        eapply Hsep; [by exists lda, lbsa | by exists ld, lbs].
    - by eapply Hbuckets. }
  destruct (laid_delete_entity avoid h1 root _ a Hlaid1) as [Hlaid2 Hread2].
  eexists _, _. split_and!; [| exact Hlaid2 | | | |].
  - rewrite map_to_list_fmap. erewrite bind_ok; [|exact Hrun1].
    erewrite dict_delitem_cell; [|apply Hlaid1|].
    + unfold root_cell. by rewrite fmap_delete.
    + rewrite lookup_fmap, lookup_insert_ne, Ha by done. by eexists.
  - rewrite lookup_delete_ne, lookup_insert_eq by done. by eexists.
  - rewrite Hread2, Hread1. f_equal. f_equal.
    unfold read_dates. by rewrite map_to_list_fmap.
  - by rewrite length_insert.
  - intros l Hl Hnp.
    assert (l ≠ root) by (intros ->; by apply (Hnp RoleRoot)).
    rewrite list_lookup_insert_ne by done. apply Hframe1; [done|].
    intros [->|[d Hd]].
    + apply (Hnp (RoleDates c)). by exists lbs.
    + apply (Hnp (RoleBucket c d)). by exists ld, lbs.
Qed.

(** Lines 158-159 on a laid summary. *)
Lemma seed_canonical_store_spec h root ents c :
  laid avoid h root ents ->
  exists h' ents',
    match (ORef ∘ fst <$> ents) !! c with
    | Some _ => ret tt
    | None =>
        do fresh <- alloc (ODict ∅);
        dict_setitem (ORef root) c (ORef fresh)
    end h = (Ok tt, h')
    ∧ laid avoid h' root ents'
    ∧ is_Some (ents' !! c)
    ∧ read_summary h' ents'
      = match read_summary h ents !! c with
        | Some _ => read_summary h ents
        | None => <[c := ∅]> (read_summary h ents)
        end
    ∧ (length h <= length h')%nat
    ∧ (forall l, avoid l -> h' !! l = h !! l).
Proof.
  intros Hlaid.
  pose proof Hlaid as (Hroot & Hdates & Hbuckets & Hsep & Hbound & Havoid).
  rewrite read_summary_lookup, lookup_fmap.
  destruct (ents !! c) as [p|] eqn:Hc; simpl.
  { exists h, ents. unfold ret. rewrite Hc. by split_and!. }
  destruct (laid_new_entity avoid h root ents c Hlaid Hc) as [Hlaid1 Hread1].
  eexists _, _. split_and!; [|exact Hlaid1| |exact Hread1| |].
  - erewrite bind_ok; [|reflexivity].
    erewrite dict_setitem_cell.
    2:{ rewrite lookup_app_l; [exact Hroot | by eapply lookup_lt_Some]. }
    unfold root_cell. by rewrite fmap_insert.
  - rewrite lookup_insert_eq. by eexists.
  - rewrite length_insert, length_app. lia.
  - intros l Hl.
    assert (l ≠ root) by (intros ->; by apply (Hbound RoleRoot root)).
    rewrite list_lookup_insert_ne by done.
    rewrite lookup_app_l; [done | by apply Havoid].
Qed.

(** The loop of lines 160-174. *)
Lemma merge_aliases_store_spec root c aliases :
  forall h ents,
  laid avoid h root ents -> is_Some (ents !! c) ->
  exists h' ents',
    for_each (merge_alias_store tesa_id2label (ORef root) c) aliases h
      = (Ok tt, h')
    ∧ laid avoid h' root ents'
    ∧ read_summary h' ents'
      = foldl (merge_alias tesa_id2label c) (read_summary h ents) aliases
    ∧ (length h <= length h')%nat
    ∧ (forall l, avoid l -> h' !! l = h !! l).
Proof.
  induction aliases as [|a aliases IH]; intros h ents Hlaid Hc.
  { exists h, ents. simpl. unfold ret. by split_and!. }
  destruct (merge_alias_store_spec h root ents c a Hlaid Hc)
    as (h1 & ents1 & Hrun1 & Hlaid1 & Hc1 & Hread1 & Hlen1 & Hframe1).
  destruct (IH h1 ents1 Hlaid1 Hc1)
    as (h2 & ents2 & Hrun2 & Hlaid2 & Hread2 & Hlen2 & Hframe2).
  exists h2, ents2. split_and!; [|done| |lia|].
  - cbn [for_each]. erewrite bind_ok; [|exact Hrun1]. exact Hrun2.
  - rewrite Hread2, Hread1. done.
  - intros l Hl. rewrite Hframe2 by done. apply Hframe1.
    + by apply Hlaid.
    + intros r Hr. by apply (proj1 (proj2 (proj2 (proj2 (proj2 Hlaid)))) r l).
Qed.

End LaidMerge.

(** *** A mention list laid out in the store *)

Lemma read_record_cell h l m :
  h !! l = Some (record_cell m) -> read_record h l = m.
Proof.
  intros H. unfold read_record. rewrite H. unfold record_cell.
  apply map_eq. intros k.
  rewrite lookup_omap, lookup_fmap. by destruct (m !! k).
Qed.

Lemma rewrite_mention_idemp aliases c m :
  rewrite_mention aliases c (rewrite_mention aliases c m)
  = rewrite_mention aliases c m.
Proof.
  assert (Hstep : forall m', rewrite_mention aliases c m'
            = if py_in (py_get m' "entity") aliases
              then <["entity" := PStr c]> m' else m') by done.
  rewrite (Hstep m).
  destruct (py_in (py_get m "entity") aliases) eqn:Hin.
  - clear Hin. rewrite Hstep. destruct (py_in _ aliases); [|done].
    by rewrite insert_insert_eq.
  - by rewrite Hstep, Hin.
Qed.

Section LaidMentions.
Variables (aliases : list string) (c : string).

(** Lines 176-177 on a record. *)
Lemma rewrite_mention_store_spec h l m :
  h !! l = Some (record_cell m) ->
  rewrite_mention_store aliases c (ORef l) h
  = (Ok tt, <[l := record_cell (rewrite_mention aliases c m)]> h).
Proof.
  intros Hl. unfold rewrite_mention_store.
  erewrite bind_ok; [|by apply load_dict_cell]. cbn beta iota.
  rewrite lookup_fmap.
  replace (default (OAtom PNone) (OAtom <$> m !! "entity"))
    with (OAtom (py_get m "entity"))
    by (unfold py_get; by destruct (m !! "entity")).
  unfold rewrite_mention. simpl.
  destruct (py_in (py_get m "entity") aliases).
  - erewrite dict_setitem_cell; [|exact Hl].
    unfold record_cell. by rewrite fmap_insert.
  - unfold ret. by rewrite list_insert_id.
Qed.

(** The loop of lines 175-177. *)
Lemma rewrite_mentions_store_spec (items : list nat) :
  forall h,
  (forall l, l ∈ items -> exists m, h !! l = Some (record_cell m)) ->
  exists h',
    for_each (rewrite_mention_store aliases c) (ORef <$> items) h = (Ok tt, h')
    ∧ length h' = length h
    ∧ (forall l, l ∉ items -> h' !! l = h !! l)
    ∧ (forall l m, l ∈ items -> h !! l = Some (record_cell m) ->
         h' !! l = Some (record_cell (rewrite_mention aliases c m))).
Proof.
  induction items as [|l0 items IH]; intros h Hitems.
  { exists h. simpl. unfold ret. split_and!; [done|done|done|].
    intros l m Hl. by apply elem_of_nil in Hl. }
  destruct (Hitems l0) as [m0 Hl0]; [by left|].
  pose proof (rewrite_mention_store_spec h l0 m0 Hl0) as Hrun1.
  set (h1 := <[l0 := record_cell (rewrite_mention aliases c m0)]> h) in *.
  assert (Hl0lt : (l0 < length h)%nat) by (by eapply lookup_lt_Some).
  assert (Hh1 : forall l m, h !! l = Some (record_cell m) ->
            h1 !! l = Some (record_cell
              (if decide (l = l0) then rewrite_mention aliases c m else m))).
  { intros l m Hl. unfold h1. destruct (decide (l = l0)) as [->|Hne].
    - rewrite list_lookup_insert_eq by done.
      rewrite <- (read_record_cell h l0 m Hl), (read_record_cell h l0 m0 Hl0).
      done.
    - by rewrite list_lookup_insert_ne. }
  destruct (IH h1) as (h2 & Hrun2 & Hlen2 & Hframe2 & Hcells2).
  { intros l Hl. destruct (Hitems l) as [m Hm]; [by right|].
    eexists. by apply Hh1. }
  exists h2. split_and!.
  - cbn [fmap list_fmap for_each]. erewrite bind_ok; [|exact Hrun1]. exact Hrun2.
  - rewrite Hlen2. apply length_insert.
  - intros l Hl. apply not_elem_of_cons in Hl as [Hne Hl].
    rewrite Hframe2 by done. unfold h1. by rewrite list_lookup_insert_ne.
  - intros l m Hl Hm. destruct (decide (l ∈ items)) as [Hin|Hnin].
    + rewrite (Hcells2 l _ Hin (Hh1 l m Hm)).
      destruct (decide (l = l0)); [|done]. by rewrite rewrite_mention_idemp.
    + apply elem_of_cons in Hl as [->|?]; [|done].
      rewrite Hframe2 by done. rewrite (Hh1 l0 m Hm).
      by destruct (decide (l0 = l0)).
Qed.

End LaidMentions.

(** *** Layouts and [copy.deepcopy] *)

Lemma child_of_dict (d : gmap string oval) k v :
  d !! k = Some v -> v ∈ children (ODict d).
Proof.
  intros H. simpl. apply list_elem_of_fmap. exists (k, v).
  split; [done|]. by apply elem_of_map_to_list.
Qed.

Section LayoutCopies.
Variables (h0 h h' : list pyobj) (memo : gmap nat nat).
Hypothesis Hcopied : copied h0 ∅ memo h h'.
Hypothesis Hinj : injective_memo memo.

Lemma copied_cell l :
  covered memo (ORef l) ->
  exists l' o, memo !! l = Some l' ∧ copy_of memo l = l'
    ∧ (length h <= l' < length h')%nat
    ∧ h0 !! l = Some o ∧ h' !! l' = Some (rename_obj memo o)
    ∧ Forall (covered memo) (children o).
Proof.
  intros [l' Hl]. destruct (Hcopied l l' Hl) as (Hrange & o & Ho & Ho' & Hch).
  { apply lookup_empty. }
  exists l', o. unfold copy_of. rewrite Hl. simpl. split_and!; try done; lia.
Qed.

Lemma copied_child l d k l1 :
  covered memo (ORef l) -> h0 !! l = Some (ODict d) -> d !! k = Some (ORef l1) ->
  covered memo (ORef l1).
Proof.
  intros Hcov Hl Hk.
  destruct (copied_cell l Hcov) as (l' & o & _ & _ & _ & Ho & _ & Hch).
  assert (o = ODict d) as -> by congruence.
  rewrite Forall_forall in Hch. apply Hch. by eapply child_of_dict.
Qed.

Lemma laid_copied avoid root ents :
  laid avoid h0 root ents -> covered memo (ORef root) ->
  laid (fun l => (l < length h)%nat) h' (copy_of memo root)
    (copy_of_layout memo ents)
  ∧ read_summary h' (copy_of_layout memo ents) = read_summary h0 ents.
Proof.
  intros (Hroot & Hdates & Hbuckets & Hsep & Hbound & Havoid) Hcov.
  assert (Hcovd : forall e ld lbs, ents !! e = Some (ld, lbs) ->
            covered memo (ORef ld)).
  { intros e ld lbs He. eapply (copied_child root _ e); [done|exact Hroot|].
    by rewrite lookup_fmap, He. }
  assert (Hcovb : forall e ld lbs d lb, ents !! e = Some (ld, lbs) ->
            lbs !! d = Some lb -> covered memo (ORef lb)).
  { intros e ld lbs d lb He Hd.
    eapply (copied_child ld _ d); [by eapply Hcovd|by eapply Hdates|].
    by rewrite lookup_fmap, Hd. }
  assert (Hcovr : forall r l, plays root ents r l -> covered memo (ORef l)).
  { intros [|e|e d] l; simpl.
    - by intros ->.
    - intros [lbs He]. by eapply Hcovd.
    - intros (ld & lbs & He & Hd). by eapply Hcovb. }
  assert (Hplays : forall r l', plays (copy_of memo root)
            (copy_of_layout memo ents) r l' ->
            exists l, plays root ents r l ∧ copy_of memo l = l').
  { intros [|e|e d] l'; simpl.
    - intros ->. by exists root.
    - intros [lbs' He]. unfold copy_of_layout in He. rewrite lookup_fmap in He.
      destruct (ents !! e) as [[ld lbs]|] eqn:He0; [|done].
      injection He as <- <-. exists ld. split; [by exists lbs | done].
    - intros (ld' & lbs' & He & Hd). unfold copy_of_layout in He.
      rewrite lookup_fmap in He.
      destruct (ents !! e) as [[ld lbs]|] eqn:He0; [|done].
      injection He as <- <-. rewrite lookup_fmap in Hd.
      destruct (lbs !! d) as [lb|] eqn:Hd0; [|done]. injection Hd as <-.
      exists lb. split; [by exists ld, lbs | done]. }
  assert (Hbucket : forall e ld lbs d lb, ents !! e = Some (ld, lbs) ->
            lbs !! d = Some lb ->
            exists b, h0 !! lb = Some (bucket_cell b)
              ∧ h' !! copy_of memo lb = Some (bucket_cell b)).
  { intros e ld lbs d lb He Hd.
    destruct (Hbuckets e ld lbs d lb He Hd) as [b Hb]. exists b.
    split; [done|].
    destruct (copied_cell lb) as (l' & o & _ & -> & _ & Ho & Ho' & _);
      [by eapply Hcovb|].
    rewrite Ho'. assert (o = bucket_cell b) as -> by congruence.
    unfold bucket_cell. simpl. f_equal. f_equal.
    rewrite <- map_fmap_compose. by apply map_fmap_ext. }
  split.
  - split; [|split; [|split; [|split; [|split]]]].
    + destruct (copied_cell root Hcov) as (l' & o & _ & -> & _ & Ho & Ho' & _).
      rewrite Ho'. assert (o = root_cell ents) as -> by congruence.
      unfold root_cell, copy_of_layout. simpl. f_equal. f_equal.
      rewrite <- !map_fmap_compose. by apply map_fmap_ext.
    + intros e ld' lbs' He. unfold copy_of_layout in He.
      rewrite lookup_fmap in He.
      destruct (ents !! e) as [[ld lbs]|] eqn:He0; [|done].
      injection He as <- <-.
      destruct (copied_cell ld) as (l' & o & _ & -> & _ & Ho & Ho' & _);
        [by eapply Hcovd|].
      rewrite Ho'. assert (o = dates_cell lbs) as ->.
      { pose proof (Hdates e ld lbs He0). congruence. }
      unfold dates_cell. simpl. f_equal. f_equal.
      rewrite <- !map_fmap_compose. by apply map_fmap_ext.
    + intros e ld' lbs' d lb' He Hd. unfold copy_of_layout in He.
      rewrite lookup_fmap in He.
      destruct (ents !! e) as [[ld lbs]|] eqn:He0; [|done].
      injection He as <- <-. rewrite lookup_fmap in Hd.
      destruct (lbs !! d) as [lb|] eqn:Hd0; [|done]. injection Hd as <-.
      destruct (Hbucket e ld lbs d lb He0 Hd0) as (b & _ & Hb). by exists b.
    + intros r1 r2 l' H1 H2.
      destruct (Hplays r1 l' H1) as (l1 & Hr1 & Hl1).
      destruct (Hplays r2 l' H2) as (l2 & Hr2 & Hl2).
      destruct (copied_cell l1) as (? & _ & Hm1 & E1 & _); [by eapply Hcovr|].
      destruct (copied_cell l2) as (? & _ & Hm2 & E2 & _); [by eapply Hcovr|].
      assert (l1 = l2) as ->.
      { eapply Hinj; [exact Hm1|]. rewrite Hm2. f_equal. congruence. }
      by eapply Hsep.
    + intros r l' Hr. destruct (Hplays r l' Hr) as (l & Hrl & <-).
      destruct (copied_cell l) as (? & _ & _ & -> & ? & _); [by eapply Hcovr|].
      lia.
    + intros l Hl.
      destruct (copied_cell root Hcov) as (? & _ & _ & _ & ? & _). lia.
  - unfold read_summary, copy_of_layout. rewrite <- map_fmap_compose.
    apply map_fmap_ext. intros e [ld lbs] He. simpl.
    unfold read_dates. rewrite <- map_fmap_compose.
    apply map_fmap_ext. intros d lb Hd. simpl.
    destruct (Hbucket e ld lbs d lb He Hd) as (b & Hb & Hb').
    by rewrite (read_bucket_cell _ _ _ Hb), (read_bucket_cell _ _ _ Hb').
Qed.

Lemma mentions_copied lm locs :
  mentions_at h0 lm locs -> covered memo (ORef lm) ->
  mentions_at h' (copy_of memo lm) (copy_of memo <$> locs)
  ∧ read_mentions h' (copy_of memo <$> locs) = read_mentions h0 locs
  ∧ (length h <= copy_of memo lm < length h')%nat
  ∧ (forall l, l ∈ copy_of memo <$> locs -> (length h <= l < length h')%nat).
Proof.
  intros [Hlm Hlocs] Hcov.
  destruct (copied_cell lm Hcov) as (lm' & o & _ & -> & Hrange & Ho & Ho' & Hch).
  assert (o = OList (ORef <$> locs)) as -> by congruence.
  assert (Hrec : forall l, l ∈ locs ->
            exists m, h0 !! l = Some (record_cell m)
              ∧ h' !! copy_of memo l = Some (record_cell m)
              ∧ (length h <= copy_of memo l < length h')%nat).
  { intros l Hl. destruct (Hlocs l Hl) as [m Hm]. exists m.
    destruct (copied_cell l) as (l' & o & _ & -> & ? & Hol & Hol' & _).
    { rewrite Forall_forall in Hch. apply Hch. simpl.
      apply list_elem_of_fmap. by exists l. }
    split_and!; [done| |lia|lia].
    rewrite Hol'. assert (o = record_cell m) as -> by congruence.
    unfold record_cell. simpl. f_equal. f_equal.
    rewrite <- map_fmap_compose. by apply map_fmap_ext. }
  split; [split|split; [|split; [lia|]]].
  - rewrite Ho'. simpl. f_equal. f_equal.
    rewrite <- !list_fmap_compose. by apply list_fmap_ext.
  - intros l' (l & -> & Hl)%list_elem_of_fmap.
    destruct (Hrec l Hl) as (m & _ & Hm & _). by exists m.
  - unfold read_mentions. rewrite <- list_fmap_compose.
    apply list_fmap_ext. intros i l Hi. simpl.
    destruct (Hrec l) as (m & Hm & Hm' & _); [by eapply list_elem_of_lookup_2|].
    by rewrite (read_record_cell _ _ _ Hm), (read_record_cell _ _ _ Hm').
  - intros l' (l & -> & Hl)%list_elem_of_fmap.
    destruct (Hrec l Hl) as (m & _ & _ & ?). done.
Qed.

End LayoutCopies.

(** *** The store model computes what the value model does *)

Section StoreRefinesValues.
Variable tesa_id2label : gmap Z string.

Lemma mentions_at_list_not_record h lm locs :
  mentions_at h lm locs -> lm ∉ locs.
Proof.
  intros [Hlm Hlocs] Hin. destruct (Hlocs lm Hin) as [m Hm].
  rewrite Hlm in Hm. done.
Qed.

(** On a store that holds the summary as a tree (no dictionary shared
    between two places) and the mention list as a list of records,
    [reaggregate_with_aliases] on the store returns references to a summary
    and a mention list that hold what [reaggregate_with_aliases] on values
    computes from the contents of the arguments; the returned summary is
    laid out as a tree again. *)
Theorem reaggregate_store_refines_values h root ents lm locs aliases C :
  closed h ->
  laid (fun _ => False) h root ents ->
  mentions_at h lm locs ->
  exists h' root' ents' lm' locs',
    reaggregate_with_aliases_store tesa_id2label (ORef root) (ORef lm)
      aliases C h = (Ok (ORef root', ORef lm'), h')
    ∧ laid (fun _ => False) h' root' ents'
    ∧ mentions_at h' lm' locs'
    ∧ (read_summary h' ents', read_mentions h' locs')
      = reaggregate_with_aliases tesa_id2label
          (read_summary h ents) (read_mentions h locs) aliases C.
Proof.
  intros Hclosed Hlaid Hment.
  unfold reaggregate_with_aliases_store, reaggregate_with_aliases.
  destruct (negb (str_truthy (strip C))).
  { exists h, root, ents, lm, locs. by split_and!. }
  assert (Hrootlt : (root < length h)%nat).
  { eapply lookup_lt_Some. exact (proj1 Hlaid). }
  assert (Hlmlt : (lm < length h)%nat).
  { eapply lookup_lt_Some. exact (proj1 Hment). }
  destruct (deepcopy_copies h h (ORef root))
    as (memo1 & h1 & Hrun1 & Hcont1 & Hinj1 & Hcov1 & Hcop1);
    [done | by exists []; rewrite app_nil_r | done |].
  destruct (deepcopy_copies h h1 (ORef lm))
    as (memo2 & h2 & Hrun2 & Hcont2 & Hinj2 & Hcov2 & Hcop2); [done..|].
  destruct (laid_copied h h h1 memo1 Hcop1 Hinj1 _ root ents Hlaid Hcov1)
    as [Hlaid1 Hread1].
  destruct (mentions_copied h h1 h2 memo2 Hcop2 lm locs Hment Hcov2)
    as (Hment2 & Hreadm2 & Hlm2 & Hlocs2).
  set (root1 := copy_of memo1 root) in *.
  set (ents1 := copy_of_layout memo1 ents) in *.
  set (lm2 := copy_of memo2 lm) in *.
  set (locs2 := copy_of memo2 <$> locs) in *.
  set (avoid := fun l => (length h1 <= l < length h2)%nat).
  assert (Hh12 : forall l, (l < length h1)%nat -> h2 !! l = h1 !! l).
  { intros l Hl. destruct Hcont2 as [created ->]. by apply lookup_app_l. }
  assert (Hlen12 : (length h1 <= length h2)%nat).
  { destruct Hcont2 as [created ->]. rewrite length_app. lia. }
  assert (Hlaid2 : laid avoid h2 root1 ents1).
  { eapply laid_agree; [exact Hlaid1|done| | |].
    - intros r l Hr. apply Hh12. by apply Hlaid1 in Hr as [? _].
    - intros r l Hr. apply Hlaid1 in Hr as [? _]. unfold avoid. lia.
    - intros l Hl. unfold avoid in Hl. lia. }
  assert (Hread2 : read_summary h2 ents1 = read_summary h ents).
  { rewrite <- Hread1. apply read_summary_agree.
    intros e ld lbs d lb He Hd. apply Hh12.
    apply (proj1 (proj2 (proj2 (proj2 (proj2 Hlaid1)))) (RoleBucket e d)).
    by exists ld, lbs. }
  destruct (seed_canonical_store_spec avoid h2 root1 ents1 C Hlaid2)
    as (h3 & ents3 & Hrun3 & Hlaid3 & Hc3 & Hread3 & Hlen3 & Hframe3).
  destruct (merge_aliases_store_spec tesa_id2label avoid root1 C aliases
              h3 ents3 Hlaid3 Hc3)
    as (h4 & ents4 & Hrun4 & Hlaid4 & Hread4 & Hlen4 & Hframe4).
  assert (Hkeep : forall l, avoid l -> h4 !! l = h2 !! l).
  { intros l Hl. rewrite Hframe4, Hframe3; done. }
  destruct (rewrite_mentions_store_spec aliases C locs2 h4)
    as (h5 & Hrun5 & Hlen5 & Hframe5 & Hcells5).
  { intros l Hl. rewrite Hkeep by (by apply Hlocs2).
    by apply Hment2. }
  exists h5, root1, ents4, lm2, locs2. split_and!.
  - erewrite bind_ok; [|exact Hrun1].
    erewrite bind_ok; [|exact Hrun2].
    erewrite bind_ok; [|apply load_dict_cell, Hlaid2]. cbn beta iota.
    erewrite bind_ok; [|exact Hrun3].
    erewrite bind_ok; [|exact Hrun4].
    erewrite bind_ok.
    2:{ apply load_list_cell. rewrite Hkeep by done. apply Hment2. }
    cbn beta iota. erewrite bind_ok; [|exact Hrun5]. done.
  - eapply laid_agree; [exact Hlaid4|lia| |by intros ? ? ? []|by intros ? []].
    intros r l Hr. apply Hframe5. intros Hin%Hlocs2.
    by apply Hlaid4 in Hr as [_ ?].
  - split.
    + rewrite Hframe5 by (by eapply mentions_at_list_not_record).
      rewrite Hkeep by done. apply Hment2.
    + intros l Hl. destruct (proj2 Hment2 l Hl) as [m Hm].
      eexists. apply Hcells5; [done|]. rewrite Hkeep by (by apply Hlocs2).
      exact Hm.
  - f_equal.
    + rewrite <- Hread2, <- Hread3, <- Hread4. apply read_summary_agree.
      intros e ld lbs d lb He Hd. apply Hframe5. intros Hin%Hlocs2.
      destruct (proj1 (proj2 (proj2 (proj2 (proj2 Hlaid4))))
                  (RoleBucket e d) lb) as [_ Hnot]; [by exists ld, lbs|].
      by apply Hnot.
    + rewrite <- Hreadm2. unfold read_mentions.
      rewrite <- list_fmap_compose. apply list_fmap_ext. intros i l Hi. simpl.
      apply list_elem_of_lookup_2 in Hi.
      destruct (proj2 Hment2 l Hi) as [m Hm].
      rewrite (read_record_cell h2 l m Hm).
      apply read_record_cell, Hcells5; [done|].
      rewrite Hkeep by (by apply Hlocs2). exact Hm.
Qed.

End StoreRefinesValues.

Lemma closedb_closed h : closedb h = true -> closed h.
Proof.
  unfold closedb. rewrite forallb_forall. intros Hall l o l' Hl Hin.
  apply list_elem_of_lookup_2, list_elem_of_In in Hl.
  specialize (Hall o Hl). rewrite forallb_forall in Hall.
  apply list_elem_of_In in Hin. specialize (Hall _ Hin). simpl in Hall.
  by apply Nat.ltb_lt.
Qed.

Lemma example_layout_plays r l :
  plays 0 example_layout r l ->
  (r = RoleRoot ∧ l = 0%nat)
  ∨ (r = RoleDates "Ivanov I." ∧ l = 1%nat)
  ∨ (r = RoleBucket "Ivanov I." "2024-05-01" ∧ l = 2%nat).
Proof.
  unfold example_layout. destruct r as [|e|e d]; simpl.
  - by left.
  - intros [lbs [<- [= <- _]]%lookup_singleton_Some]. right. by left.
  - intros (ld & lbs & [<- [= _ <-]]%lookup_singleton_Some
            & [<- <-]%lookup_singleton_Some).
    right. by right.
Qed.

Lemma example_store_laid : laid (fun _ => False) example_store 0 example_layout.
Proof.
  split; [|split; [|split; [|split; [|split]]]].
  - done.
  - unfold example_layout.
    by intros e ld lbs [<- [= <- <-]]%lookup_singleton_Some.
  - unfold example_layout.
    intros e ld lbs d lb [<- [= <- <-]]%lookup_singleton_Some
      [<- <-]%lookup_singleton_Some. by eexists.
  - intros r1 r2 l H1 H2.
    destruct (example_layout_plays r1 l H1) as [[-> ->]|[[-> ->]|[-> ->]]],
      (example_layout_plays r2 _ H2) as [[-> ?]|[[-> ?]|[-> ?]]];
      done.
  - intros r l Hr. split; [|by intros []].
    destruct (example_layout_plays r l Hr) as [[_ ->]|[[_ ->]|[_ ->]]];
      simpl; lia.
  - by intros l [].
Qed.

Lemma example_store_mentions : mentions_at example_store 3 [4%nat].
Proof.
  split; [done|]. intros l ->%list_elem_of_singleton. by eexists.
Qed.

(** The refinement at the example: the call returns copies that hold what
    the value model computes, here the counts moved to ["Ivanov"]. *)
Example reaggregate_store_refines_values_example :
  exists h' root' ents' lm' locs',
    reaggregate_with_aliases_store default_tesa_id2label (ORef 0) (ORef 3)
      ["Ivanov I."] "Ivanov" example_store = (Ok (ORef root', ORef lm'), h')
    ∧ laid (fun _ => False) h' root' ents'
    ∧ mentions_at h' lm' locs'
    ∧ read_summary h' ents'
      = {[ "Ivanov" :=
             {[ "2024-05-01" :=
                  <["POS" := 2]> (zero_bucket default_tesa_id2label) ]} ]}
    ∧ read_mentions h' locs' = [ {[ "entity" := PStr "Ivanov" ]} ].
Proof.
  destruct (reaggregate_store_refines_values default_tesa_id2label
              example_store 0 example_layout 3 [4%nat] ["Ivanov I."] "Ivanov")
    as (h' & root' & ents' & lm' & locs' & Hrun & Hlaid & Hment & Hval).
  - by apply closedb_closed.
  - apply example_store_laid.
  - apply example_store_mentions.
  - exists h', root', ents', lm', locs'. split_and!; [done..| |].
    + apply (f_equal fst) in Hval. simpl in Hval. rewrite Hval.
      vm_compute. reflexivity.
    + apply (f_equal snd) in Hval. simpl in Hval. rewrite Hval.
      vm_compute. reflexivity.
Defined.

(** ** Aggregation: what the loops keep true *)

Section AggregateInvariants.
Variable tesa_id2label : gmap Z string.
Variable fromtimestamp : Z -> date_outcome.

(** A property that every counted opinion preserves holds of the result. *)
Lemma aggregate_opinions_invariant
    (I : gmap string (gmap string (gmap string Z)) * list (gmap string pyval)
         -> Prop) dk ts meta :
  (forall st op st', I st ->
     aggregate_opinion tesa_id2label dk ts meta st op = Some st' -> I st') ->
  forall ops st st', I st ->
    aggregate_opinions tesa_id2label dk ts meta st ops = Some st' -> I st'.
Proof.
  intros Hstep ops. induction ops as [|op ops IH]; simpl; intros st st' Hst H.
  - by inversion H; subst.
  - destruct (aggregate_opinion _ _ _ _ st op) as [st1|] eqn:H1; [|discriminate].
    eapply IH; [|exact H]. by eapply Hstep.
Qed.

Lemma aggregate_texts_invariant
    (I : gmap string (gmap string (gmap string Z)) * list (gmap string pyval)
         -> Prop) :
  (forall dk ts meta st op st',
     ts ≠ PNone -> date_key_of fromtimestamp ts = DateKey dk -> I st ->
     aggregate_opinion tesa_id2label dk ts meta st op = Some st' -> I st') ->
  forall metadata texts st i st', I st ->
    aggregate_texts tesa_id2label fromtimestamp metadata st i texts = Some st' ->
    I st'.
Proof.
  intros Hstep metadata texts.
  induction texts as [|ops texts IH]; simpl; intros st i st' Hst H.
  - by inversion H; subst.
  - destruct (aggregate_text _ _ _ st i ops) as [st1|] eqn:H1; [|discriminate].
    eapply IH; [|exact H]. clear H IH. unfold aggregate_text in H1.
    destruct (metadata !! i) as [meta|]; [|by inversion H1; subst].
    destruct (py_get meta "date_timestamp") as [|z|x] eqn:Hts;
      [by inversion H1; subst| |].
    + destruct (date_key_of fromtimestamp (PInt z)) as [dk| |] eqn:Hdk;
        [|by inversion H1; subst|discriminate].
      eapply aggregate_opinions_invariant; [|exact Hst|exact H1].
      intros st2 op st2' H2. by apply Hstep.
    + destruct (date_key_of fromtimestamp (PStr x)) as [dk| |] eqn:Hdk;
        [|by inversion H1; subst|discriminate].
      eapply aggregate_opinions_invariant; [|exact Hst|exact H1].
      intros st2 op st2' H2. by apply Hstep.
Qed.

(** A counted opinion: its entity and polarity are non-empty, and it adds
    one record and one count. *)
Lemma aggregate_opinion_counted dk ts meta s ms op st' :
  aggregate_opinion tesa_id2label dk ts meta (s, ms) op = Some st' ->
  st' = (s, ms)
  ∨ exists e p b',
      op !! "entity" = Some e ∧ e ≠ "" ∧ op !! "polarity" = Some p ∧ p ≠ ""
      ∧ count_polarity
          (default (zero_bucket tesa_id2label) (default ∅ (s !! e) !! dk)) p
        = Some b'
      ∧ st' = (<[e := <[dk := b']> (default ∅ (s !! e))]> s,
               ms ++ [mention_record e (op !! "entity_original") p dk ts meta]).
Proof.
  unfold aggregate_opinion.
  destruct (op !! "entity") as [e|]; [|intros [= <-]; by left].
  destruct (op !! "polarity") as [p|]; [|intros [= <-]; by left].
  destruct (negb (str_truthy e) || negb (str_truthy p)) eqn:Hempty;
    [intros [= <-]; by left|].
  apply orb_false_elim in Hempty as [He Hp].
  apply negb_false_iff in He, Hp. unfold str_truthy in He, Hp.
  apply negb_true_iff, bool_decide_eq_false in He, Hp.
  destruct (count_polarity _ p) as [b'|] eqn:Hb'; [|discriminate].
  intros [= <-]. right. exists e, p, b'. by split_and!.
Qed.

(** *** The keys of a bucket *)

Lemma zero_labels_lookup (labels : list string) : forall (d : gmap string Z) k,
  foldl (fun d label => <[label := 0]> d) d labels !! k
  = if decide (k ∈ labels) then Some 0 else d !! k.
Proof.
  induction labels as [|l labels IH]; intros d k; cbn [foldl].
  - case_decide as Hin; [by apply elem_of_nil in Hin | done].
  - rewrite IH. destruct (decide (k ∈ labels)) as [Hin|Hnin].
    + case_decide as Hin'; [done|]. destruct Hin'. by right.
    + destruct (decide (k = l)) as [->|Hne].
      * rewrite lookup_insert_eq. case_decide as Hin'; [done|].
        destruct Hin'. by left.
      * rewrite lookup_insert_ne by done. case_decide as Hin'; [|done].
        by apply elem_of_cons in Hin' as [?|?].
Qed.

Lemma zero_bucket_lookup k :
  zero_bucket tesa_id2label !! k
  = if decide (k = "UNKNOWN" ∨ k ∈ label_names tesa_id2label)
    then Some 0 else None.
Proof.
  unfold zero_bucket. destruct (decide (k = "UNKNOWN")) as [->|Hne].
  - rewrite lookup_insert_eq. rewrite decide_True; [done|]. by left.
  - rewrite lookup_insert_ne by done. rewrite zero_labels_lookup, lookup_empty.
    destruct (decide (k ∈ label_names tesa_id2label)).
    + rewrite decide_True; [done|]. by right.
    + rewrite decide_False; [done|]. tauto.
Qed.

Lemma zero_bucket_default k : default 0 (zero_bucket tesa_id2label !! k) = 0.
Proof. rewrite zero_bucket_lookup. by case_decide. Qed.

Lemma counted_under_key p :
  is_Some (zero_bucket tesa_id2label !! counted_under tesa_id2label p).
Proof.
  unfold counted_under. case_decide; [done|].
  rewrite zero_bucket_lookup. rewrite decide_True; [eauto | by left].
Qed.

(** Lines 109-112 on a bucket that has the keys of a new one. *)
Lemma count_polarity_slot (b : gmap string Z) p :
  (forall k, is_Some (b !! k) <-> is_Some (zero_bucket tesa_id2label !! k)) ->
  count_polarity b p
  = Some (<[counted_under tesa_id2label p :=
              default 0 (b !! counted_under tesa_id2label p) + 1]> b).
Proof.
  intros Hkeys. unfold count_polarity, counted_under.
  destruct (b !! p) as [n|] eqn:Hp.
  - rewrite decide_True by (apply Hkeys; by rewrite Hp). by rewrite Hp.
  - rewrite decide_False.
    2:{ intros H. apply Hkeys in H. rewrite Hp in H. by destruct H. }
    destruct (Hkeys "UNKNOWN") as [_ [u Hu]].
    { rewrite zero_bucket_lookup. rewrite decide_True; [eauto | by left]. }
    by rewrite Hu.
Qed.

Lemma count_at_insert s e dk b E D k :
  count_at (<[e := <[dk := b]> (default ∅ (s !! e))]> s) E D k
  = if decide (E = e ∧ D = dk) then default 0 (b !! k) else count_at s E D k.
Proof.
  unfold count_at. destruct (decide (E = e)) as [->|HE].
  - rewrite lookup_insert_eq. destruct (decide (D = dk)) as [->|HD].
    + rewrite lookup_insert_eq. by rewrite decide_True.
    + rewrite lookup_insert_ne by done. rewrite decide_False by tauto.
      by destruct (s !! e).
  - rewrite lookup_insert_ne by done. by rewrite decide_False by tauto.
Qed.

Lemma slot_count_snoc ms r E D k :
  slot_count tesa_id2label (ms ++ [r]) E D k
  = (slot_count tesa_id2label ms E D k
     + if decide (r !! "entity_normalized" = Some (PStr E)
                  ∧ r !! "date" = Some (PStr D)
                  ∧ mention_slot tesa_id2label r = Some k) then 1 else 0)%nat.
Proof.
  unfold slot_count. rewrite filter_app, length_app. f_equal.
  rewrite filter_cons, filter_nil. by case_decide.
Qed.

Lemma aggregate_opinion_labels dk ts meta st op st' :
  labels_agree tesa_id2label st ->
  aggregate_opinion tesa_id2label dk ts meta st op = Some st' ->
  labels_agree tesa_id2label st'.
Proof.
  destruct st as [s ms]. intros [Hkeys Hcount] Hop. simpl in Hkeys, Hcount.
  apply aggregate_opinion_counted in Hop
    as [->|(e & p & b' & _ & _ & _ & _ & Hb' & ->)]; [done|].
  set (dates := default ∅ (s !! e)) in *.
  set (bucket := default (zero_bucket tesa_id2label) (dates !! dk)) in *.
  assert (Hbucket : forall k, is_Some (bucket !! k)
            <-> is_Some (zero_bucket tesa_id2label !! k)).
  { unfold bucket, dates. destruct (s !! e) as [ds|] eqn:He; simpl.
    - destruct (ds !! dk) as [b|] eqn:Hd; simpl; [by eapply Hkeys | done].
    - by rewrite lookup_empty. }
  assert (Hold : forall k, default 0 (bucket !! k) = count_at s e dk k).
  { intros k. unfold bucket, dates, count_at.
    destruct (s !! e) as [ds|] eqn:He; simpl.
    - destruct (ds !! dk) as [b|] eqn:Hd; simpl; [done|].
      apply zero_bucket_default.
    - rewrite lookup_empty. simpl. apply zero_bucket_default. }
  rewrite (count_polarity_slot bucket p Hbucket) in Hb'.
  injection Hb' as <-. split; simpl.
  - intros E ds D b. rewrite lookup_insert. case_decide as HE.
    + intros [= <-]. rewrite lookup_insert. case_decide as HD.
      * intros [= <-] k. rewrite lookup_insert. case_decide as Hk.
        -- subst k. split; [intros _; apply counted_under_key | eauto].
        -- apply Hbucket.
      * subst E. unfold dates. destruct (s !! e) as [ds|] eqn:He; simpl.
        -- intros Hd. by eapply Hkeys.
        -- by rewrite lookup_empty.
    + intros HE' HD'. by eapply Hkeys.
  - intros E D k. unfold dates. rewrite count_at_insert, slot_count_snoc.
    assert (Hslot : mention_slot tesa_id2label
              (mention_record e (op !! "entity_original") p dk ts meta)
            = Some (counted_under tesa_id2label p)) by reflexivity.
    rewrite mention_record_entity, mention_record_date, Hslot.
    destruct (decide (E = e ∧ D = dk)) as [[-> ->]|Hne].
    + rewrite lookup_insert. case_decide as Hk.
      * subst k. rewrite decide_True by done. simpl.
        rewrite Hold, Hcount. lia.
      * rewrite decide_False by (intros (_ & _ & [= ?]); done).
        rewrite Hold, Hcount. lia.
    + rewrite decide_False; [rewrite Hcount; lia|].
      intros ([= ->] & [= ->] & _). tauto.
Qed.

Lemma aggregate_labels judgments metadata summary mentions :
  _aggregate_nlp_results tesa_id2label fromtimestamp judgments metadata
    = Some (summary, mentions) ->
  labels_agree tesa_id2label (summary, mentions).
Proof.
  intros Hrun.
  eapply (aggregate_texts_invariant (labels_agree tesa_id2label));
    [| |exact Hrun].
  - intros dk ts meta st op st' _ _. apply aggregate_opinion_labels.
  - split; simpl; [intros E ds D b; by rewrite lookup_empty|].
    intros E D k. reflexivity.
Qed.

(** *** Well-formed records and counted cells *)


Lemma sum_values_zero_bucket_0 : sum_values (zero_bucket tesa_id2label) = 0.
Proof.
  unfold sum_values. apply map_sum_zero.
  intros k x Hk. rewrite zero_bucket_lookup in Hk. by case_decide; simplify_eq.
Qed.

Lemma aggregate_opinion_cells dk ts meta st op st' :
  cells_counted st.1 ->
  aggregate_opinion tesa_id2label dk ts meta st op = Some st' ->
  cells_counted st'.1.
Proof.
  destruct st as [s ms]. intros Hcells Hop. simpl in Hcells.
  apply aggregate_opinion_counted in Hop
    as [->|(e & p & b' & _ & He & _ & _ & Hb' & ->)]; [done|].
  simpl. intros E ds. rewrite lookup_insert. case_decide as HE; [|apply Hcells].
  intros [= <-]. subst E. split; [done|]. split.
  { apply insert_non_empty. }
  intros D b. rewrite lookup_insert. case_decide as HD.
  - intros [= <-]. apply count_polarity_sum in Hb'. rewrite Hb'.
    destruct (s !! e) as [ds|] eqn:Hse; simpl.
    + destruct (ds !! dk) as [b|] eqn:Hd; simpl.
      * destruct (Hcells e ds Hse) as (_ & _ & Hb). specialize (Hb dk b Hd). lia.
      * rewrite sum_values_zero_bucket_0. lia.
    + rewrite lookup_empty. simpl. rewrite sum_values_zero_bucket_0. lia.
  - destruct (s !! e) as [ds|] eqn:Hse; simpl.
    + intros Hd. destruct (Hcells e ds Hse) as (_ & _ & Hb). by eapply Hb.
    + by rewrite lookup_empty.
Qed.

(** *** Texts and metadata without a partner *)

Lemma aggregate_texts_beyond metadata texts : forall st i,
  (length metadata <= i)%nat ->
  aggregate_texts tesa_id2label fromtimestamp metadata st i texts = Some st.
Proof.
  induction texts as [|ops texts IH]; intros st i Hi; simpl; [done|].
  unfold aggregate_text. rewrite lookup_ge_None_2 by done.
  apply IH. lia.
Qed.

Lemma aggregate_texts_app metadata texts1 texts2 : forall st i,
  aggregate_texts tesa_id2label fromtimestamp metadata st i (texts1 ++ texts2)
  = match aggregate_texts tesa_id2label fromtimestamp metadata st i texts1 with
    | Some st' =>
        aggregate_texts tesa_id2label fromtimestamp metadata st'
          (i + length texts1) texts2
    | None => None
    end.
Proof.
  induction texts1 as [|ops texts1 IH]; intros st i; simpl.
  - by rewrite Nat.add_0_r.
  - destruct (aggregate_text _ _ _ st i ops) as [st1|]; [|done].
    rewrite IH. by replace (S i + length texts1)%nat
                   with (i + S (length texts1))%nat by lia.
Qed.

Lemma aggregate_texts_take_metadata n metadata texts : forall st i,
  (i + length texts <= n)%nat ->
  aggregate_texts tesa_id2label fromtimestamp (take n metadata) st i texts
  = aggregate_texts tesa_id2label fromtimestamp metadata st i texts.
Proof.
  induction texts as [|ops texts IH]; intros st i Hi; simpl in *; [done|].
  unfold aggregate_text. rewrite lookup_take_lt by lia.
  destruct (match metadata !! i with Some _ => _ | None => _ end); [|done].
  apply IH. lia.
Qed.

End AggregateInvariants.

Lemma example_fromtimestamp_no_crash z : example_fromtimestamp z ≠ DateCrash.
Proof. unfold example_fromtimestamp. by repeat case_match. Qed.

Lemma example_aggregate_run :
  _aggregate_nlp_results default_tesa_id2label example_fromtimestamp
    example_judgments example_metadata
  = Some (example_summary, example_mentions).
Proof. vm_eval. Qed.

(** The aggregation returns for all inputs (no [KeyError] from the
    ["UNKNOWN"] counter, no index out of range), provided the date
    conversion raises nothing but the exceptions the code catches. *)
Theorem aggregate_nlp_results_returns
    (tesa_id2label : gmap Z string) (fromtimestamp : Z -> date_outcome)
    (judgments : list (list (gmap string string)))
    (metadata : list (gmap string pyval)) :
  (forall z, fromtimestamp z ≠ DateCrash) ->
  exists summary mentions,
    _aggregate_nlp_results tesa_id2label fromtimestamp judgments metadata
    = Some (summary, mentions).
Proof.
  intros Hts.
  destruct (aggregate_returns tesa_id2label fromtimestamp judgments metadata Hts)
    as [[summary mentions] Hrun].
  by exists summary, mentions.
Qed.

Lemma aggregate_nlp_results_returns_witness :
  exists summary mentions,
    _aggregate_nlp_results default_tesa_id2label example_fromtimestamp
      example_judgments (take 1 example_metadata)
    = Some (summary, mentions).
Proof.
  apply (aggregate_nlp_results_returns default_tesa_id2label
           example_fromtimestamp example_judgments (take 1 example_metadata)).
  intros z. unfold example_fromtimestamp. by repeat case_match.
Defined.

(** Texts without metadata and metadata without text are left out: the
    aggregation of two lists is that of both cut to the shorter length. *)
Theorem aggregate_unpaired_ignored
    (tesa_id2label : gmap Z string) (fromtimestamp : Z -> date_outcome)
    (judgments : list (list (gmap string string)))
    (metadata : list (gmap string pyval)) :
  let n := Nat.min (length judgments) (length metadata) in
  _aggregate_nlp_results tesa_id2label fromtimestamp
    (take n judgments) (take n metadata)
  = _aggregate_nlp_results tesa_id2label fromtimestamp judgments metadata.
Proof.
  intros n. unfold _aggregate_nlp_results.
  rewrite aggregate_texts_take_metadata
    by (rewrite length_take; simpl; lia).
  rewrite <- (take_drop n judgments) at 2.
  rewrite aggregate_texts_app.
  destruct (aggregate_texts _ _ metadata (∅, []) 0 (take n judgments))
    as [st'|]; [|done].
  destruct (decide (length judgments <= length metadata)%nat) as [Hle|Hgt].
  - rewrite drop_ge by (unfold n; lia). done.
  - symmetry. apply aggregate_texts_beyond.
    rewrite length_take. unfold n. lia.
Qed.

(** In the pair the aggregation returns, every bucket has the keys of a new
    bucket, the labels of the map and ["UNKNOWN"], and each count is the
    number of mention records of its entity and day counted under its key:
    those whose polarity is that key, and under ["UNKNOWN"] also those whose
    polarity is no key. *)
Theorem aggregate_counts_by_label
    (tesa_id2label : gmap Z string) (fromtimestamp : Z -> date_outcome)
    (judgments : list (list (gmap string string)))
    (metadata : list (gmap string pyval))
    (summary : gmap string (gmap string (gmap string Z)))
    (mentions : list (gmap string pyval)) :
  _aggregate_nlp_results tesa_id2label fromtimestamp judgments metadata
    = Some (summary, mentions) ->
  forall (E D : string) ds bucket,
    summary !! E = Some ds -> ds !! D = Some bucket ->
    (forall k, is_Some (bucket !! k)
       <-> k = "UNKNOWN" ∨ k ∈ label_names tesa_id2label)
    ∧ (forall k n, bucket !! k = Some n ->
         n = Z.of_nat (slot_count tesa_id2label mentions E D k)).
Proof.
  intros Hrun E D ds bucket HE HD.
  destruct (aggregate_labels tesa_id2label fromtimestamp _ _ _ _ Hrun)
    as [Hkeys Hcount]. simpl in Hkeys, Hcount. split.
  - intros k. rewrite (Hkeys E ds D bucket HE HD k), zero_bucket_lookup.
    case_decide as Hdec; split; intros Hk; try done; by destruct Hk.
  - intros k n Hk. rewrite <- Hcount. unfold count_at.
    by rewrite HE, HD, Hk.
Qed.

Lemma aggregate_counts_by_label_witness :
  (forall k, is_Some (({[ "POS" := 1; "NEG" := 0; "NEU" := 0; "UNKNOWN" := 1 ]}
                        : gmap string Z) !! k)
     <-> k = "UNKNOWN" ∨ k ∈ label_names default_tesa_id2label)
  ∧ (forall k n,
       ({[ "POS" := 1; "NEG" := 0; "NEU" := 0; "UNKNOWN" := 1 ]}
          : gmap string Z) !! k = Some n ->
       n = Z.of_nat (slot_count default_tesa_id2label example_mentions
                       "Ivanov" "2024-05-01" k)).
Proof.
  exact (aggregate_counts_by_label default_tesa_id2label example_fromtimestamp
           example_judgments example_metadata example_summary example_mentions
           example_aggregate_run "Ivanov" "2024-05-01" _ _
           eq_refl eq_refl).
Defined.



(** In the summary the aggregation returns, no entity is the empty name or
    without a date, and every bucket counts at least one mention. *)
Theorem aggregate_summary_cells_counted
    (tesa_id2label : gmap Z string) (fromtimestamp : Z -> date_outcome)
    (judgments : list (list (gmap string string)))
    (metadata : list (gmap string pyval))
    (summary : gmap string (gmap string (gmap string Z)))
    (mentions : list (gmap string pyval)) :
  _aggregate_nlp_results tesa_id2label fromtimestamp judgments metadata
    = Some (summary, mentions) ->
  cells_counted summary.
Proof.
  intros Hrun.
  apply (aggregate_texts_invariant tesa_id2label fromtimestamp
           (fun st => cells_counted st.1)
           (fun dk ts meta st op st' _ _ =>
              aggregate_opinion_cells tesa_id2label dk ts meta st op st')
           metadata judgments (∅, []) 0%nat (summary, mentions));
    [|exact Hrun].
  intros E ds. simpl. by rewrite lookup_empty.
Qed.

Lemma aggregate_summary_cells_counted_witness : cells_counted example_summary.
Proof.
  exact (aggregate_summary_cells_counted default_tesa_id2label
           example_fromtimestamp example_judgments example_metadata
           example_summary example_mentions example_aggregate_run).
Defined.

(** ** Alias merge: label by label, keys, and merging twice *)

Section MergeByLabel.
Variable tesa_id2label : gmap Z string.

Lemma count_at_add_count c d k v s E D L :
  count_at (add_count c d k v s) E D L
  = if decide (E = c ∧ D = d ∧ L = k) then count_at s c d k + v
    else count_at s E D L.
Proof.
  unfold add_count. rewrite count_at_insert.
  destruct (decide (E = c ∧ D = d)) as [[-> ->]|Hne].
  - assert (Hold : forall L',
      default 0 (default ∅ (default ∅ (s !! c) !! d) !! L')
      = count_at s c d L').
    { intros L'. unfold count_at. destruct (s !! c) as [ds|]; simpl.
      - destruct (ds !! d); simpl; [done|]. by rewrite lookup_empty.
      - by rewrite !lookup_empty. }
    destruct (decide (L = k)) as [->|HL].
    + rewrite lookup_insert_eq. simpl. rewrite decide_True by done.
      by rewrite Hold.
    + rewrite lookup_insert_ne by done. rewrite decide_False by tauto.
      apply Hold.
  - rewrite decide_False by tauto. done.
Qed.

Lemma count_at_ensure_bucket c d s E D L :
  count_at (ensure_bucket tesa_id2label c d s) E D L = count_at s E D L.
Proof.
  unfold ensure_bucket.
  destruct (default ∅ (s !! c) !! d) as [b|] eqn:Hd; [done|].
  rewrite count_at_insert. case_decide as HE; [|done].
  destruct HE as [-> ->]. rewrite zero_bucket_default.
  unfold count_at. destruct (s !! c) as [ds|]; [|done]. simpl in Hd.
  by rewrite Hd.
Qed.

Lemma count_at_add_counts c d E D L (items : list (string * Z)) : forall s,
  NoDup items.*1 ->
  count_at (foldl (fun s '(sentiment, count) =>
                     add_count c d sentiment count s) s items) E D L
  = if decide (E = c ∧ D = d)
    then count_at s c d L
         + default 0 ((list_to_map items : gmap string Z) !! L)
    else count_at s E D L.
Proof.
  induction items as [|[k v] items IH]; intros s Hnd; cbn [foldl].
  - rewrite list_to_map_nil, lookup_empty. simpl. case_decide as HE; [|done].
    destruct HE as [-> ->]. lia.
  - rewrite fmap_cons in Hnd. apply NoDup_cons in Hnd as [Hk Hnd].
    rewrite IH by done. rewrite !count_at_add_count.
    destruct (decide (E = c ∧ D = d)) as [[-> ->]|Hne].
    + rewrite list_to_map_cons. destruct (decide (L = k)) as [->|HL].
      * rewrite decide_True by done. rewrite lookup_insert_eq.
        rewrite (not_elem_of_list_to_map_1 _ k) by done. simpl. lia.
      * rewrite decide_False by tauto. by rewrite lookup_insert_ne.
    + rewrite decide_False by tauto. done.
Qed.

Lemma count_at_merge_date c s d sc E D L :
  count_at (merge_date tesa_id2label c s (d, sc)) E D L
  = if decide (E = c ∧ D = d)
    then count_at s c d L + default 0 (sc !! L)
    else count_at s E D L.
Proof.
  unfold merge_date. rewrite count_at_add_counts by apply NoDup_fst_map_to_list.
  rewrite list_to_map_to_list, !count_at_ensure_bucket. done.
Qed.

Lemma count_at_merge_dates c E D L (items : list (string * gmap string Z)) :
  forall s,
  NoDup items.*1 ->
  count_at (foldl (merge_date tesa_id2label c) s items) E D L
  = if decide (E = c)
    then count_at s c D L
         + match (list_to_map items : gmap string (gmap string Z)) !! D with
           | Some sc => default 0 (sc !! L)
           | None => 0
           end
    else count_at s E D L.
Proof.
  induction items as [|[d sc] items IH]; intros s Hnd; cbn [foldl].
  - rewrite list_to_map_nil, lookup_empty. case_decide as HE; [subst; lia | done].
  - rewrite fmap_cons in Hnd. apply NoDup_cons in Hnd as [Hd Hnd].
    rewrite IH by done. rewrite !count_at_merge_date.
    destruct (decide (E = c)) as [->|HE].
    + rewrite list_to_map_cons. destruct (decide (D = d)) as [->|HD].
      * rewrite decide_True by done. rewrite lookup_insert_eq.
        rewrite (not_elem_of_list_to_map_1 _ d) by done. lia.
      * rewrite decide_False by tauto. by rewrite lookup_insert_ne.
    + rewrite decide_False by tauto. done.
Qed.

(** One alias, label by label: its counts are added to those of the
    canonical entity, and it is left without any. *)
Lemma count_at_merge_alias c s a E D L :
  a ≠ c ->
  count_at (merge_alias tesa_id2label c s a) E D L
  = if decide (E = a) then 0
    else if decide (E = c) then count_at s c D L + count_at s a D L
    else count_at s E D L.
Proof.
  intros Hac. unfold merge_alias. rewrite decide_False by done.
  destruct (s !! a) as [dates|] eqn:Ha.
  - destruct (decide (E = a)) as [->|HEa].
    + unfold count_at at 1. by rewrite lookup_delete_eq.
    + assert (Hdel : forall s', count_at (delete a s') E D L = count_at s' E D L).
      { intros s'. unfold count_at. by rewrite lookup_delete_ne. }
      rewrite Hdel, count_at_merge_dates by apply NoDup_fst_map_to_list.
      rewrite list_to_map_to_list.
      destruct (decide (E = c)) as [->|HEc]; [|done].
      unfold count_at at 3. by rewrite Ha.
  - destruct (decide (E = a)) as [->|HEa].
    + unfold count_at. by rewrite Ha.
    + destruct (decide (E = c)) as [->|HEc]; [|done].
      unfold count_at at 3. rewrite Ha. lia.
Qed.

Lemma aliases_count_cons s a aliases c D L :
  aliases_count s (a :: aliases) c D L
  = (if decide (a = c) then 0 else count_at s a D L)
    + aliases_count s aliases c D L.
Proof. reflexivity. Qed.

Lemma count_at_merge_aliases c D L aliases : forall s,
  NoDup aliases ->
  count_at (foldl (merge_alias tesa_id2label c) s aliases) c D L
  = count_at s c D L + aliases_count s aliases c D L.
Proof.
  induction aliases as [|a aliases IH]; intros s Hnd; cbn [foldl].
  - unfold aliases_count. simpl. lia.
  - apply NoDup_cons in Hnd as [Ha Hnd]. rewrite IH by done.
    rewrite aliases_count_cons.
    assert (Hrest : aliases_count (merge_alias tesa_id2label c s a) aliases c D L
                    = aliases_count s aliases c D L).
    { clear IH Hnd.
      induction aliases as [|a' aliases IH]; [done|].
      rewrite !aliases_count_cons.
      rewrite IH by (intros Hin; apply Ha; by right). f_equal.
      case_decide as Ha'; [done|].
      destruct (decide (a = c)) as [->|Hac].
      { unfold merge_alias. by rewrite decide_True. }
      rewrite count_at_merge_alias by done.
      rewrite decide_False by (intros ->; apply Ha; by left).
      by rewrite decide_False. }
    rewrite Hrest. destruct (decide (a = c)) as [->|Hac].
    + unfold merge_alias. rewrite decide_True by done. lia.
    + rewrite count_at_merge_alias by done.
      rewrite decide_False by done. rewrite decide_True by done. lia.
Qed.

(** *** The keys of the merged summary *)

Lemma add_count_canonical c d k v s : is_Some (add_count c d k v s !! c).
Proof. unfold add_count. rewrite lookup_insert_eq. eauto. Qed.

Lemma merge_date_canonical c s item :
  is_Some (s !! c) -> is_Some (merge_date tesa_id2label c s item !! c).
Proof.
  intros Hc. destruct item as [d sc]. unfold merge_date.
  assert (Hseed : is_Some (ensure_bucket tesa_id2label c d s !! c)).
  { unfold ensure_bucket. destruct (default ∅ (s !! c) !! d); [done|].
    rewrite lookup_insert_eq. eauto. }
  revert Hseed. generalize (ensure_bucket tesa_id2label c d s).
  induction (map_to_list sc) as [|[k v] items IH]; intros s' Hs'; [done|].
  cbn [foldl]. apply IH, add_count_canonical.
Qed.

Lemma merge_alias_canonical c s a :
  is_Some (s !! c) -> is_Some (merge_alias tesa_id2label c s a !! c).
Proof.
  intros Hc. unfold merge_alias. case_decide as Hac; [done|].
  destruct (s !! a) as [dates|]; [|done].
  rewrite lookup_delete_ne by done.
  revert Hc. generalize s.
  induction (map_to_list dates) as [|item items IH]; intros s' Hs'; [done|].
  cbn [foldl]. by apply IH, merge_date_canonical.
Qed.

Lemma merge_aliases_canonical c aliases : forall s,
  is_Some (s !! c) ->
  is_Some (foldl (merge_alias tesa_id2label c) s aliases !! c).
Proof.
  induction aliases as [|a aliases IH]; intros s Hc; [done|].
  cbn [foldl]. by apply IH, merge_alias_canonical.
Qed.

Lemma merge_aliases_other c e aliases : forall s,
  e ≠ c -> e ∉ aliases ->
  foldl (merge_alias tesa_id2label c) s aliases !! e = s !! e.
Proof.
  induction aliases as [|a aliases IH]; intros s Hec He; [done|].
  apply not_elem_of_cons in He as [Hea He]. cbn [foldl].
  rewrite IH by done. by apply merge_alias_other.
Qed.

Lemma merge_aliases_removed c e aliases : forall s,
  e ≠ c -> e ∈ aliases ∨ s !! e = None ->
  foldl (merge_alias tesa_id2label c) s aliases !! e = None.
Proof.
  induction aliases as [|a aliases IH]; intros s Hec He; cbn [foldl].
  - destruct He as [He|He]; [by apply elem_of_nil in He | done].
  - apply IH; [done|]. destruct (decide (e = a)) as [->|Hea].
    + right. by apply merge_alias_removed.
    + destruct He as [He|He].
      * left. by apply elem_of_cons in He as [?|?].
      * right. by apply merge_alias_keeps_absent.
Qed.

(** Aliases that are not in the summary leave it as it is. *)
Lemma merge_aliases_absent c aliases : forall s,
  (forall a, a ∈ aliases -> a = c ∨ s !! a = None) ->
  foldl (merge_alias tesa_id2label c) s aliases = s.
Proof.
  induction aliases as [|a aliases IH]; intros s Ha; [done|].
  cbn [foldl].
  assert (Hstep : merge_alias tesa_id2label c s a = s).
  { unfold merge_alias. case_decide as Hac; [done|].
    destruct (Ha a) as [?|Hnone]; [by left|done|by rewrite Hnone]. }
  rewrite Hstep. apply IH. intros a' Ha'. apply Ha. by right.
Qed.

End MergeByLabel.

(** The summary before the loop of the aliases (lines 158-159). *)
Lemma reaggregate_summary_unfold tesa_id2label S M aliases C :
  whitespace_only C = false ->
  (reaggregate_with_aliases tesa_id2label S M aliases C).1
  = foldl (merge_alias tesa_id2label C)
      (match S !! C with Some _ => S | None => <[C := ∅]> S end) aliases.
Proof.
  intros HC. unfold reaggregate_with_aliases.
  by rewrite str_truthy_strip, HC.
Qed.

(** An entity that is neither the canonical name nor one of the aliases
    keeps its dates and counts. *)
Theorem reaggregate_leaves_other_entities
    (tesa_id2label : gmap Z string)
    (S : gmap string (gmap string (gmap string Z)))
    (M : list (gmap string pyval)) (aliases : list string) (C e : string) :
  e ≠ C -> e ∉ aliases ->
  (reaggregate_with_aliases tesa_id2label S M aliases C).1 !! e = S !! e.
Proof.
  intros HeC He. destruct (whitespace_only C) eqn:HC.
  - unfold reaggregate_with_aliases. by rewrite str_truthy_strip, HC.
  - rewrite reaggregate_summary_unfold by done.
    rewrite merge_aliases_other by done.
    destruct (S !! C); [done|]. by rewrite lookup_insert_ne.
Qed.

Lemma reaggregate_leaves_other_entities_witness :
  (reaggregate_with_aliases default_tesa_id2label example_two_spellings []
     ["Ivanov I."] "Ivanov").1 !! "Petrov"
  = example_two_spellings !! "Petrov".
Proof.
  apply (reaggregate_leaves_other_entities default_tesa_id2label
           example_two_spellings [] ["Ivanov I."] "Ivanov" "Petrov").
  - discriminate.
  - intros Hin. apply list_elem_of_singleton in Hin. discriminate.
Defined.

(** After a merge under a name that is not blank, the entities of the
    summary are the canonical name and the former entities that are no
    alias. *)
Theorem reaggregate_summary_keys
    (tesa_id2label : gmap Z string)
    (S : gmap string (gmap string (gmap string Z)))
    (M : list (gmap string pyval)) (aliases : list string) (C e : string) :
  whitespace_only C = false ->
  is_Some ((reaggregate_with_aliases tesa_id2label S M aliases C).1 !! e)
  <-> e = C ∨ (is_Some (S !! e) ∧ e ∉ aliases).
Proof.
  intros HC. rewrite reaggregate_summary_unfold by done.
  set (s0 := match S !! C with Some _ => S | None => <[C := ∅]> S end).
  assert (Hs0 : is_Some (s0 !! C)).
  { unfold s0. destruct (S !! C) eqn:HSC; [by rewrite HSC|].
    rewrite lookup_insert_eq. eauto. }
  assert (Hother : e ≠ C -> s0 !! e = S !! e).
  { intros He. unfold s0. destruct (S !! C); [done|].
    by rewrite lookup_insert_ne. }
  destruct (decide (e = C)) as [->|HeC].
  - split; [by left|]. intros _. by apply merge_aliases_canonical.
  - destruct (decide (e ∈ aliases)) as [Hin|Hnin].
    + rewrite merge_aliases_removed by auto. split.
      * by intros [? ?].
      * intros [?|[_ ?]]; done.
    + rewrite merge_aliases_other, Hother by done. split; [auto|].
      intros [?|[? _]]; done.
Qed.

Lemma reaggregate_summary_keys_witness :
  is_Some ((reaggregate_with_aliases default_tesa_id2label
              example_two_spellings [] ["Ivanov I."; "Ivanov"] "Ivanov").1
             !! "Ivanov I.")
  <-> "Ivanov I." = "Ivanov"
      ∨ (is_Some (example_two_spellings !! "Ivanov I.")
         ∧ "Ivanov I." ∉ ["Ivanov I."; "Ivanov"]).
Proof.
  apply (reaggregate_summary_keys default_tesa_id2label example_two_spellings
           [] ["Ivanov I."; "Ivanov"] "Ivanov" "Ivanov I.").
  reflexivity.
Defined.

Lemma aliases_count_ext s s' aliases c D L :
  (forall a, a ≠ c -> count_at s' a D L = count_at s a D L) ->
  aliases_count s' aliases c D L = aliases_count s aliases c D L.
Proof.
  intros H. induction aliases as [|a aliases IH]; [done|].
  rewrite !aliases_count_cons, IH. f_equal. case_decide; [done|]. by apply H.
Qed.

(** Label by label: after a merge of distinct aliases under a name that is
    not blank, each count of the canonical entity is its former count plus
    the counts the aliases had for that day and label; a missing entity,
    day or label counts as 0. *)
Theorem reaggregate_conserves_labels
    (tesa_id2label : gmap Z string)
    (S : gmap string (gmap string (gmap string Z)))
    (M : list (gmap string pyval)) (aliases : list string) (C D L : string) :
  whitespace_only C = false -> NoDup aliases ->
  count_at (reaggregate_with_aliases tesa_id2label S M aliases C).1 C D L
  = count_at S C D L + aliases_count S aliases C D L.
Proof.
  intros HC Hnd. rewrite reaggregate_summary_unfold by done.
  rewrite count_at_merge_aliases by done.
  destruct (S !! C) as [ds|] eqn:HSC; [done|].
  rewrite (aliases_count_ext S).
  - f_equal. unfold count_at. by rewrite lookup_insert_eq, HSC, lookup_empty.
  - intros a Ha. unfold count_at. by rewrite lookup_insert_ne.
Qed.

Lemma reaggregate_conserves_labels_witness :
  count_at (reaggregate_with_aliases default_tesa_id2label
              example_two_spellings [] ["Ivanov I."; "Ivanov"] "Ivanov").1
    "Ivanov" "2024-05-01" "POS"
  = count_at example_two_spellings "Ivanov" "2024-05-01" "POS"
    + aliases_count example_two_spellings ["Ivanov I."; "Ivanov"]
        "Ivanov" "2024-05-01" "POS".
Proof.
  apply (reaggregate_conserves_labels default_tesa_id2label
           example_two_spellings [] ["Ivanov I."; "Ivanov"] "Ivanov"
           "2024-05-01" "POS").
  - reflexivity.
  - apply (bool_decide_unpack _). reflexivity.
Defined.

(** Merging the same aliases under the same name a second time changes
    nothing: the result of the first merge is returned as it is. *)
Theorem reaggregate_twice
    (tesa_id2label : gmap Z string)
    (S : gmap string (gmap string (gmap string Z)))
    (M : list (gmap string pyval)) (aliases : list string) (C : string) :
  let merged := reaggregate_with_aliases tesa_id2label S M aliases C in
  reaggregate_with_aliases tesa_id2label merged.1 merged.2 aliases C = merged.
Proof.
  intros merged. unfold merged, reaggregate_with_aliases.
  rewrite str_truthy_strip. destruct (whitespace_only C) eqn:HC; simpl; [done|].
  set (s0 := match S !! C with Some _ => S | None => <[C := ∅]> S end).
  assert (Hs0 : is_Some (s0 !! C)).
  { unfold s0. destruct (S !! C) eqn:HSC; [by rewrite HSC|].
    rewrite lookup_insert_eq. eauto. }
  set (s1 := foldl (merge_alias tesa_id2label C) s0 aliases).
  destruct (merge_aliases_canonical tesa_id2label C aliases s0 Hs0) as [ds Hds].
  fold s1 in Hds. rewrite Hds. f_equal.
  - apply merge_aliases_absent. intros a Ha.
    destruct (decide (a = C)) as [->|HaC]; [by left|]. right.
    apply merge_aliases_removed; auto.
  - rewrite <- list_fmap_compose. apply list_fmap_ext.
    intros i m _. simpl. apply rewrite_mention_idemp.
Qed.

(** ** The wire client: what a call sends and sleeps *)

Lemma posts_sent_app t1 t2 : posts_sent (t1 ++ t2) = posts_sent t1 ++ posts_sent t2.
Proof. apply omap_app. Qed.

Lemma backoff_attempts_app t1 t2 :
  backoff_attempts (t1 ++ t2) = backoff_attempts t1 ++ backoff_attempts t2.
Proof. apply omap_app. Qed.

Lemma total_backoff_app t1 t2 :
  (total_backoff (t1 ++ t2) == total_backoff t1 + total_backoff t2)%Q.
Proof.
  induction t1 as [|ev t1 IH]; simpl.
  - ring.
  - destruct ev; rewrite ?IH; ring.
Qed.

Section WireTraces.
Context {R : Type}.
Variable cfg : wire_config.
Variable wire : nat -> attempt_outcome R.

Lemma delay_after_call_no_post :
  posts_sent (delay_after_call_events cfg) = []
  ∧ backoff_attempts (delay_after_call_events cfg) = [].
Proof. unfold delay_after_call_events. by destruct (delay_after_api_call cfg). Qed.

Lemma last_attempt_remaining remaining attempt :
  (attempt + S remaining = max_retries cfg)%nat ->
  (is_last_attempt cfg attempt = true <-> remaining = 0%nat)
  ∧ ((Z.of_nat attempt <? Z.of_nat (max_retries cfg) - 1) = false
     <-> remaining = 0%nat).
Proof.
  intros Hsum. unfold is_last_attempt. rewrite Z.eqb_eq, Z.ltb_ge. lia.
Qed.

(** The requests of a call are numbered from 0, there are at most
    [max_retries] of them, and each sleep follows the request of its
    attempt: only the last request can be without one. *)
Lemma call_loop_trace remaining : forall attempt trace,
  (attempt + remaining = max_retries cfg)%nat ->
  exists n m,
    posts_sent (call_loop cfg wire remaining attempt trace).2
      = posts_sent trace ++ seq attempt n
    ∧ backoff_attempts (call_loop cfg wire remaining attempt trace).2
      = backoff_attempts trace ++ seq attempt m
    ∧ (n <= remaining)%nat ∧ (m = n ∨ S m = n).
Proof.
  induction remaining as [|remaining IH]; intros attempt trace Hsum.
  { exists 0%nat, 0%nat. simpl. rewrite !app_nil_r. by split_and!; [..|left]. }
  assert (Hgo : forall d,
    exists n m,
      posts_sent (call_loop cfg wire remaining (S attempt)
                    ((trace ++ [EvPost attempt]) ++ [EvBackoff attempt d])).2
        = posts_sent trace ++ seq attempt n
      ∧ backoff_attempts (call_loop cfg wire remaining (S attempt)
                    ((trace ++ [EvPost attempt]) ++ [EvBackoff attempt d])).2
        = backoff_attempts trace ++ seq attempt m
      ∧ (n <= S remaining)%nat ∧ (m = n ∨ S m = n)).
  { intros d.
    destruct (IH (S attempt) ((trace ++ [EvPost attempt]) ++ [EvBackoff attempt d]))
      as (n & m & Hp & Hb & Hn & Hm); [lia|].
    exists (S n), (S m). rewrite Hp, Hb.
    rewrite !posts_sent_app, !backoff_attempts_app. simpl.
    rewrite !app_nil_r, <- !app_assoc. simpl. split_and!; [done|done|lia|lia]. }
  assert (Hstop1 : forall e,
    exists n m,
      posts_sent ((e, trace ++ [EvPost attempt])
                  : call_result R * list wire_event).2
        = posts_sent trace ++ seq attempt n
      ∧ backoff_attempts ((e, trace ++ [EvPost attempt])
                  : call_result R * list wire_event).2
        = backoff_attempts trace ++ seq attempt m
      ∧ (n <= S remaining)%nat ∧ (m = n ∨ S m = n)).
  { intros e. exists 1%nat, 0%nat. simpl.
    rewrite posts_sent_app, backoff_attempts_app. simpl.
    rewrite app_nil_r. split_and!; [done|done|lia|by right]. }
  assert (Hstop2 : forall e d,
    exists n m,
      posts_sent ((e, (trace ++ [EvPost attempt]) ++ [EvBackoff attempt d])
                  : call_result R * list wire_event).2
        = posts_sent trace ++ seq attempt n
      ∧ backoff_attempts ((e, (trace ++ [EvPost attempt]) ++ [EvBackoff attempt d])
                  : call_result R * list wire_event).2
        = backoff_attempts trace ++ seq attempt m
      ∧ (n <= S remaining)%nat ∧ (m = n ∨ S m = n)).
  { intros e d. exists 1%nat, 1%nat. simpl.
    rewrite !posts_sent_app, !backoff_attempts_app. simpl.
    rewrite !app_nil_r. split_and!; [done|done|lia|by left]. }
  cbn [call_loop]. destruct (wire attempt) as [| | |code msg|r].
  - destruct (is_last_attempt cfg attempt); [apply Hstop1 | apply Hgo].
  - apply Hstop1.
  - destruct (Z.of_nat attempt <? Z.of_nat (max_retries cfg) - 1);
      [apply Hgo | apply Hstop1].
  - destruct (decide (code = Some 6)).
    { destruct (is_last_attempt cfg attempt); [apply Hstop2 | apply Hgo]. }
    destruct (decide (code = Some 29)); [|apply Hstop1].
    destruct (is_last_attempt cfg attempt); [apply Hstop2 | apply Hgo].
  - exists 1%nat, 0%nat. simpl.
    destruct delay_after_call_no_post as [Hp Hb].
    rewrite !posts_sent_app, !backoff_attempts_app, Hp, Hb. simpl.
    rewrite !app_nil_r. split_and!; [done|done|lia|by right].
Qed.

(** With at least one attempt allowed, the loop never falls through to the
    error of line 118. *)
Lemma call_loop_never_falls_through remaining : forall attempt trace,
  (attempt + S remaining = max_retries cfg)%nat ->
  (call_loop cfg wire (S remaining) attempt trace).1
  ≠ RaisedVKAPIError FailedAfterRetries.
Proof.
  induction remaining as [|remaining IH]; intros attempt trace Hsum;
    destruct (last_attempt_remaining _ _ Hsum) as [Hlast Hlt];
    cbn [call_loop].
  - assert (Hl : is_last_attempt cfg attempt = true) by (by apply Hlast).
    assert (Hl' : (Z.of_nat attempt <? Z.of_nat (max_retries cfg) - 1) = false)
      by (by apply Hlt).
    rewrite Hl, Hl'.
    destruct (wire attempt) as [| | |code msg|r]; try done.
    by repeat case_decide.
  - assert (Hl : is_last_attempt cfg attempt = false).
    { destruct (is_last_attempt cfg attempt); [|done].
      by destruct Hlast as [Hlast _]; specialize (Hlast eq_refl). }
    assert (Hl' : (Z.of_nat attempt <? Z.of_nat (max_retries cfg) - 1) = true).
    { destruct (_ <? _); [done|].
      by destruct Hlt as [Hlt _]; specialize (Hlt eq_refl). }
    rewrite Hl, Hl'.
    destruct (wire attempt) as [| | |code msg|r]; try done;
      try (apply IH; lia).
    repeat case_decide; try done; apply IH; lia.
Qed.

(** A call that returns was answered with a payload, after retried
    attempts only. *)
Lemma call_loop_returned remaining : forall attempt trace r,
  (call_loop cfg wire remaining attempt trace).1 = Returned r ->
  exists k, (attempt <= k < attempt + remaining)%nat
    ∧ wire k = Payload r
    ∧ forall j, (attempt <= j < k)%nat -> retried (wire j).
Proof.
  induction remaining as [|remaining IH]; intros attempt trace r; [done|].
  cbn [call_loop].
  assert (Hgo : forall trace',
    retried (wire attempt) ->
    (call_loop cfg wire remaining (S attempt) trace').1 = Returned r ->
    exists k, (attempt <= k < attempt + S remaining)%nat
      ∧ wire k = Payload r
      ∧ forall j, (attempt <= j < k)%nat -> retried (wire j)).
  { intros trace' Hretr Hrun.
    destruct (IH _ _ _ Hrun) as (k & Hk & Hw & Hj).
    exists k. split; [lia|]. split; [done|].
    intros j Hjk. destruct (decide (j = attempt)) as [->|]; [done|].
    apply Hj. lia. }
  destruct (wire attempt) as [| | |code msg|r'] eqn:Hw.
  - destruct (is_last_attempt cfg attempt); [done|].
    by apply Hgo.
  - done.
  - destruct (_ <? _); [|done]. by apply Hgo.
  - destruct (decide (code = Some 6)) as [->|].
    { destruct (is_last_attempt cfg attempt); [done|].
      apply Hgo. by left. }
    destruct (decide (code = Some 29)) as [->|]; [|done].
    destruct (is_last_attempt cfg attempt); [done|].
    apply Hgo. by right.
  - intros [= ->]. exists attempt. split; [lia|]. split; [done|]. lia.
Qed.


Lemma total_backoff_post trace attempt :
  (total_backoff (trace ++ [EvPost attempt]) == total_backoff trace)%Q.
Proof. rewrite total_backoff_app. simpl. ring. Qed.

Lemma total_backoff_sleep trace attempt d :
  (total_backoff ((trace ++ [EvPost attempt]) ++ [EvBackoff attempt d])
   == total_backoff trace + d)%Q.
Proof. rewrite !total_backoff_app. simpl. ring. Qed.

Lemma exponential_delay_sum (attempt : nat) (upto : Z) :
  (exponential_delay cfg attempt
   + base_retry_delay_s cfg * inject_Z (upto - 2 ^ Z.of_nat (S attempt))
   == base_retry_delay_s cfg * inject_Z (upto - 2 ^ Z.of_nat attempt))%Q.
Proof.
  unfold exponential_delay.
  rewrite Nat2Z.inj_succ, Z.pow_succ_r by lia.
  unfold Z.sub. rewrite !inject_Z_plus, !inject_Z_opp, inject_Z_mult.
  change (inject_Z 2) with 2%Q. ring.
Qed.

Lemma call_loop_step remaining attempt trace :
  call_loop cfg wire (S remaining) attempt trace
  = match wire attempt with
    | NonJson =>
        if Z.of_nat attempt <? Z.of_nat (max_retries cfg) - 1
        then call_loop cfg wire remaining (S attempt)
               ((trace ++ [EvPost attempt])
                ++ [EvBackoff attempt (exponential_delay cfg attempt)])
        else (RaisedVKAPIError UnexpectedContentType, trace ++ [EvPost attempt])
    | ApiError error_code error_msg =>
        if decide (error_code = Some 6) then
          if is_last_attempt cfg attempt
          then (RaisedVKAPIError (ApiErrorUnresolved error_code error_msg),
                (trace ++ [EvPost attempt])
                ++ [EvBackoff attempt (exponential_delay cfg attempt)])
          else call_loop cfg wire remaining (S attempt)
                 ((trace ++ [EvPost attempt])
                  ++ [EvBackoff attempt (exponential_delay cfg attempt)])
        else if decide (error_code = Some 29) then
          if is_last_attempt cfg attempt
          then (RaisedVKAPIError (ApiErrorUnresolved error_code error_msg),
                (trace ++ [EvPost attempt])
                ++ [EvBackoff attempt (rate_limit_delay cfg attempt)])
          else call_loop cfg wire remaining (S attempt)
                 ((trace ++ [EvPost attempt])
                  ++ [EvBackoff attempt (rate_limit_delay cfg attempt)])
        else (RaisedVKAPIError (ApiErrorFatal error_code error_msg),
              trace ++ [EvPost attempt])
    | Payload response =>
        (Returned response,
         (trace ++ [EvPost attempt]) ++ delay_after_call_events cfg)
    | ClientError =>
        if is_last_attempt cfg attempt
        then (RaisedVKAPIError NetworkErrorAfterRetries,
              trace ++ [EvPost attempt])
        else call_loop cfg wire remaining (S attempt)
               ((trace ++ [EvPost attempt])
                ++ [EvBackoff attempt (exponential_delay cfg attempt)])
    | OtherException => (RaisedOther, trace ++ [EvPost attempt])
    end.
Proof. reflexivity. Qed.

(** Every attempt meets the error code 6: the call sleeps after each of
    them, the last one too, and then gives up. *)
Lemma call_loop_throttled remaining : forall attempt trace,
  (attempt + S remaining = max_retries cfg)%nat ->
  (forall j, (attempt <= j < max_retries cfg)%nat ->
     exists msg, wire j = ApiError (Some 6) msg) ->
  exists msg,
    wire (max_retries cfg - 1)%nat = ApiError (Some 6) msg
    ∧ (call_loop cfg wire (S remaining) attempt trace).1
      = RaisedVKAPIError (ApiErrorUnresolved (Some 6) msg)
    ∧ posts_sent (call_loop cfg wire (S remaining) attempt trace).2
      = posts_sent trace ++ seq attempt (S remaining)
    ∧ (total_backoff (call_loop cfg wire (S remaining) attempt trace).2
       == total_backoff trace
          + base_retry_delay_s cfg
            * inject_Z (2 ^ Z.of_nat (max_retries cfg) - 2 ^ Z.of_nat attempt))%Q.
Proof.
  induction remaining as [|remaining IH]; intros attempt trace Hsum Hwire;
    destruct (last_attempt_remaining _ _ Hsum) as [Hlast _];
    destruct (Hwire attempt) as [msg Hw]; try lia;
    rewrite call_loop_step, Hw; rewrite decide_True by done.
  - rewrite (proj2 Hlast) by done. exists msg.
    replace (max_retries cfg - 1)%nat with attempt by lia.
    split; [done|]. split; [done|]. split.
    + cbn [snd]. rewrite !posts_sent_app. simpl. by rewrite app_nil_r.
    + cbn [snd]. rewrite total_backoff_sleep.
      replace (max_retries cfg) with (S attempt) by lia.
      rewrite <- (exponential_delay_sum attempt (2 ^ Z.of_nat (S attempt))).
      rewrite Z.sub_diag. change (inject_Z 0) with 0%Q. ring.
  - assert (Hl : is_last_attempt cfg attempt = false).
    { destruct (is_last_attempt cfg attempt); [|done].
      by destruct Hlast as [Hlast _]; specialize (Hlast eq_refl). }
    rewrite Hl.
    destruct (IH (S attempt)
                ((trace ++ [EvPost attempt])
                 ++ [EvBackoff attempt (exponential_delay cfg attempt)]))
      as (msg' & Hw' & Hres & Hposts & Hsleep); [lia| |].
    { intros j Hj. apply Hwire. lia. }
    exists msg'. split; [done|]. split; [done|]. split.
    + rewrite Hposts, !posts_sent_app. simpl.
      by rewrite app_nil_r, <- app_assoc.
    + rewrite Hsleep, total_backoff_sleep.
      rewrite <- (exponential_delay_sum attempt). ring.
Qed.

(** Every attempt meets a transport failure or a response that is not
    JSON: the call sleeps between the attempts, not after the last one. *)
Lemma call_loop_transport_failures remaining : forall attempt trace,
  (attempt + S remaining = max_retries cfg)%nat ->
  (forall j, (attempt <= j < max_retries cfg)%nat ->
     wire j = ClientError ∨ wire j = NonJson) ->
  (call_loop cfg wire (S remaining) attempt trace).1
    = RaisedVKAPIError
        match wire (max_retries cfg - 1)%nat with
        | NonJson => UnexpectedContentType
        | _ => NetworkErrorAfterRetries
        end
  ∧ posts_sent (call_loop cfg wire (S remaining) attempt trace).2
    = posts_sent trace ++ seq attempt (S remaining)
  ∧ (total_backoff (call_loop cfg wire (S remaining) attempt trace).2
     == total_backoff trace
        + base_retry_delay_s cfg
          * inject_Z (2 ^ Z.of_nat (max_retries cfg - 1)
                      - 2 ^ Z.of_nat attempt))%Q.
Proof.
  induction remaining as [|remaining IH]; intros attempt trace Hsum Hwire;
    destruct (last_attempt_remaining _ _ Hsum) as [Hlast Hlt];
    rewrite call_loop_step.
  - rewrite (proj2 Hlast), (proj2 Hlt) by done.
    replace (max_retries cfg - 1)%nat with attempt by lia.
    assert (Hstop : forall e : vk_api_error,
      posts_sent ((RaisedVKAPIError e, trace ++ [EvPost attempt])
                  : call_result R * list wire_event).2
      = posts_sent trace ++ seq attempt 1
      ∧ (total_backoff ((RaisedVKAPIError e, trace ++ [EvPost attempt])
                        : call_result R * list wire_event).2
         == total_backoff trace
            + base_retry_delay_s cfg
              * inject_Z (2 ^ Z.of_nat attempt - 2 ^ Z.of_nat attempt))%Q).
    { intros e. cbn [snd]. rewrite posts_sent_app, total_backoff_post.
      split; [done|]. rewrite Z.sub_diag. change (inject_Z 0) with 0%Q. ring. }
    destruct (Hwire attempt) as [Hw|Hw]; [lia| |]; rewrite Hw;
      (split; [done | apply Hstop]).
  - assert (Hl : is_last_attempt cfg attempt = false).
    { destruct (is_last_attempt cfg attempt); [|done].
      by destruct Hlast as [Hlast _]; specialize (Hlast eq_refl). }
    assert (Hl' : (Z.of_nat attempt <? Z.of_nat (max_retries cfg) - 1) = true).
    { destruct (_ <? _); [done|].
      by destruct Hlt as [Hlt _]; specialize (Hlt eq_refl). }
    rewrite Hl, Hl'.
    destruct (IH (S attempt)
                ((trace ++ [EvPost attempt])
                 ++ [EvBackoff attempt (exponential_delay cfg attempt)]))
      as (Hres & Hposts & Hsleep); [lia| |].
    { intros j Hj. apply Hwire. lia. }
    assert (Hgoal :
      posts_sent (call_loop cfg wire (S remaining) (S attempt)
                    ((trace ++ [EvPost attempt])
                     ++ [EvBackoff attempt (exponential_delay cfg attempt)])).2
      = posts_sent trace ++ seq attempt (S (S remaining))
      ∧ (total_backoff (call_loop cfg wire (S remaining) (S attempt)
                    ((trace ++ [EvPost attempt])
                     ++ [EvBackoff attempt (exponential_delay cfg attempt)])).2
         == total_backoff trace
            + base_retry_delay_s cfg
              * inject_Z (2 ^ Z.of_nat (max_retries cfg - 1)
                          - 2 ^ Z.of_nat attempt))%Q).
    { split.
      - rewrite Hposts, !posts_sent_app. simpl.
        by rewrite app_nil_r, <- app_assoc.
      - rewrite Hsleep, total_backoff_sleep.
        rewrite <- (exponential_delay_sum attempt). ring. }
    destruct (Hwire attempt) as [Hw|Hw]; [lia| |]; rewrite Hw;
      (split; [exact Hres | exact Hgoal]).
Qed.

End WireTraces.


(** The error of line 118, raised after the loop, is met exactly when
    [max_retries] is 0: with an attempt allowed, the last attempt returns or
    raises by itself. *)
Theorem call_method_falls_through_iff {R : Type}
    (cfg : wire_config) (wire : nat -> attempt_outcome R) :
  (_call_method cfg wire).1 = RaisedVKAPIError FailedAfterRetries
  <-> max_retries cfg = 0%nat.
Proof.
  unfold _call_method. split.
  - destruct (max_retries cfg) as [|remaining] eqn:Hmax; [done|].
    intros Hrun. exfalso.
    eapply call_loop_never_falls_through; [|exact Hrun]. rewrite Hmax. lia.
  - by intros ->.
Qed.

(** A call returns [r] exactly when some attempt within the budget is
    answered with the payload [r] and every attempt before it is one that
    is retried (transport failure, response that is not JSON, error code 6
    or 29). *)
Theorem call_method_returns_iff {R : Type}
    (cfg : wire_config) (wire : nat -> attempt_outcome R) (r : R) :
  (_call_method cfg wire).1 = Returned r
  <-> exists k, (k < max_retries cfg)%nat
        ∧ wire k = Payload r
        ∧ forall j, (j < k)%nat -> retried (wire j).
Proof.
  unfold _call_method. split.
  - intros Hrun. apply call_loop_returned in Hrun as (k & Hk & Hw & Hj).
    exists k. split; [lia|]. split; [done|]. intros j Hjk. apply Hj. lia.
  - intros (k & Hk & Hw & Hj).
    destruct (call_loop_reaches cfg wire k (max_retries cfg) 0%nat [])
      as (earlier & Hrun & _); [lia | lia | done | |].
    { intros j Hjk. apply Hj. lia. }
    rewrite Hrun.
    destruct (max_retries cfg - k)%nat as [|remaining] eqn:Hrem; [lia|].
    cbn [call_loop]. by rewrite Hw.
Qed.



(** When every attempt meets the error code 6, the call sends
    [max_retries] requests, sleeps after each of them, the last one too,
    [base_retry_delay_s * (2 ** max_retries - 1)] seconds in all, and
    raises the error of line 105 with the message of the last response. *)
Theorem throttled_every_attempt {R : Type}
    (cfg : wire_config) (wire : nat -> attempt_outcome R) :
  (1 <= max_retries cfg)%nat ->
  (forall j, (j < max_retries cfg)%nat ->
     exists msg, wire j = ApiError (Some 6) msg) ->
  exists msg,
    wire (max_retries cfg - 1)%nat = ApiError (Some 6) msg
    ∧ (_call_method cfg wire).1
      = RaisedVKAPIError (ApiErrorUnresolved (Some 6) msg)
    ∧ posts_sent (_call_method cfg wire).2 = seq 0 (max_retries cfg)
    ∧ (total_backoff (_call_method cfg wire).2
       == base_retry_delay_s cfg * inject_Z (2 ^ Z.of_nat (max_retries cfg) - 1))%Q.
Proof.
  intros Hmax Hwire. unfold _call_method.
  destruct (max_retries cfg) as [|remaining] eqn:Hm; [lia|].
  destruct (call_loop_throttled cfg wire remaining 0%nat [])
    as (msg & Hw & Hres & Hposts & Hsleep); [lia| |].
  { intros j Hj. apply Hwire. lia. }
  rewrite Hm in Hw, Hsleep. exists msg. split; [done|]. split; [done|].
  split; [done|]. rewrite Hsleep. simpl total_backoff.
  change (2 ^ Z.of_nat 0)%Z with 1%Z. ring.
Qed.

Lemma throttled_every_attempt_witness :
  let wire : nat -> attempt_outcome Z := fun _ =>
    ApiError (Some 6) "Too many requests per second" in
  exists msg,
    wire (max_retries default_wire_config - 1)%nat = ApiError (Some 6) msg
    ∧ (_call_method default_wire_config wire).1
      = RaisedVKAPIError (ApiErrorUnresolved (Some 6) msg)
    ∧ posts_sent (_call_method default_wire_config wire).2
      = seq 0 (max_retries default_wire_config)
    ∧ (total_backoff (_call_method default_wire_config wire).2
       == base_retry_delay_s default_wire_config
          * inject_Z (2 ^ Z.of_nat (max_retries default_wire_config) - 1))%Q.
Proof.
  apply (throttled_every_attempt default_wire_config
           (fun _ => ApiError (Some 6) "Too many requests per second")).
  - simpl. lia.
  - intros j _. by eexists.
Defined.

(** When every attempt meets a transport failure or a response that is not
    JSON, the call sends [max_retries] requests, sleeps between them,
    [base_retry_delay_s * (2 ** (max_retries - 1) - 1)] seconds in all, and
    raises the error of the last attempt without a sleep after it. *)
Theorem transport_failure_every_attempt {R : Type}
    (cfg : wire_config) (wire : nat -> attempt_outcome R) :
  (1 <= max_retries cfg)%nat ->
  (forall j, (j < max_retries cfg)%nat ->
     wire j = ClientError ∨ wire j = NonJson) ->
  (_call_method cfg wire).1
    = RaisedVKAPIError
        match wire (max_retries cfg - 1)%nat with
        | NonJson => UnexpectedContentType
        | _ => NetworkErrorAfterRetries
        end
  ∧ posts_sent (_call_method cfg wire).2 = seq 0 (max_retries cfg)
  ∧ (total_backoff (_call_method cfg wire).2
     == base_retry_delay_s cfg
        * inject_Z (2 ^ Z.of_nat (max_retries cfg - 1) - 1))%Q.
Proof.
  intros Hmax Hwire. unfold _call_method.
  destruct (max_retries cfg) as [|remaining] eqn:Hm; [lia|].
  destruct (call_loop_transport_failures cfg wire remaining 0%nat [])
    as (Hres & Hposts & Hsleep); [lia| |].
  { intros j Hj. apply Hwire. lia. }
  rewrite Hm in Hres, Hsleep. split; [done|]. split; [done|].
  rewrite Hsleep. simpl total_backoff.
  change (2 ^ Z.of_nat 0)%Z with 1%Z. ring.
Qed.

Lemma transport_failure_every_attempt_witness :
  let wire : nat -> attempt_outcome Z := fun attempt =>
    match attempt with
    | O => NonJson
    | _ => ClientError
    end in
  (_call_method default_wire_config wire).1
    = RaisedVKAPIError
        match wire (max_retries default_wire_config - 1)%nat with
        | NonJson => UnexpectedContentType
        | _ => NetworkErrorAfterRetries
        end
  ∧ posts_sent (_call_method default_wire_config wire).2
    = seq 0 (max_retries default_wire_config)
  ∧ (total_backoff (_call_method default_wire_config wire).2
     == base_retry_delay_s default_wire_config
        * inject_Z (2 ^ Z.of_nat (max_retries default_wire_config - 1) - 1))%Q.
Proof.
  apply (transport_failure_every_attempt default_wire_config
           (fun attempt =>
              match attempt with
              | O => NonJson
              | _ => ClientError
              end)).
  - simpl. lia.
  - intros [|j] _; [by right | by left].
Defined.

(** An exception of an attempt that is no [aiohttp.ClientError] leaves the
    call at once, as it is: no sleep and no further request follow the
    request of that attempt, and it is not turned into a [VKAPIError]. *)
Theorem other_exception_propagates {R : Type}
    (cfg : wire_config) (wire : nat -> attempt_outcome R) (k : nat) :
  (k < max_retries cfg)%nat ->
  (forall j, (j < k)%nat -> retried (wire j)) ->
  wire k = OtherException ->
  exists earlier,
    _call_method cfg wire = (RaisedOther, earlier ++ [EvPost k])
    ∧ posts_sent earlier = seq 0 k
    ∧ backoff_attempts earlier = seq 0 k.
Proof.
  intros Hk Hretr Hw. unfold _call_method.
  destruct (call_loop_reaches cfg wire k (max_retries cfg) 0%nat [])
    as (earlier & Hrun & Hposts & Hback); [lia | lia | done | |].
  { intros j Hj. apply Hretr. lia. }
  exists earlier. rewrite Hrun. simpl app.
  destruct (max_retries cfg - k)%nat as [|remaining] eqn:Hrem; [lia|].
  rewrite call_loop_step, Hw. split; [done|].
  rewrite Nat.sub_0_r in Hposts. split; [done|].
  destruct (call_loop_trace cfg wire (max_retries cfg) 0%nat [])
    as (n & m & Hp & Hb & Hn & Hm); [done|].
  rewrite Hrun, call_loop_step, Hw in Hp, Hb. simpl in Hp, Hb.
  rewrite posts_sent_app, Hposts in Hp. simpl in Hp.
  rewrite backoff_attempts_app in Hb. simpl in Hb. rewrite app_nil_r in Hb.
  assert (n = S k) as ->.
  { apply (f_equal length) in Hp.
    rewrite length_app, !length_seq in Hp. simpl in Hp. lia. }
  rewrite Hb. destruct Hm as [->|Hm].
  - exfalso. assert (Hin : k ∈ backoff_attempts earlier).
    { rewrite Hb. apply elem_of_seq. lia. }
    unfold backoff_attempts in Hin. apply list_elem_of_omap in Hin
      as ([a| a d|d] & Hin & Hx); try done.
    injection Hx as ->. specialize (Hback _ _ Hin). lia.
  - by injection Hm as ->.
Qed.

Lemma other_exception_propagates_witness :
  let wire : nat -> attempt_outcome Z := fun attempt =>
    match attempt with
    | O => ClientError
    | _ => OtherException
    end in
  exists earlier,
    _call_method default_wire_config wire = (RaisedOther, earlier ++ [EvPost 1])
    ∧ posts_sent earlier = seq 0 1
    ∧ backoff_attempts earlier = seq 0 1.
Proof.
  apply (other_exception_propagates default_wire_config
           (fun attempt =>
              match attempt with
              | O => ClientError
              | _ => OtherException
              end) 1%nat).
  - simpl. lia.
  - intros [|j] Hj; [done | lia].
  - reflexivity.
Defined.

(** ** [str.strip] *)

Lemma lstrip_chars_head l :
  match lstrip_chars l with
  | [] => True
  | c :: _ => is_space c = false
  end.
Proof.
  induction l as [|c l IH]; simpl; [done|].
  destruct (is_space c) eqn:Hc; [done|]. by rewrite Hc.
Qed.

Lemma lstrip_chars_fixed l :
  match l with [] => True | c :: _ => is_space c = false end ->
  lstrip_chars l = l.
Proof. destruct l as [|c l]; simpl; [done|]. by intros ->. Qed.

Lemma lstrip_chars_decompose l :
  exists spaces, l = spaces ++ lstrip_chars l.
Proof.
  induction l as [|c l [spaces IH]]; simpl.
  - by exists [].
  - destruct (is_space c).
    + exists (c :: spaces). simpl. by rewrite <- IH.
    + by exists [].
Qed.

(** The characters of [s.strip()]: neither the first nor the last is
    white space. *)
Lemma strip_chars (l : list ascii) :
  let t := rev (lstrip_chars (rev (lstrip_chars l))) in
  lstrip_chars t = t ∧ lstrip_chars (rev t) = rev t.
Proof.
  intros t. unfold t. rewrite rev_involutive.
  set (a := lstrip_chars l).
  pose proof (lstrip_chars_head l) as Ha. fold a in Ha.
  pose proof (lstrip_chars_head (rev a)) as Hb.
  destruct (lstrip_chars_decompose (rev a)) as [spaces Hdec].
  set (b := lstrip_chars (rev a)) in *.
  split; [|by apply lstrip_chars_fixed].
  apply lstrip_chars_fixed.
  destruct b as [|c b'] eqn:Hbeq; [done|].
  assert (Hrev : a = rev (c :: b') ++ rev spaces).
  { rewrite <- rev_app_distr, <- Hdec. by rewrite rev_involutive. }
  destruct (rev (c :: b')) as [|c' r] eqn:Hr.
  { apply (f_equal (@length _)) in Hr. rewrite length_rev in Hr. done. }
  rewrite Hrev in Ha. simpl in Ha. done.
Qed.

(** Stripping twice is stripping once. *)
Lemma strip_idemp s : strip (strip s) = strip s.
Proof.
  unfold strip. rewrite list_ascii_of_string_of_list_ascii.
  destruct (strip_chars (list_ascii_of_string s)) as [H1 H2].
  rewrite H1, H2. by rewrite rev_involutive.
Qed.

(** ** The posts of a group *)

Section PostsFacts.
Variables start_ts end_ts posts_chunk_size : Z.

(** What is asked of a collected post. *)
Let post_ok (p : post_data) : Prop :=
  start_ts <= date p <= end_ts ∧ text p ≠ "" ∧ strip (text p) = text p.

Lemma post_data_of_fields post_item d post :
  post_data_of post_item d = Some post ->
  date post = d ∧ strip (text post) = text post.
Proof.
  unfold post_data_of.
  destruct (wi_id post_item), (wi_owner_id post_item); try done.
  intros [= <-]. simpl. split; [done|]. apply strip_idemp.
Qed.

Lemma str_truthy_nonempty s : str_truthy s = true <-> s ≠ "".
Proof.
  unfold str_truthy. rewrite negb_true_iff, bool_decide_eq_false. done.
Qed.

Lemma scan_posts_ok items : forall collected,
  Forall post_ok collected ->
  Forall post_ok (scan_posts start_ts end_ts items collected).1.
Proof.
  induction items as [|post_item items IH]; intros collected Hc; simpl; [done|].
  destruct (wi_date post_item) as [d|]; [|done].
  destruct (end_ts <? d) eqn:Hend; [by apply IH|].
  destruct (start_ts <=? d) eqn:Hstart; [|by apply IH].
  destruct (post_data_of post_item d) as [post|] eqn:Hpost; [|done].
  destruct (str_truthy (text post)) eqn:Htext; [|by apply IH].
  apply IH. apply Forall_app. split; [done|]. apply Forall_singleton.
  apply post_data_of_fields in Hpost as [Hd Hs].
  apply str_truthy_nonempty in Htext.
  apply Z.ltb_ge in Hend. apply Z.leb_le in Hstart.
  unfold post_ok. rewrite Hd. by split_and!.
Qed.

Section AnyWall.
Variable wall_get : Z -> call_result (option (list wall_item)).

Lemma parse_posts_loop_ok fuel : forall offset collected requests posts requests',
  Forall post_ok collected ->
  parse_posts_loop start_ts end_ts posts_chunk_size wall_get fuel offset
    collected requests = Some (posts, requests') ->
  Forall post_ok posts.
Proof.
  induction fuel as [|fuel IH]; intros offset collected requests posts requests'
    Hc; simpl; [done|].
  destruct (wall_get offset) as [[items|]| |]; try by intros [= <- <-].
  destruct (last items) as [oldest|]; [|by intros [= <- <-]].
  destruct (wi_date oldest) as [d0|]; [|by intros [= <- <-]].
  pose proof (scan_posts_ok items collected Hc) as Hscan.
  destruct (scan_posts start_ts end_ts items collected) as [collected' completed].
  simpl in Hscan.
  destruct completed; simpl; [|by intros [= <- <-]].
  destruct (d0 <? start_ts); [by intros [= <- <-]|].
  destruct (Z.of_nat (length items) <? posts_chunk_size);
    [by intros [= <- <-]|].
  by apply IH.
Qed.

Lemma parse_posts_loop_pages fuel : forall offset collected requests posts requests',
  parse_posts_loop start_ts end_ts posts_chunk_size wall_get fuel offset
    collected requests = Some (posts, requests') ->
  exists n,
    requests'
    = requests
      ++ ((fun i => offset + Z.of_nat i * posts_chunk_size) <$> seq 0 n).
Proof.
  induction fuel as [|fuel IH]; intros offset collected requests posts requests';
    simpl; [done|].
  assert (Hone : forall p, Some (p, requests ++ [offset]) = Some (posts, requests') ->
    exists n, requests'
      = requests ++ ((fun i => offset + Z.of_nat i * posts_chunk_size) <$> seq 0 n)).
  { intros p [= _ <-]. exists 1%nat. simpl. do 2 f_equal. lia. }
  destruct (wall_get offset) as [[items|]| |]; try apply Hone.
  destruct (last items) as [oldest|]; [|apply Hone].
  destruct (wi_date oldest) as [d0|]; [|apply Hone].
  destruct (scan_posts start_ts end_ts items collected) as [collected' completed].
  destruct completed; simpl; [|apply Hone].
  destruct (d0 <? start_ts); [apply Hone|].
  destruct (Z.of_nat (length items) <? posts_chunk_size); [apply Hone|].
  intros Hrun. apply IH in Hrun as [n ->]. exists (S n).
  rewrite <- app_assoc. f_equal. simpl. f_equal; [lia|].
  rewrite <- fmap_S_seq, <- list_fmap_compose. apply list_fmap_ext.
  intros i x _. simpl. lia.
Qed.

Lemma parse_posts_loop_quiet fuel : forall offset collected requests,
  parse_posts_loop start_ts end_ts posts_chunk_size (quiet_wall wall_get)
    fuel offset collected requests
  = parse_posts_loop start_ts end_ts posts_chunk_size wall_get fuel offset
      collected requests.
Proof.
  induction fuel as [|fuel IH]; intros offset collected requests; simpl; [done|].
  unfold quiet_wall at 1.
  destruct (wall_get offset) as [[items|]| |]; try done.
  destruct (last items) as [oldest|]; [|done].
  destruct (wi_date oldest) as [d0|]; [|done].
  destruct (scan_posts start_ts end_ts items collected) as [collected' completed].
  destruct completed; simpl; [|done].
  destruct (d0 <? start_ts); [done|].
  destruct (Z.of_nat (length items) <? posts_chunk_size); [done|].
  apply IH.
Qed.

End AnyWall.

(** *** A wall of finitely many items, newest first *)

Lemma scan_posts_complete items : forall collected,
  Forall wall_item_complete items ->
  scan_posts start_ts end_ts items collected
  = (collected ++ omap (collected_post start_ts end_ts) items, true).
Proof.
  induction items as [|post_item items IH]; intros collected Hitems; simpl.
  { by rewrite app_nil_r. }
  apply Forall_cons in Hitems as [(Hid & Howner & Hdate) Hitems].
  unfold collected_post at 1. destruct Hdate as [d ->].
  assert (Hpost : is_Some (post_data_of post_item d)).
  { unfold post_data_of. destruct Hid as [? ->], Howner as [? ->]. eauto. }
  destruct Hpost as [post Hpost]. rewrite Hpost.
  destruct (end_ts <? d) eqn:Hend.
  { apply Z.ltb_lt in Hend.
    rewrite (proj2 (Z.leb_gt d end_ts)) by lia. rewrite andb_false_r.
    by apply IH. }
  apply Z.ltb_ge in Hend. rewrite (proj2 (Z.leb_le d end_ts)) by done.
  rewrite andb_true_r.
  destruct (start_ts <=? d); [|by apply IH].
  destruct (str_truthy (text post)); [|by apply IH].
  rewrite IH by done. by rewrite <- app_assoc.
Qed.

Lemma collected_post_date post_item post :
  collected_post start_ts end_ts post_item = Some post ->
  wi_date post_item = Some (date post).
Proof.
  unfold collected_post. destruct (wi_date post_item) as [d|]; [|done].
  destruct (_ && _); [|done].
  destruct (post_data_of post_item d) as [p|] eqn:Hp; [|done].
  apply post_data_of_fields in Hp as [Hd _].
  destruct (str_truthy (text p)); [|done]. intros [= <-]. by rewrite Hd.
Qed.

Lemma collected_post_old post_item d :
  wi_date post_item = Some d -> d < start_ts ->
  collected_post start_ts end_ts post_item = None.
Proof.
  intros Hd Hlt. unfold collected_post. rewrite Hd.
  by rewrite (proj2 (Z.leb_gt start_ts d)) by lia.
Qed.

Lemma collected_posts_newest_first wall :
  wall_newest_first wall ->
  newest_first (omap (collected_post start_ts end_ts) wall).
Proof.
  intros Hsorted. unfold newest_first. apply StronglySorted_Sorted.
  induction Hsorted as [|a l Hl IH Ha]; cbn [omap list_omap]; [constructor|].
  destruct (collected_post start_ts end_ts a) as [p|] eqn:Hp; [|exact IH].
  constructor; [exact IH|].
  apply collected_post_date in Hp.
  clear -Ha Hp. induction Ha as [|b l Hb _ IH]; cbn [omap list_omap];
    [constructor|].
  destruct (collected_post start_ts end_ts b) as [q|] eqn:Hq; [|exact IH].
  constructor; [|exact IH].
  apply collected_post_date in Hq. rewrite Hp, Hq in Hb. exact Hb.
Qed.

Section FiniteWall.
Variable wall : list wall_item.
Hypothesis Hchunk : 1 <= posts_chunk_size.
Hypothesis Hcomplete : Forall wall_item_complete wall.
Hypothesis Hsorted : wall_newest_first wall.

Lemma parse_posts_loop_complete fuel : forall (off : nat) collected requests,
  (length (drop off wall) < fuel)%nat ->
  exists requests',
    parse_posts_loop start_ts end_ts posts_chunk_size
      (serve_wall wall posts_chunk_size) fuel (Z.of_nat off) collected requests
    = Some (collected ++ omap (collected_post start_ts end_ts) (drop off wall),
            requests').
Proof.
  induction fuel as [|fuel IH]; intros off collected requests Hfuel; [lia|].
  cbn [parse_posts_loop]. unfold serve_wall at 1. rewrite Nat2Z.id.
  assert (Hsorted' : StronglySorted
            (fun a b => default 0 (wi_date b) <= default 0 (wi_date a))
            (drop off wall)).
  { unfold wall_newest_first in Hsorted.
    rewrite <- (take_drop off wall) in Hsorted.
    by apply StronglySorted_app_1_r in Hsorted. }
  assert (Hrest : Forall wall_item_complete (drop off wall))
    by (by apply Forall_drop).
  assert (Hdrop : forall c, drop (off + c) wall = drop c (drop off wall)).
  { intros c. by rewrite drop_drop. }
  remember (drop off wall) as rest eqn:Hresteq. clear Hresteq.
  remember (Z.to_nat posts_chunk_size) as c eqn:Hc.
  assert (Hc1 : (1 <= c)%nat) by lia.
  assert (Hsplit : rest = take c rest ++ drop c rest).
  { symmetry. apply take_drop. }
  assert (Hitems : Forall wall_item_complete (take c rest))
    by (by apply Forall_take).
  assert (Hlentake : length (take c rest) = Nat.min c (length rest))
    by apply length_take.
  remember (take c rest) as items eqn:Hitemseq.
  destruct (last items) as [oldest|] eqn:Hlast.
  2:{ apply last_None in Hlast. subst items.
      assert (rest = []) as ->.
      { destruct rest as [|x r]; [done|]. rewrite Hlast in Hlentake.
        simpl in Hlentake. lia. }
      eexists. simpl. by rewrite app_nil_r. }
  assert (Hin : oldest ∈ items) by (by apply last_Some_elem_of).
  assert (Hdate : is_Some (wi_date oldest)).
  { rewrite Forall_forall in Hitems. by apply Hitems. }
  destruct Hdate as [d0 Hd0]. rewrite Hd0.
  rewrite scan_posts_complete by done. cbn [negb].
  assert (Homap : omap (collected_post start_ts end_ts) rest
            = omap (collected_post start_ts end_ts) items
              ++ omap (collected_post start_ts end_ts) (drop c rest)).
  { rewrite Hsplit at 1. by rewrite omap_app. }
  destruct (d0 <? start_ts) eqn:Hstop.
  { eexists. f_equal. f_equal. f_equal. rewrite Homap.
    rewrite <- (app_nil_r (omap _ items)) at 1. f_equal. symmetry.
    apply Z.ltb_lt in Hstop. rewrite Hsplit in Hsorted'.
    assert (Hold : Forall (fun b => collected_post start_ts end_ts b = None)
              (drop c rest)).
    { apply Forall_forall. intros b Hb.
      pose proof (StronglySorted_app_1_elem_of _ _ _ _ _ Hsorted' Hin Hb) as Hle.
      assert (Hbd : is_Some (wi_date b)).
      { rewrite Forall_forall in Hrest. apply Hrest.
        rewrite Hsplit. apply elem_of_app. by right. }
      destruct Hbd as [db Hdb]. cbv beta in Hle.
      rewrite Hd0, Hdb in Hle. simpl in Hle.
      eapply collected_post_old; [exact Hdb | lia]. }
    clear -Hold. induction Hold as [|b l Hb _ IH]; [done|].
    simpl. by rewrite Hb. }
  destruct (Z.of_nat (length items) <? posts_chunk_size) eqn:Hshort.
  { eexists. f_equal. f_equal. f_equal. rewrite Homap.
    rewrite <- (app_nil_r (omap _ items)) at 1. f_equal. symmetry.
    apply Z.ltb_lt in Hshort.
    rewrite drop_ge; [done|]. lia. }
  apply Z.ltb_ge in Hshort.
  assert (Hlen : length items = c) by lia.
  replace (Z.of_nat off + posts_chunk_size) with (Z.of_nat (off + c)) by lia.
  destruct (IH (off + c)%nat
              (collected ++ omap (collected_post start_ts end_ts) items)
              (requests ++ [Z.of_nat off])) as [requests' Hrun].
  { rewrite Hdrop.
    assert (length rest = (length items + length (drop c rest))%nat).
    { rewrite Hsplit at 1. by rewrite length_app. }
    lia. }
  exists requests'. rewrite Hrun, Hdrop, Homap. by rewrite app_assoc.
Qed.

End FiniteWall.

End PostsFacts.

(** Whatever the API answers, the posts that [_parse_posts] returns are
    posts of the period with a text that is stripped and not empty, and the
    requests it makes are for the offsets 0, [posts_chunk_size],
    2 * [posts_chunk_size], ... *)
Theorem parse_posts_in_period
    (start_ts end_ts posts_chunk_size : Z)
    (wall_get : Z -> call_result (option (list wall_item)))
    (fuel : nat) (vk_group_id_numeric : option Z)
    (posts : list post_data) (requests : list Z) :
  _parse_posts start_ts end_ts posts_chunk_size wall_get fuel
    vk_group_id_numeric = Some (posts, requests) ->
  Forall (fun p => start_ts <= date p <= end_ts
                   ∧ text p ≠ "" ∧ strip (text p) = text p) posts
  ∧ requests
    = (fun i => Z.of_nat i * posts_chunk_size) <$> seq 0 (length requests).
Proof.
  unfold _parse_posts. destruct vk_group_id_numeric as [gid|].
  2:{ intros [= <- <-]. by split. }
  intros Hrun. split.
  - eapply parse_posts_loop_ok; [|exact Hrun]. constructor.
  - apply parse_posts_loop_pages in Hrun as [n ->]. simpl.
    rewrite length_fmap, length_seq. done.
Qed.

Lemma parse_posts_in_period_witness :
  Forall (fun p => 1714521600 <= date p <= 1714694399
                   ∧ text p ≠ "" ∧ strip (text p) = text p)
    [ {| vk_post_id := 103; owner_id := -7; date := 1714650000;
         text := "Ivanov spoke today"; comments_api_count := 2 |} ]
  ∧ [0; 2]
    = (fun i => Z.of_nat i * 2) <$> seq 0 (length [0; 2]).
Proof.
  apply (parse_posts_in_period 1714521600 1714694399 2
           (fun offset => if offset =? 0 then serve_wall example_wall 2 0
                          else RaisedVKAPIError NetworkErrorAfterRetries)
           5 (Some 7)).
  vm_eval.
Defined.

(** A request that fails, with a [VKAPIError] or otherwise, ends the
    collection like a response without items: [_parse_posts] returns what
    it has collected and raises nothing. *)
Theorem parse_posts_failure_as_end
    (start_ts end_ts posts_chunk_size : Z)
    (wall_get : Z -> call_result (option (list wall_item)))
    (fuel : nat) (vk_group_id_numeric : option Z) :
  _parse_posts start_ts end_ts posts_chunk_size (quiet_wall wall_get) fuel
    vk_group_id_numeric
  = _parse_posts start_ts end_ts posts_chunk_size wall_get fuel
      vk_group_id_numeric.
Proof.
  unfold _parse_posts. destruct vk_group_id_numeric; [|done].
  apply parse_posts_loop_quiet.
Qed.

(** On a wall of finitely many items that have their keys and are listed
    newest first, served [posts_chunk_size >= 1] at a time, [_parse_posts]
    ends (more iterations than the wall has items suffice) and returns all
    the posts of the period that have a text, each once, in the order of
    the wall, newest first. *)
Theorem parse_posts_complete
    (start_ts end_ts posts_chunk_size : Z) (wall : list wall_item)
    (fuel : nat) (group_id : Z) :
  1 <= posts_chunk_size ->
  Forall wall_item_complete wall ->
  wall_newest_first wall ->
  (length wall < fuel)%nat ->
  exists requests,
    _parse_posts start_ts end_ts posts_chunk_size
      (serve_wall wall posts_chunk_size) fuel (Some group_id)
    = Some (omap (collected_post start_ts end_ts) wall, requests)
    ∧ newest_first (omap (collected_post start_ts end_ts) wall).
Proof.
  intros Hchunk Hcomplete Hsorted Hfuel. unfold _parse_posts.
  destruct (parse_posts_loop_complete start_ts end_ts posts_chunk_size wall
              Hchunk Hcomplete Hsorted fuel 0%nat [] []) as [requests Hrun].
  { by rewrite drop_0. }
  exists requests. rewrite drop_0 in Hrun. split; [exact Hrun|].
  by apply collected_posts_newest_first.
Qed.

Lemma example_wall_complete : Forall wall_item_complete example_wall.
Proof.
  unfold example_wall, wall_item_complete.
  repeat (apply Forall_cons; split; [simpl; eauto|]). constructor.
Qed.

Lemma example_wall_newest_first : wall_newest_first example_wall.
Proof.
  unfold wall_newest_first, example_wall.
  repeat (constructor; [|repeat (constructor; [simpl; lia|]); constructor]).
  constructor.
Qed.

Lemma parse_posts_complete_witness :
  exists requests,
    _parse_posts 1714521600 1714694399 2 (serve_wall example_wall 2) 4 (Some 7)
    = Some (omap (collected_post 1714521600 1714694399) example_wall, requests)
    ∧ newest_first (omap (collected_post 1714521600 1714694399) example_wall).
Proof.
  apply (parse_posts_complete 1714521600 1714694399 2 example_wall 4 7).
  - lia.
  - apply example_wall_complete.
  - apply example_wall_newest_first.
  - simpl. lia.
Defined.

(** ** The comments of a post *)

Section CommentsFacts.
Variables start_ts end_ts comments_chunk_size : Z.
Variable max_comments_per_post : option Z.

Let comment_ok (c : comment_data) : Prop :=
  start_ts <= comment_date c <= end_ts
  ∧ comment_text c ≠ "" ∧ strip (comment_text c) = comment_text c.

(** What the loops keep true: [fetched_count] counts the collected
    comments, which are comments of the period with a text, and does not
    exceed the maximum. *)
Let counted (collected : list comment_data) (fetched_count : Z) : Prop :=
  Forall comment_ok collected
  ∧ fetched_count = Z.of_nat (length collected)
  ∧ forall m, max_comments_per_post = Some m -> fetched_count <= Z.max 0 m.

Lemma scan_comments_counted items : forall collected fetched,
  counted collected fetched ->
  cap_reached max_comments_per_post fetched = false ->
  counted
    (scan_comments start_ts end_ts max_comments_per_post items collected
       fetched).1.1
    (scan_comments start_ts end_ts max_comments_per_post items collected
       fetched).1.2.
Proof.
  induction items as [|item items IH]; intros collected fetched Hc Hcap;
    simpl; [done|].
  destruct (ci_date item) as [d|]; [|done].
  destruct (end_ts <? d) eqn:Hend; [done|].
  destruct (d <? start_ts) eqn:Hstart; [by apply IH|].
  destruct (str_truthy (strip (default "" (ci_text item)))) eqn:Htext;
    [|by apply IH].
  destruct (ci_id item) as [id|]; [|done].
  assert (Hnew : counted
            (collected ++ [ {| vk_comment_id := id; from_id := ci_from_id item;
                               comment_date := d;
                               comment_text := strip (default "" (ci_text item)) |} ])
            (fetched + 1)).
  { destruct Hc as (Hok & Hlen & Hmax). split; [|split].
    - apply Forall_app. split; [done|]. apply Forall_singleton.
      apply Z.ltb_ge in Hend, Hstart. apply str_truthy_nonempty in Htext.
      unfold comment_ok. simpl. split_and!; [lia|lia|done|apply strip_idemp].
    - rewrite length_app. simpl. lia.
    - intros m Hm. unfold cap_reached in Hcap. rewrite Hm in Hcap.
      apply Z.leb_gt in Hcap. lia. }
  destruct (cap_reached max_comments_per_post (fetched + 1)) eqn:Hcap';
    [done|]. by apply IH.
Qed.

Section AnyThread.
Variable wall_getComments : Z -> Z -> call_result (option (list comment_item)).

Lemma parse_comments_loop_counted fuel : forall offset fetched collected comments,
  counted collected fetched ->
  parse_comments_loop start_ts end_ts comments_chunk_size max_comments_per_post
    wall_getComments fuel offset fetched collected = Some comments ->
  exists fetched', counted comments fetched'.
Proof.
  induction fuel as [|fuel IH]; intros offset fetched collected comments Hc;
    simpl; [done|].
  destruct (cap_reached max_comments_per_post fetched) eqn:Hcap.
  { intros [= <-]. eauto. }
  destruct (match max_comments_per_post with
            | Some m => m - fetched <=? 0
            | None => false
            end).
  { intros [= <-]. eauto. }
  destruct (wall_getComments _ offset) as [[items|]| |];
    try (intros [= <-]; eauto).
  destruct items as [|item items]; [intros [= <-]; eauto|].
  pose proof (scan_comments_counted (item :: items) collected fetched Hc Hcap)
    as Hscan.
  destruct (scan_comments start_ts end_ts max_comments_per_post
              (item :: items) collected fetched) as [[collected' fetched'] fin].
  simpl in Hscan.
  destruct fin; try (intros [= <-]; eauto).
  destruct (Z.of_nat (length (item :: items)) <? _);
    [intros [= <-]; eauto|].
  by apply IH.
Qed.

End AnyThread.

End CommentsFacts.

(** Whatever the API answers, the comments that [_parse_comments_for_post]
    returns are comments of the period with a text that is stripped and not
    empty, and there are at most [max_comments_per_post] of them (none when
    the maximum is negative). *)
Theorem parse_comments_capped
    (start_ts end_ts comments_chunk_size : Z)
    (max_comments_per_post : option Z)
    (wall_getComments : Z -> Z -> call_result (option (list comment_item)))
    (fuel : nat) (vk_group_id_numeric : option Z)
    (comments : list comment_data) :
  _parse_comments_for_post start_ts end_ts comments_chunk_size
    max_comments_per_post wall_getComments fuel vk_group_id_numeric
  = Some comments ->
  Forall (fun c => start_ts <= comment_date c <= end_ts
                   ∧ comment_text c ≠ ""
                   ∧ strip (comment_text c) = comment_text c) comments
  ∧ forall m, max_comments_per_post = Some m ->
      Z.of_nat (length comments) <= Z.max 0 m.
Proof.
  unfold _parse_comments_for_post. destruct vk_group_id_numeric as [gid|].
  2:{ intros [= <-]. split; [done|]. intros m _. simpl. lia. }
  intros Hrun.
  apply parse_comments_loop_counted in Hrun as (fetched' & Hok & Hlen & Hmax).
  - split; [done|]. intros m Hm. rewrite <- Hlen. by apply Hmax.
  - split; [done|]. split; [done|]. intros m _. lia.
Qed.

Lemma parse_comments_capped_witness :
  Forall (fun c => 1714521600 <= comment_date c <= 1714694399
                   ∧ comment_text c ≠ ""
                   ∧ strip (comment_text c) = comment_text c)
    [ {| vk_comment_id := 1; from_id := Some 501; comment_date := 1714560100;
         comment_text := "agree" |} ]
  ∧ forall m, Some 1 = Some m ->
      Z.of_nat (length [ {| vk_comment_id := 1; from_id := Some 501;
                            comment_date := 1714560100;
                            comment_text := "agree" |} ]) <= Z.max 0 m.
Proof.
  apply (parse_comments_capped 1714521600 1714694399 100 (Some 1)
           (serve_thread example_thread) 5 (Some 7)).
  vm_eval.
Defined.

(** *** A thread of finitely many comments, oldest first *)

Section CompleteThread.
Variables start_ts end_ts comments_chunk_size : Z.
Variable max_comments_per_post : option Z.

(** How many comments may still be collected; [None]: any number. *)
Let room (fetched : Z) : option nat :=
  match max_comments_per_post with
  | Some m => Some (Z.to_nat (m - fetched))
  | None => None
  end.

Let cap_take (r : option nat) (l : list comment_data) : list comment_data :=
  match r with
  | Some n => take n l
  | None => l
  end.

Let late (item : comment_item) : Prop := end_ts < default 0 (ci_date item).

Lemma collected_comment_late l :
  Forall late l -> omap (collected_comment start_ts end_ts) l = [].
Proof.
  induction 1 as [|item l Hitem _ IH]; [done|]. cbn [omap list_omap].
  rewrite IH. unfold collected_comment, late in *.
  destruct (ci_date item) as [d|]; [|done]. simpl in Hitem.
  destruct (ci_id item); [|done].
  by rewrite (proj2 (Z.leb_gt d end_ts)), andb_false_r by lia.
Qed.

Lemma scan_comments_complete items : forall collected fetched,
  Forall comment_item_complete items ->
  thread_oldest_first items ->
  cap_reached max_comments_per_post fetched = false ->
  exists X fin,
    scan_comments start_ts end_ts max_comments_per_post items collected fetched
    = (collected ++ X, fetched + Z.of_nat (length X), fin)
    ∧ X = cap_take (room fetched)
            (omap (collected_comment start_ts end_ts) items)
    ∧ match fin with
      | ScanDone =>
          cap_reached max_comments_per_post (fetched + Z.of_nat (length X))
            = false
          ∧ X = omap (collected_comment start_ts end_ts) items
      | ScanStop =>
          cap_reached max_comments_per_post (fetched + Z.of_nat (length X))
            = true
          ∨ Exists late items
      | ScanRaised => False
      end.
Proof.
  induction items as [|item items IH]; intros collected fetched Hcomplete
    Hsorted Hcap.
  { exists [], ScanDone. simpl. rewrite app_nil_r, Z.add_0_r.
    split; [done|]. split; [|by split].
    unfold cap_take. by destruct (room fetched); rewrite ?take_nil. }
  apply Forall_cons in Hcomplete as [[[id Hid] [d Hd]] Hcomplete].
  apply StronglySorted_cons in Hsorted as [Hrest Hsorted].
  rewrite Hd in Hrest. simpl in Hrest.
  assert (Hcc : collected_comment start_ts end_ts item
    = if (start_ts <=? d) && (d <=? end_ts)
         && str_truthy (strip (default "" (ci_text item)))
      then Some {| vk_comment_id := id; from_id := ci_from_id item;
                   comment_date := d;
                   comment_text := strip (default "" (ci_text item)) |}
      else None).
  { unfold collected_comment. by rewrite Hd, Hid. }
  cbn [scan_comments omap list_omap]. rewrite Hd, Hid.
  (* an item that is passed over *)
  assert (Hskip :
    exists X fin,
      scan_comments start_ts end_ts max_comments_per_post items collected fetched
      = (collected ++ X, fetched + Z.of_nat (length X), fin)
      ∧ X = cap_take (room fetched)
              (omap (collected_comment start_ts end_ts) items)
      ∧ match fin with
        | ScanDone =>
            cap_reached max_comments_per_post (fetched + Z.of_nat (length X))
              = false
            ∧ X = omap (collected_comment start_ts end_ts) items
        | ScanStop =>
            cap_reached max_comments_per_post (fetched + Z.of_nat (length X))
              = true
            ∨ Exists late (item :: items)
        | ScanRaised => False
        end).
  { destruct (IH collected fetched Hcomplete Hsorted Hcap)
      as (X & fin & Hrun & HX & Hfin).
    exists X, fin. split; [done|]. split; [done|].
    destruct fin; [done| |done].
    destruct Hfin as [?|?]; [by left | right; by apply Exists_cons_tl]. }
  destruct (end_ts <? d) eqn:Hend.
  { apply Z.ltb_lt in Hend. exists [], ScanStop.
    rewrite app_nil_r, Z.add_0_r. split; [done|].
    rewrite (proj2 (Z.leb_gt d end_ts)), andb_false_r in Hcc by lia.
    cbn [andb] in Hcc. rewrite Hcc. split.
    - rewrite collected_comment_late.
      + unfold cap_take. by destruct (room fetched); rewrite ?take_nil.
      + eapply Forall_impl; [exact Hrest|]. intros b Hb. unfold late.
        cbv beta in Hb. lia.
    - right. apply Exists_cons_hd. unfold late. rewrite Hd. simpl. lia. }
  apply Z.ltb_ge in Hend.
  rewrite (proj2 (Z.leb_le d end_ts)), andb_true_r in Hcc by done.
  destruct (d <? start_ts) eqn:Hstart.
  { apply Z.ltb_lt in Hstart.
    rewrite (proj2 (Z.leb_gt start_ts d)) in Hcc by lia.
    cbn [andb] in Hcc. rewrite Hcc. exact Hskip. }
  apply Z.ltb_ge in Hstart.
  rewrite (proj2 (Z.leb_le start_ts d)) in Hcc by done.
  cbn [andb] in Hcc. cbv zeta.
  destruct (str_truthy (strip (default "" (ci_text item)))) eqn:Htext;
    rewrite Hcc; [|exact Hskip].
  clear Hskip.
  set (cm := {| vk_comment_id := id; from_id := ci_from_id item;
                comment_date := d;
                comment_text := strip (default "" (ci_text item)) |}).
  assert (Hroom : forall l,
    cap_take (room fetched) (cm :: l) = cm :: cap_take (room (fetched + 1)) l).
  { intros l. unfold cap_take, room, cap_reached in *.
    destruct max_comments_per_post as [m|]; [|done].
    apply Z.leb_gt in Hcap.
    replace (Z.to_nat (m - fetched)) with (S (Z.to_nat (m - (fetched + 1))))
      by lia. done. }
  destruct (cap_reached max_comments_per_post (fetched + 1)) eqn:Hcap'.
  - exists [cm], ScanStop. split; [done|]. split.
    + rewrite Hroom. f_equal. unfold cap_take, room, cap_reached in *.
      destruct max_comments_per_post as [m|]; [|done].
      apply Z.leb_gt in Hcap. apply Z.leb_le in Hcap'.
      replace (Z.to_nat (m - (fetched + 1))) with 0%nat by lia. done.
    + left. simpl. exact Hcap'.
  - destruct (IH (collected ++ [cm]) (fetched + 1) Hcomplete Hsorted Hcap')
      as (X & fin & Hrun & HX & Hfin).
    exists (cm :: X), fin.
    replace (fetched + Z.of_nat (length (cm :: X)))
      with (fetched + 1 + Z.of_nat (length X)) by (simpl; lia).
    split; [by rewrite Hrun, <- app_assoc|]. split; [by rewrite Hroom, HX|].
    destruct fin; [|by destruct Hfin as [?|?];
                      [left | right; apply Exists_cons_tl]|done].
    destruct Hfin as [? ->]. by split.
Qed.

Section FiniteThread.
Variable thread : list comment_item.
Hypothesis Hchunk : 1 <= comments_chunk_size.
Hypothesis Hcomplete : Forall comment_item_complete thread.
Hypothesis Hsorted : thread_oldest_first thread.

Lemma parse_comments_loop_complete fuel : forall (off : nat) collected fetched,
  (length (drop off thread) < fuel)%nat ->
  parse_comments_loop start_ts end_ts comments_chunk_size max_comments_per_post
    (serve_thread thread) fuel (Z.of_nat off) fetched collected
  = Some (collected
          ++ cap_take (room fetched)
               (omap (collected_comment start_ts end_ts) (drop off thread))).
Proof.
  induction fuel as [|fuel IH]; intros off collected fetched Hfuel; [lia|].
  cbn [parse_comments_loop].
  destruct (cap_reached max_comments_per_post fetched) eqn:Hcap.
  { f_equal. unfold cap_take, room, cap_reached in *.
    destruct max_comments_per_post as [m|]; [|done].
    apply Z.leb_le in Hcap.
    replace (Z.to_nat (m - fetched)) with 0%nat by lia.
    by rewrite take_0, app_nil_r. }
  assert (Hcount : 1 <= count_to_request comments_chunk_size
                          max_comments_per_post fetched).
  { unfold count_to_request, cap_reached in *.
    destruct max_comments_per_post as [m|]; [|done].
    apply Z.leb_gt in Hcap. lia. }
  assert (Hline242 : match max_comments_per_post with
                     | Some m => m - fetched <=? 0
                     | None => false
                     end = false).
  { unfold cap_reached in Hcap. destruct max_comments_per_post as [m|]; [|done].
    apply Z.leb_gt in Hcap. apply Z.leb_gt. lia. }
  rewrite Hline242. unfold serve_thread at 1. rewrite Nat2Z.id.
  assert (Hsorted' : thread_oldest_first (drop off thread)).
  { unfold thread_oldest_first in *.
    rewrite <- (take_drop off thread) in Hsorted.
    by apply StronglySorted_app_1_r in Hsorted. }
  assert (Hrest : Forall comment_item_complete (drop off thread))
    by (by apply Forall_drop).
  assert (Hdrop : forall c, drop (off + c) thread = drop c (drop off thread)).
  { intros c. by rewrite drop_drop. }
  remember (drop off thread) as rest eqn:Hresteq. clear Hresteq.
  remember (Z.to_nat (count_to_request comments_chunk_size
                        max_comments_per_post fetched)) as c eqn:Hc.
  assert (Hc1 : (1 <= c)%nat) by lia.
  assert (Hsplit : rest = take c rest ++ drop c rest).
  { symmetry. apply take_drop. }
  assert (Hitems : Forall comment_item_complete (take c rest))
    by (by apply Forall_take).
  assert (Hlentake : length (take c rest) = Nat.min c (length rest))
    by apply length_take.
  assert (Hsorted_items : thread_oldest_first (take c rest)).
  { unfold thread_oldest_first in *. rewrite Hsplit in Hsorted'.
    by apply StronglySorted_app_1_l in Hsorted'. }
  assert (Homap : omap (collected_comment start_ts end_ts) rest
            = omap (collected_comment start_ts end_ts) (take c rest)
              ++ omap (collected_comment start_ts end_ts) (drop c rest)).
  { rewrite Hsplit at 1. by rewrite omap_app. }
  remember (take c rest) as items eqn:Hitemseq.
  destruct items as [|item items'] eqn:Hitems_eq.
  { assert (rest = []) as ->.
    { destruct rest as [|x r]; [done|]. simpl in Hlentake. lia. }
    f_equal. simpl. unfold cap_take.
    destruct (room fetched); by rewrite ?take_nil, app_nil_r. }
  rewrite <- Hitems_eq in *. clear Hitems_eq item items'.
  destruct (scan_comments_complete items collected fetched Hitems
              Hsorted_items Hcap) as (X & fin & Hrun & HX & Hfin).
  rewrite Hrun.
  assert (Htake_all : forall Y,
    cap_reached max_comments_per_post (fetched + Z.of_nat (length X)) = false ->
    X = omap (collected_comment start_ts end_ts) items ->
    cap_take (room fetched) (X ++ Y)
    = X ++ cap_take (room (fetched + Z.of_nat (length X))) Y).
  { intros Y Hcapx _. unfold cap_take, room, cap_reached in *.
    destruct max_comments_per_post as [m|]; [|done].
    apply Z.leb_gt in Hcapx.
    rewrite take_app_ge by lia. do 2 f_equal. lia. }
  destruct fin; [| |done].
  - (* the whole chunk was read *)
    destruct Hfin as [Hcapx HXall].
    destruct (Z.of_nat (length items) <? _) eqn:Hshort.
    + apply Z.ltb_lt in Hshort. f_equal. f_equal.
      assert (Hnil : drop c rest = []) by (apply drop_ge; lia).
      rewrite Homap, Hnil, <- HXall. simpl.
      rewrite (Htake_all [] Hcapx HXall).
      unfold cap_take.
      by destruct (room (fetched + _)); rewrite ?take_nil, app_nil_r.
    + apply Z.ltb_ge in Hshort.
      assert (Hlen : length items = c) by lia.
      replace (Z.of_nat off + Z.of_nat (length items))
        with (Z.of_nat (off + c)) by lia.
      rewrite IH.
      * rewrite Hdrop, <- app_assoc. f_equal. f_equal.
        rewrite Homap, <- HXall. by rewrite Htake_all.
      * rewrite Hdrop.
        assert (length rest = (length items + length (drop c rest))%nat).
        { rewrite Hsplit at 1. by rewrite length_app. }
        lia.
  - (* the scan stopped *)
    f_equal. f_equal. rewrite Homap. destruct Hfin as [Hcapx|Hlate].
    + rewrite HX. unfold cap_take, room, cap_reached in *.
      destruct max_comments_per_post as [m|]; [|done].
      apply Z.leb_le in Hcapx. apply Z.leb_gt in Hcap.
      rewrite take_app_le; [done|].
      rewrite HX, length_take in Hcapx. lia.
    + rewrite (collected_comment_late (drop c rest)).
      * by rewrite app_nil_r.
      * apply Exists_exists in Hlate as (a & Ha & Hlate).
        apply Forall_forall. intros b Hb.
        unfold thread_oldest_first in Hsorted'. rewrite Hsplit in Hsorted'.
        pose proof (StronglySorted_app_1_elem_of _ _ _ _ _ Hsorted' Ha Hb)
          as Hle.
        unfold late in *. cbv beta in Hle. lia.
Qed.

End FiniteThread.

End CompleteThread.

(** On a thread of finitely many comments that have their keys and are
    listed oldest first, served [comments_chunk_size >= 1] at a time at
    most, [_parse_comments_for_post] ends and returns the comments of the
    period that have a text, in the order of the thread: all of them, or the
    first [max_comments_per_post] when there is a maximum. *)
Theorem parse_comments_complete
    (start_ts end_ts comments_chunk_size : Z)
    (max_comments_per_post : option Z) (thread : list comment_item)
    (fuel : nat) (group_id : Z) :
  1 <= comments_chunk_size ->
  Forall comment_item_complete thread ->
  thread_oldest_first thread ->
  (length thread < fuel)%nat ->
  _parse_comments_for_post start_ts end_ts comments_chunk_size
    max_comments_per_post (serve_thread thread) fuel (Some group_id)
  = Some (capped max_comments_per_post
            (omap (collected_comment start_ts end_ts) thread)).
Proof.
  intros Hchunk Hcomplete Hsorted Hfuel. unfold _parse_comments_for_post.
  rewrite (parse_comments_loop_complete start_ts end_ts comments_chunk_size
             max_comments_per_post thread Hchunk Hcomplete Hsorted fuel 0%nat)
    by (by rewrite drop_0).
  rewrite drop_0. simpl. f_equal. unfold capped.
  destruct max_comments_per_post as [m|]; [|done].
  by rewrite Z.sub_0_r.
Qed.

Lemma example_thread_complete : Forall comment_item_complete example_thread.
Proof.
  unfold example_thread, comment_item_complete.
  repeat (apply Forall_cons; split; [simpl; eauto|]). constructor.
Qed.

Lemma example_thread_oldest_first : thread_oldest_first example_thread.
Proof.
  unfold thread_oldest_first, example_thread.
  repeat (constructor; [|repeat (constructor; [simpl; lia|]); constructor]).
  constructor.
Qed.

Lemma parse_comments_complete_witness :
  _parse_comments_for_post 1714521600 1714694399 2 (Some 5)
    (serve_thread example_thread) 5 (Some 7)
  = Some (capped (Some 5)
            (omap (collected_comment 1714521600 1714694399) example_thread)).
Proof.
  apply (parse_comments_complete 1714521600 1714694399 2 (Some 5)
           example_thread 5 7).
  - lia.
  - apply example_thread_complete.
  - apply example_thread_oldest_first.
  - simpl. lia.
Defined.

(** ** The saved count and the file *)

Section SavedCount.
Variable fetched_group : option group_info.
Variable posts_in_period : list post_data.
Variable parse_comments_for_post : Z -> option (list comment_data).


End SavedCount.



(** ** The total of a run and the lines of the file *)





(** ** Texts and metadata of the preprocessor *)


Section PreprocessorFacts.
Variable max_text_preview_length : Z.








End PreprocessorFacts.


(** ** From the written lines back to the texts *)

(** The parser keeps stripped texts that are not empty. *)
Lemma collected_post_kept start_ts end_ts post_item post :
  collected_post start_ts end_ts post_item = Some post -> kept_text (text post).
Proof.
  unfold collected_post, post_data_of. intros H.
  destruct (wi_date post_item) as [d|]; [|done].
  destruct ((start_ts <=? d) && (d <=? end_ts)); [|done].
  destruct (wi_id post_item), (wi_owner_id post_item); try done.
  simpl in H. destruct (str_truthy _) eqn:Htext; [|done].
  injection H as <-. simpl. split; [by apply str_truthy_nonempty|].
  apply strip_idemp.
Qed.

Lemma collected_comment_kept start_ts end_ts item comment :
  collected_comment start_ts end_ts item = Some comment ->
  kept_text (comment_text comment).
Proof.
  unfold collected_comment. intros H.
  destruct (ci_date item) as [d|]; [|done].
  destruct (ci_id item); [|done].
  destruct ((start_ts <=? d) && (d <=? end_ts)); [|done]. simpl in H.
  destruct (str_truthy _) eqn:Htext; [|done].
  injection H as <-. simpl. split; [by apply str_truthy_nonempty|].
  apply strip_idemp.
Qed.

Section WrittenRecords.
Variable max_text_preview_length : Z.

Lemma extract_post_data_written r :
  kept_text (text (rec_post r)) ->
  exists meta,
    _extract_post_data max_text_preview_length (json_of_record r)
    = Some (Some (text (rec_post r), meta))
    ∧ metadata_of_source meta
        {| src_type := "post"; src_id := vk_post_id (rec_post r);
           src_post_id := None; src_group_name := rec_group_name r;
           src_date := date (rec_post r); src_text := text (rec_post r) |}.
Proof.
  intros [Hne Hstrip].
  assert (Hrun :
    _extract_post_data max_text_preview_length (json_of_record r)
    = if negb (str_truthy (strip (text (rec_post r)))) then Some None
      else Some (Some (strip (text (rec_post r)),
        list_to_map
          [ ("source_type", JStr "post");
            ("source_id", JInt (vk_post_id (rec_post r)));
            ("group_id", JInt (rec_group_id r));
            ("group_name", json_of_opt_str (rec_group_name r));
            ("date_timestamp", JInt (date (rec_post r)));
            ("original_text_preview",
             JStr (py_prefix max_text_preview_length
                     (strip (text (rec_post r))))) ])))
    by reflexivity.
  rewrite Hstrip, (proj2 (str_truthy_nonempty _) Hne) in Hrun. simpl in Hrun.
  eexists. split; [exact Hrun|]. by repeat split.
Qed.

Lemma extract_comment_data_written c r :
  kept_text (comment_text c) ->
  exists meta,
    _extract_comment_data max_text_preview_length (json_of_comment c)
      (json_of_record r)
    = Some (Some (comment_text c, meta))
    ∧ metadata_of_source meta
        {| src_type := "comment"; src_id := vk_comment_id c;
           src_post_id := Some (vk_post_id (rec_post r));
           src_group_name := rec_group_name r;
           src_date := comment_date c; src_text := comment_text c |}.
Proof.
  intros [Hne Hstrip].
  assert (Hrun :
    _extract_comment_data max_text_preview_length (json_of_comment c)
      (json_of_record r)
    = if negb (str_truthy (strip (comment_text c))) then Some None
      else Some (Some (strip (comment_text c),
        list_to_map
          [ ("source_type", JStr "comment");
            ("source_id", JInt (vk_comment_id c));
            ("post_id_parent", JInt (vk_post_id (rec_post r)));
            ("group_id", JInt (rec_group_id r));
            ("group_name", json_of_opt_str (rec_group_name r));
            ("commenter_id", json_of_opt_int (from_id c));
            ("date_timestamp", JInt (comment_date c));
            ("original_text_preview",
             JStr (py_prefix max_text_preview_length
                     (strip (comment_text c)))) ])))
    by reflexivity.
  rewrite Hstrip, (proj2 (str_truthy_nonempty _) Hne) in Hrun. simpl in Hrun.
  eexists. split; [exact Hrun|]. by repeat split.
Qed.

Lemma extract_comments_written r comments : forall acc,
  Forall (fun c => kept_text (comment_text c)) comments ->
  exists metas,
    extract_comments max_text_preview_length (json_of_comment <$> comments)
      (json_of_record r) acc
    = (acc.1 ++ (comment_text <$> comments), acc.2 ++ metas)
    ∧ Forall2 metadata_of_source metas
        ((fun c =>
            {| src_type := "comment"; src_id := vk_comment_id c;
               src_post_id := Some (vk_post_id (rec_post r));
               src_group_name := rec_group_name r;
               src_date := comment_date c; src_text := comment_text c |})
         <$> comments).
Proof.
  induction comments as [|c comments IH]; intros acc Hkept.
  { exists []. simpl. rewrite !app_nil_r. split; [by destruct acc|constructor]. }
  apply Forall_cons in Hkept as [Hc Hkept].
  destruct (extract_comment_data_written c r Hc) as (meta & Hrun & Hmeta).
  cbn [extract_comments fmap list_fmap]. rewrite Hrun.
  destruct (IH (append_text acc (Some (comment_text c, meta))) Hkept)
    as (metas & Hrest & Hmetas).
  exists (meta :: metas). split.
  - rewrite Hrest. simpl. by rewrite <- !app_assoc.
  - by constructor.
Qed.

Lemma extract_line_written r acc :
  record_kept r ->
  exists metas,
    extract_line max_text_preview_length acc (Some (json_of_record r))
    = (acc.1 ++ (src_text <$> record_sources r), acc.2 ++ metas)
    ∧ Forall2 metadata_of_source metas (record_sources r).
Proof.
  intros [Hpost Hcomments].
  destruct (extract_post_data_written r Hpost) as (meta & Hrun & Hmeta).
  unfold extract_line. rewrite Hrun.
  assert (Hget : json_get (json_of_record r) "comments" (JList [])
                 = Some (JList (json_of_comment <$> rec_comments r)))
    by reflexivity.
  rewrite Hget. cbn [json_iter].
  destruct (extract_comments_written r (rec_comments r)
              (append_text acc (Some (text (rec_post r), meta))) Hcomments)
    as (metas & Hrest & Hmetas).
  exists (meta :: metas). split.
  - rewrite Hrest. unfold record_sources. simpl.
    rewrite <- !app_assoc. simpl. do 3 f_equal.
    rewrite <- list_fmap_compose. done.
  - unfold record_sources. by constructor.
Qed.

Lemma extract_lines_written records : forall acc,
  Forall record_kept records ->
  exists metas,
    foldl (extract_line max_text_preview_length) acc
      ((fun r => Some (json_of_record r)) <$> records)
    = (acc.1 ++ (src_text <$> concat (record_sources <$> records)),
       acc.2 ++ metas)
    ∧ Forall2 metadata_of_source metas (concat (record_sources <$> records)).
Proof.
  induction records as [|r records IH]; intros acc Hkept.
  { exists []. simpl. rewrite !app_nil_r. split; [by destruct acc|constructor]. }
  apply Forall_cons in Hkept as [Hr Hkept].
  destruct (extract_line_written r acc Hr) as (m1 & Hrun & Hm1).
  cbn [foldl fmap list_fmap]. rewrite Hrun.
  destruct (IH (acc.1 ++ (src_text <$> record_sources r), acc.2 ++ m1) Hkept)
    as (m2 & Hrest & Hm2).
  exists (m1 ++ m2). split.
  - rewrite Hrest. cbn [fst snd concat]. by rewrite fmap_app, <- !app_assoc.
  - cbn [concat]. by apply Forall2_app.
Qed.

End WrittenRecords.

(** Reading back the lines that [process_and_write_to_file] wrote, with
    texts as the parser keeps them (stripped, not empty),
    [extract_and_prepare_input] returns, record after record, the text of
    the post and then the texts of its comments, each with a metadata that
    names its kind, its id, the post of a comment, the group name and the
    date. *)
Theorem extract_written_records
    (max_text_preview_length : Z) (records : list collection_record) :
  Forall record_kept records ->
  exists metadata_for_nlp,
    extract_and_prepare_input max_text_preview_length
      (FileLines ((fun r => Some (json_of_record r)) <$> records))
    = Some (src_text <$> concat (record_sources <$> records),
            metadata_for_nlp)
    ∧ Forall2 metadata_of_source metadata_for_nlp
        (concat (record_sources <$> records)).
Proof.
  intros Hkept.
  destruct (extract_lines_written max_text_preview_length records ([], [])
              Hkept) as (metas & Hrun & Hmetas).
  exists metas. split; [|done]. unfold extract_and_prepare_input.
  by rewrite Hrun.
Qed.

Lemma example_records_kept : Forall record_kept example_records.
Proof.
  unfold example_records.
  repeat match goal with
         | |- Forall _ [] => constructor
         | |- Forall _ (_ :: _) => apply Forall_cons; split
         | |- record_kept _ => split; simpl
         | |- kept_text _ => split; [discriminate|reflexivity]
         end.
Qed.

Lemma extract_written_records_witness :
  exists metadata_for_nlp,
    extract_and_prepare_input 150
      (FileLines ((fun r => Some (json_of_record r)) <$> example_records))
    = Some (src_text <$> concat (record_sources <$> example_records),
            metadata_for_nlp)
    ∧ Forall2 metadata_of_source metadata_for_nlp
        (concat (record_sources <$> example_records)).
Proof.
  apply (extract_written_records 150 example_records).
  apply example_records_kept.
Defined.

(** ** What the pipeline returns *)

Lemma collect_entities_spec original_text text_idx ents : forall acc,
  collect_entities original_text text_idx ents acc
  = (acc.1 ++ (pair original_text <$> entity_texts ents),
     acc.2 ++ (pair text_idx <$> entity_texts ents)).
Proof.
  unfold entity_texts.
  induction ents as [|e ents IH]; intros [pairs map_back]; simpl.
  - by rewrite !app_nil_r.
  - rewrite IH. destruct (entity_text_of e) as [s|]; simpl; [|done].
    by rewrite <- !app_assoc.
Qed.

Lemma tesa_pairs_none text_list k :
  tesa_pairs text_list (replicate k []) = [].
Proof.
  unfold tesa_pairs. revert k.
  induction text_list as [|t texts IH]; intros [|k]; simpl; done.
Qed.

Lemma tagged_none (f : nat -> nat) k :
  concat (imap (fun j (entities : list string) => pair (f j) <$> entities)
            (replicate k [])) = [].
Proof.
  revert f. induction k as [|k IH]; intros f; simpl; [done|].
  apply (IH (f ∘ S)).
Qed.

Lemma found_entities_length text_list ners :
  length (found_entities text_list ners) = length text_list.
Proof. unfold found_entities. by rewrite length_resize. Qed.

Lemma found_entities_cons t texts ents ners :
  found_entities (t :: texts) (ents :: ners)
  = entity_texts ents :: found_entities texts ners.
Proof. done. Qed.

Lemma found_entities_no_text ners : found_entities [] ners = [].
Proof. unfold found_entities. simpl. apply resize_0. Qed.

Lemma found_entities_nil text_list :
  found_entities text_list [] = replicate (length text_list) [].
Proof. unfold found_entities. apply resize_nil. Qed.

Lemma collect_pairs_spec text_list : forall text_idx ners acc,
  collect_pairs text_idx text_list ners acc
  = (acc.1 ++ tesa_pairs text_list (found_entities text_list ners),
     acc.2 ++ concat (imap (fun j entities =>
                              pair (text_idx + j)%nat <$> entities)
                        (found_entities text_list ners))).
Proof.
  induction text_list as [|t texts IH]; intros k ners [pairs map_back].
  { unfold found_entities. simpl. rewrite resize_0. simpl.
    by rewrite !app_nil_r. }
  destruct ners as [|ents ners].
  { rewrite found_entities_nil, tesa_pairs_none, tagged_none. simpl.
    by rewrite !app_nil_r. }
  cbn [collect_pairs]. rewrite IH, collect_entities_spec.
  rewrite found_entities_cons. unfold tesa_pairs.
  cbn [fst snd zip_with concat imap].
  rewrite <- !app_assoc, Nat.add_0_r. do 4 f_equal.
  apply imap_ext. intros j es _. simpl.
  by replace (S (k + j)) with (k + S j)%nat by lia.
Qed.

Lemma tesa_pairs_length text_list : forall found,
  length found = length text_list ->
  length (tesa_pairs text_list found) = length (concat found).
Proof.
  unfold tesa_pairs.
  induction text_list as [|t texts IH]; intros [|es found] Hlen; try done.
  simpl. rewrite !length_app, length_fmap, IH; [done|]. simpl in Hlen. lia.
Qed.

Lemma tagged_length (found : list (list string)) : forall f : nat -> nat,
  length (concat (imap (fun j entities => pair (f j) <$> entities) found))
  = length (concat found).
Proof.
  induction found as [|es found IH]; intros f; simpl; [done|].
  rewrite !length_app, length_fmap. f_equal. apply (IH (f ∘ S)).
Qed.

Lemma append_result_middle (filled : list (list (gmap string string))) l tail x :
  append_result (filled ++ l :: tail) (length filled) x
  = Some (filled ++ (l ++ [x]) :: tail).
Proof.
  unfold append_result. rewrite list_lookup_middle by done. f_equal.
  rewrite insert_app_r_alt by lia. by rewrite Nat.sub_diag.
Qed.

Lemma mark_group (filled : list (list (gmap string string))) tail rest entities :
  forall l,
  mark_mismatch ((pair (length filled) <$> entities) ++ rest) (filled ++ l :: tail)
  = mark_mismatch rest (filled ++ (l ++ (mismatch_judgment <$> entities)) :: tail).
Proof.
  induction entities as [|e es IH]; intros l; simpl.
  - by rewrite app_nil_r.
  - rewrite append_result_middle. simpl. rewrite IH.
    by rewrite <- app_assoc.
Qed.

Lemma mark_groups (found : list (list string)) : forall k filled,
  length filled = k ->
  mark_mismatch
    (concat (imap (fun j entities => pair (k + j)%nat <$> entities) found))
    (filled ++ replicate (length found) [])
  = Some (filled ++ ((fun entities : list string =>
                      mismatch_judgment <$> entities) <$> found)).
Proof.
  induction found as [|es found IH]; intros k filled Hk; [done|].
  cbn [imap concat length replicate fmap list_fmap].
  rewrite Nat.add_0_r, <- Hk, mark_group. simpl.
  rewrite (cons_middle _ filled), app_assoc.
  erewrite imap_ext; [rewrite (IH (S (length filled)))|].
  - by rewrite <- app_assoc.
  - rewrite length_app. simpl. lia.
  - intros j x _. simpl. by replace (length filled + S j)%nat
      with (S (length filled) + j)%nat by lia.
Qed.

Section PipelineFacts.
Variable ner_predict : list string -> option (list (list (gmap string pyval))).
Variable tesa_predict : list (string * string) -> option (list string).
Variable _lemmatize_name : string -> string.
Variable capitalize : string -> string.

Let judged (entity_text polarity : string) : gmap string string :=
  judgment (normalized_entity _lemmatize_name capitalize entity_text)
    entity_text polarity.

Lemma fill_group (filled : list (list (gmap string string))) tail rest
    polarities entities : forall predicted l,
  length predicted = length entities ->
  fill_results _lemmatize_name capitalize
    ((pair (length filled) <$> entities) ++ rest) (predicted ++ polarities)
    (filled ++ l :: tail)
  = fill_results _lemmatize_name capitalize rest polarities
      (filled ++ (l ++ zip_with judged entities predicted) :: tail).
Proof.
  induction entities as [|e es IH]; intros [|p ps] l Hlen; try done.
  - simpl. by rewrite app_nil_r.
  - cbn [fmap list_fmap app fill_results]. rewrite append_result_middle.
    cbn [mbind option_bind]. rewrite IH by (simpl in Hlen; lia).
    simpl. by rewrite <- app_assoc.
Qed.

Lemma fill_groups (found : list (list string)) : forall k filled predicted,
  length filled = k ->
  length predicted = length (concat found) ->
  exists news,
    fill_results _lemmatize_name capitalize
      (concat (imap (fun j entities => pair (k + j)%nat <$> entities) found))
      predicted (filled ++ replicate (length found) [])
    = Some (filled ++ news)
    ∧ Forall2 (fun new entities => length new = length entities) news found
    ∧ concat news = zip_with judged (concat found) predicted.
Proof.
  induction found as [|es found IH]; intros k filled predicted Hk Hlen.
  { exists []. destruct predicted; [|done]. simpl. split; [done|].
    split; [constructor|done]. }
  cbn [imap concat length replicate] in *.
  rewrite length_app in Hlen.
  rewrite <- (take_drop (length es) predicted).
  rewrite Nat.add_0_r, <- Hk, fill_group by (rewrite length_take; lia).
  rewrite (cons_middle _ filled), app_assoc.
  destruct (IH (S (length filled))
              (filled ++ [[] ++ zip_with judged es (take (length es) predicted)])
              (drop (length es) predicted)) as (news & Hrun & Hlens & Hcat).
  { rewrite length_app. simpl. lia. }
  { rewrite length_drop. lia. }
  erewrite imap_ext; [rewrite Hrun|].
  - exists (zip_with judged es (take (length es) predicted) :: news).
    split; [by rewrite <- app_assoc|]. split.
    + constructor; [|done]. rewrite length_zip_with, length_take. lia.
    + simpl. rewrite Hcat, zip_with_app; [done|]. rewrite length_take. lia.
  - intros j x _. simpl. by replace (length filled + S j)%nat
      with (S (length filled) + j)%nat by lia.
Qed.

Lemma run_with_ner text_list ners :
  text_list ≠ [] ->
  ner_predict text_list = Some ners ->
  let found := found_entities text_list ners in
  let pairs := tesa_pairs text_list found in
  let predicted :=
    default (replicate (length pairs) "ERROR_TESA_PIPELINE")
      (tesa_predict pairs) in
  let tagged :=
    concat (imap (fun j entities => pair (0 + j)%nat <$> entities) found) in
  run ner_predict tesa_predict _lemmatize_name capitalize text_list
  = match pairs with
    | [] => Some (replicate (length text_list) [])
    | _ =>
        if (length predicted =? length (concat found))%nat
        then fill_results _lemmatize_name capitalize tagged predicted
               (replicate (length text_list) [])
        else mark_mismatch tagged (replicate (length text_list) [])
    end.
Proof.
  intros Htexts Hner found pairs predicted tagged. unfold run.
  destruct text_list as [|t texts]; [done|]. rewrite Hner.
  rewrite collect_pairs_spec. cbn [fst snd app]. fold found pairs tagged.
  destruct pairs as [|pr prs] eqn:Hpairs; [done|].
  unfold tagged at 1. rewrite tagged_length. done.
Qed.

End PipelineFacts.

Lemma no_entities (found : list (list string)) :
  length (concat found) = 0%nat -> found = replicate (length found) [].
Proof.
  induction found as [|es found IH]; simpl; [done|].
  rewrite length_app. intros Hlen. destruct es; [|simpl in Hlen; lia].
  f_equal. apply IH. simpl in Hlen. lia.
Qed.

Lemma same_lengths_none {A B} n :
  Forall2 (fun (r : list A) (es : list B) => length r = length es)
    (replicate n []) (replicate n []).
Proof. induction n; simpl; by constructor. Qed.

(** [run] never fails on an index: it returns one list of judgments per
    text.  When NER raises, every list is empty; otherwise text [i] gets as
    many judgments as NER found entity texts in it, whatever TESA returns
    or raises and however many results NER gives. *)
Theorem run_one_result_per_text
    (ner_predict : list string -> option (list (list (gmap string pyval))))
    (tesa_predict : list (string * string) -> option (list string))
    (_lemmatize_name capitalize : string -> string)
    (text_list : list string) :
  exists results,
    run ner_predict tesa_predict _lemmatize_name capitalize text_list
    = Some results
    ∧ length results = length text_list
    ∧ match ner_predict text_list with
      | None => Forall (fun judgments => judgments = []) results
      | Some ners =>
          Forall2 (fun judgments entities =>
                     length judgments = length entities)
            results (found_entities text_list ners)
      end.
Proof.
  destruct (decide (text_list = [])) as [->|Htexts].
  { exists []. split; [done|]. split; [done|].
    destruct (ner_predict []); [|constructor].
    rewrite found_entities_no_text. constructor. }
  destruct (ner_predict text_list) as [ners|] eqn:Hner.
  2:{ exists (replicate (length text_list) []).
      split; [|split; [apply length_replicate|by apply Forall_replicate]].
      unfold run. destruct text_list; [done|]. by rewrite Hner. }
  rewrite (run_with_ner _ _ _ _ _ _ Htexts Hner). cbv zeta.
  pose proof (found_entities_length text_list ners) as Hlen.
  pose proof (tesa_pairs_length text_list _ Hlen) as Hpairs.
  set (found := found_entities text_list ners) in *.
  destruct (tesa_pairs text_list found) as [|pr prs] eqn:Hprs.
  { exists (replicate (length text_list) []).
    split; [done|]. split; [apply length_replicate|].
    rewrite (no_entities found) by done. rewrite Hlen.
    apply same_lengths_none. }
  rewrite <- Hprs, <- Hlen.
  destruct (_ =? _)%nat eqn:Heq.
  - apply Nat.eqb_eq in Heq.
    destruct (fill_groups _lemmatize_name capitalize found 0 [] _ eq_refl Heq)
      as (news & Hrun & Hlens & _).
    exists news. split; [exact Hrun|]. split; [|done].
    by apply Forall2_length in Hlens.
  - exists ((fun entities : list string => mismatch_judgment <$> entities)
            <$> found).
    split; [exact (mark_groups found 0 [] eq_refl)|].
    split; [by rewrite length_fmap|].
    apply Forall2_fmap_l, Forall_Forall2_diag, Forall_forall.
    intros es _. simpl. by rewrite length_fmap.
Qed.

(** When NER returns and TESA returns one polarity per pair (or raises,
    which stands for ["ERROR_TESA_PIPELINE"] for every pair), the
    judgments, read text after text, are the entity texts NER found in
    their order, each with its normalized name and with the polarity at the
    same position; text [i] has the judgments of its own entities. *)
Theorem run_judgments_in_order
    (ner_predict : list string -> option (list (list (gmap string pyval))))
    (tesa_predict : list (string * string) -> option (list string))
    (_lemmatize_name capitalize : string -> string)
    (text_list : list string) (ners : list (list (gmap string pyval))) :
  ner_predict text_list = Some ners ->
  let found := found_entities text_list ners in
  let predicted :=
    default
      (replicate (length (tesa_pairs text_list found)) "ERROR_TESA_PIPELINE")
      (tesa_predict (tesa_pairs text_list found)) in
  length predicted = length (concat found) ->
  exists results,
    run ner_predict tesa_predict _lemmatize_name capitalize text_list
    = Some results
    ∧ Forall2 (fun judgments entities => length judgments = length entities)
        results found
    ∧ concat results
      = zip_with (fun entity_text polarity =>
                    judgment
                      (normalized_entity _lemmatize_name capitalize entity_text)
                      entity_text polarity)
          (concat found) predicted.
Proof.
  intros Hner found predicted Hpredicted.
  destruct (decide (text_list = [])) as [->|Htexts].
  { exists []. unfold found. rewrite found_entities_no_text.
    split; [done|]. split; [constructor|done]. }
  rewrite (run_with_ner _ _ _ _ _ _ Htexts Hner). cbv zeta.
  pose proof (found_entities_length text_list ners) as Hlen.
  pose proof (tesa_pairs_length text_list _ Hlen) as Hpairs.
  fold found in Hlen, Hpairs |- *. fold predicted.
  destruct (tesa_pairs text_list found) as [|pr prs] eqn:Hprs.
  { exists (replicate (length text_list) []). split; [done|].
    assert (Hnone : found = replicate (length found) [])
      by (by apply no_entities).
    split.
    - rewrite Hnone, Hlen. apply same_lengths_none.
    - rewrite Hnone at 1. rewrite Hlen.
      assert (Hcat : forall n, concat (replicate n (@nil string)) = []).
      { induction n; simpl; done. }
      assert (Hcat' : forall n,
                concat (replicate n (@nil (gmap string string))) = []).
      { induction n; simpl; done. }
      by rewrite Hcat, Hcat'. }
  rewrite <- Hlen, (proj2 (Nat.eqb_eq _ _) Hpredicted).
  exact (fill_groups _lemmatize_name capitalize found 0 [] predicted eq_refl
           Hpredicted).
Qed.

(** When TESA returns a list whose length is not the number of pairs, no
    polarity is used: every entity text NER found gets the judgment with
    its text as written, without ["entity_original"] and with the polarity
    ["ERROR_TESA_LENGTH_MISMATCH"]. *)
Theorem run_length_mismatch
    (ner_predict : list string -> option (list (list (gmap string pyval))))
    (tesa_predict : list (string * string) -> option (list string))
    (_lemmatize_name capitalize : string -> string)
    (text_list : list string) (ners : list (list (gmap string pyval)))
    (polarities : list string) :
  ner_predict text_list = Some ners ->
  let found := found_entities text_list ners in
  tesa_predict (tesa_pairs text_list found) = Some polarities ->
  length polarities ≠ length (concat found) ->
  run ner_predict tesa_predict _lemmatize_name capitalize text_list
  = Some ((fun entities : list string => mismatch_judgment <$> entities)
          <$> found).
Proof.
  intros Hner found Htesa Hpolarities.
  destruct (decide (text_list = [])) as [->|Htexts].
  { unfold found. by rewrite found_entities_no_text. }
  rewrite (run_with_ner _ _ _ _ _ _ Htexts Hner). cbv zeta.
  pose proof (found_entities_length text_list ners) as Hlen.
  pose proof (tesa_pairs_length text_list _ Hlen) as Hpairs.
  fold found in Hlen, Hpairs |- *. rewrite Htesa. simpl.
  destruct (tesa_pairs text_list found) as [|pr prs] eqn:Hprs.
  { rewrite (no_entities found) by done.
    by rewrite fmap_replicate, Hlen. }
  rewrite (proj2 (Nat.eqb_neq _ _) Hpolarities), <- Hlen.
  exact (mark_groups found 0 [] eq_refl).
Qed.

Lemma run_judgments_in_order_witness :
  exists results,
    run example_ner example_tesa id id example_texts = Some results
    ∧ Forall2 (fun judgments entities => length judgments = length entities)
        results (found_entities example_texts
                   (default [] (example_ner example_texts)))
    ∧ concat results
      = zip_with (fun entity_text polarity =>
                    judgment (normalized_entity id id entity_text)
                      entity_text polarity)
          [ "Ivanov"; "Petrov" ] [ "POS"; "NEG" ].
Proof.
  apply (run_judgments_in_order example_ner example_tesa id id example_texts
           (default [] (example_ner example_texts)) eq_refl).
  reflexivity.
Defined.

Lemma run_length_mismatch_witness :
  run example_ner example_short_tesa id id example_texts
  = Some [ [ mismatch_judgment "Ivanov"; mismatch_judgment "Petrov" ]; [] ].
Proof.
  apply (run_length_mismatch example_ner example_short_tesa id id
           example_texts (default [] (example_ner example_texts)) ["NEU"]
           eq_refl eq_refl).
  vm_compute. lia.
Defined.

(** ** The cleaned identifier *)

Lemma first_field_absent c s : contains c s = false -> first_field c s = s.
Proof.
  induction s as [|a s IH]; simpl; [done|].
  destruct (Ascii.eqb a c); [done|]. intros H. by rewrite IH.
Qed.

Lemma first_field_cut c s :
  (if contains c s then first_field c s else s) = first_field c s.
Proof.
  destruct (contains c s) eqn:H; [done|]. by rewrite first_field_absent.
Qed.

Lemma first_field_none c s : contains c (first_field c s) = false.
Proof.
  induction s as [|a s IH]; simpl; [done|].
  destruct (Ascii.eqb a c) eqn:Ha; simpl; [done|]. by rewrite Ha.
Qed.

Lemma first_field_keeps c d s :
  contains c s = false -> contains c (first_field d s) = false.
Proof.
  induction s as [|a s IH]; simpl; [done|].
  destruct (Ascii.eqb a c) eqn:Ha; [done|]. intros H.
  destruct (Ascii.eqb a d); simpl; [done|]. by rewrite Ha, IH.
Qed.

Lemma string_app_cons a s t :
  (String a s ++ t)%string = String a (s ++ t)%string.
Proof. reflexivity. Qed.

Lemma string_app_nil s : ("" ++ s)%string = s.
Proof. reflexivity. Qed.

Lemma first_field_app c name tail :
  contains c name = false ->
  first_field c (name ++ tail)%string = (name ++ first_field c tail)%string.
Proof.
  induction name as [|a name IH]; [done|].
  rewrite string_app_cons. simpl.
  destruct (Ascii.eqb a c); [done|]. intros H. by rewrite IH.
Qed.

Lemma string_app_empty s : (s ++ "")%string = s.
Proof.
  induction s as [|a s IH]; [done|]. by rewrite string_app_cons, IH.
Qed.

Lemma str_truthy_cons a s : str_truthy (String a s) = true.
Proof. by apply str_truthy_nonempty. Qed.

(** Whatever is typed, the identifier handed to the API has no ['/'], no
    ['?'] and no ['#']. *)
Theorem clean_identifier_no_separator (input_str : string) :
  contains "/" (clean_vk_identifier_for_api input_str) = false
  ∧ contains "?" (clean_vk_identifier_for_api input_str) = false
  ∧ contains "#" (clean_vk_identifier_for_api input_str) = false.
Proof.
  unfold clean_vk_identifier_for_api.
  destruct (negb (str_truthy input_str)); [done|]. cbv zeta.
  rewrite !first_field_cut.
  set (s := if startswith _ "vk.com/" then _ else _).
  destruct (negb (str_truthy _)); [done|].
  split_and!.
  - apply first_field_keeps, first_field_keeps, first_field_none.
  - apply first_field_keeps, first_field_none.
  - apply first_field_none.
Qed.

Lemma prefix_empty s : String.prefix "" s = true.
Proof. by destruct s. Qed.

Lemma address_rest_cut name tail :
  contains "/" name = false ->
  contains "?" name = false ->
  contains "#" name = false ->
  address_rest tail ->
  first_field "#" (first_field "?" (first_field "/" (name ++ tail)%string))
  = name.
Proof.
  intros H1 H2 H3 Htail.
  rewrite (first_field_app "/") by done.
  rewrite (first_field_app "?") by done.
  rewrite (first_field_app "#") by done.
  rewrite <- (string_app_empty name) at 2. f_equal.
  destruct tail as [|c rest]; [done|].
  destruct Htail as [->|[->| ->]]; reflexivity.
Qed.

(** A name without ['/'] that is followed by nothing, a path, a query or a
    fragment starts with [p/...] only when it is [p]. *)
Lemma startswith_name name : forall p rest tail,
  contains "/" p = false ->
  contains "?" p = false ->
  contains "#" p = false ->
  contains "/" name = false ->
  address_rest tail ->
  name ≠ p ->
  startswith (name ++ tail)%string (p ++ String "/" rest)%string = false.
Proof.
  unfold startswith.
  induction name as [|b name IH]; intros p rest tail P1 P2 P3 H1 Htail Hne.
  - rewrite string_app_nil. destruct p as [|a p]; [done|].
    rewrite string_app_cons. destruct tail as [|c tail]; [done|].
    cbn [String.prefix].
    destruct (ascii_dec a c) as [->|]; [|done]. exfalso.
    simpl in P1, P2, P3, Htail.
    destruct Htail as [->|[->| ->]]; simpl in *; done.
  - rewrite string_app_cons. destruct p as [|a p].
    + rewrite string_app_nil. cbn [String.prefix].
      destruct (ascii_dec "/" b) as [<-|]; [|done]. by simpl in H1.
    + rewrite string_app_cons. cbn [String.prefix].
      destruct (ascii_dec a b) as [->|]; [|done].
      simpl in P1, P2, P3, H1.
      destruct (Ascii.eqb b "/"); [done|].
      destruct (Ascii.eqb b "?"); [done|].
      destruct (Ascii.eqb b "#"); [done|].
      apply IH; try done. intros ->. done.
Qed.

(** An address of a group ([http://] or [https://] or no scheme, then
    [vk.com/] or [m.vk.com/] or nothing, then the name, then nothing or a
    path, a query or a fragment), without white space around it, is cleaned
    to the name; without a host the name must not itself read as a host or
    a scheme. *)
Theorem clean_identifier_of_address (scheme host name tail : string) :
  scheme = "" ∨ scheme = "http://" ∨ scheme = "https://" ->
  host = "" ∨ host = "vk.com/" ∨ host = "m.vk.com/" ->
  identifier_like name ->
  address_rest tail ->
  (host = "" ->
   name ≠ "vk.com" ∧ name ≠ "m.vk.com" ∧ name ≠ "http:" ∧ name ≠ "https:") ->
  strip (scheme ++ host ++ name ++ tail)%string
  = (scheme ++ host ++ name ++ tail)%string ->
  clean_vk_identifier_for_api (scheme ++ host ++ name ++ tail)%string = name.
Proof.
  intros Hscheme Hhost (Hname & H1 & H2 & H3) Htail Hbare Hstrip.
  unfold clean_vk_identifier_for_api. rewrite Hstrip.
  assert (Hcut := address_rest_cut name tail H1 H2 H3 Htail).
  assert (Hnonempty : negb (str_truthy name) = false).
  { by rewrite (proj2 (str_truthy_nonempty name) Hname). }
  assert (Hwhole : str_truthy (name ++ tail)%string = true).
  { destruct name as [|a name]; [done|]. apply str_truthy_cons. }
  assert (Hno : forall q p rest,
            q = (p ++ String "/" rest)%string ->
            contains "/" p = false -> contains "?" p = false ->
            contains "#" p = false -> name ≠ p ->
            startswith (name ++ tail)%string q = false).
  { intros q p rest -> P1 P2 P3 Hne. by apply startswith_name. }
  destruct Hhost as [->|Hhost].
  - destruct (Hbare eq_refl) as (N1 & N2 & N3 & N4).
    assert (Hhosts :
      startswith (name ++ tail)%string "vk.com/" = false
      ∧ startswith (name ++ tail)%string "m.vk.com/" = false).
    { split; [by apply (Hno _ "vk.com" "") | by apply (Hno _ "m.vk.com" "")]. }
    destruct Hhosts as [Hh1 Hh2].
    destruct Hscheme as [->|[->| ->]];
      rewrite ?string_app_cons, ?string_app_nil.
    + rewrite Hwhole. cbn [negb]. cbv zeta.
      rewrite (Hno "https://" "https:" "/"), (Hno "http://" "http:" "/")
        by done.
      rewrite Hh1, Hh2, !first_field_cut, Hcut, Hnonempty. done.
    + rewrite str_truthy_cons.
      cbn -[first_field contains str_truthy startswith].
      change (startswith (String "h" (String "t" (String "t" (String "p"
                (String ":" (String "/" (String "/" (name ++ tail))))))))%string
                "https://") with false.
      change (startswith (String "h" (String "t" (String "t" (String "p"
                (String ":" (String "/" (String "/" (name ++ tail))))))))%string
                "http://") with (String.prefix "" (name ++ tail)%string).
      rewrite prefix_empty.
      cbn -[first_field contains str_truthy startswith].
      rewrite Hh1, Hh2, !first_field_cut, Hcut, Hnonempty. done.
    + rewrite str_truthy_cons.
      cbn -[first_field contains str_truthy startswith].
      change (startswith (String "h" (String "t" (String "t" (String "p"
                (String "s" (String ":" (String "/" (String "/"
                  (name ++ tail)))))))))%string "https://")
        with (String.prefix "" (name ++ tail)%string).
      rewrite prefix_empty.
      cbn -[first_field contains str_truthy startswith].
      rewrite Hh1, Hh2, !first_field_cut, Hcut, Hnonempty. done.
  - unfold startswith.
    destruct Hscheme as [->|[->| ->]], Hhost as [->| ->];
      rewrite ?string_app_cons, ?string_app_nil;
      rewrite str_truthy_cons;
      cbn -[first_field contains str_truthy];
      rewrite ?prefix_empty, !first_field_cut, Hcut, Hnonempty; done.
Qed.

Lemma clean_identifier_of_address_witness :
  clean_vk_identifier_for_api "https://vk.com/club7?w=wall-7_1/all" = "club7".
Proof.
  apply (clean_identifier_of_address "https://" "vk.com/" "club7"
           "?w=wall-7_1/all").
  - by right; right.
  - by right; left.
  - by repeat split.
  - simpl. by right; left.
  - done.
  - reflexivity.
Defined.
